(** * Scale-in utilities of the stateful target plugin

    A shallow embedding of [plugins/builtin/target/stateful/utils]: the
    [ScaleIn] helper ([RunPreScaleInTasks], [identifyTargets],
    [getRemoteIDMap], [filterBusyNodes], [drainNodes], [drainNode],
    [monitorNodeDrain], [filterOutNodeID], [NewScaleInUtils]) together with
    the parts of [go-multierror] and [fmt] the helper relies on, and the DMS
    API client of the package: its configuration, its construction and its
    queries.

    Conventions.
    - A Go slice is a [list]; the nil slice and the empty slice are both [[]]
      (the code only ever takes [len], ranges over, or appends to its slices).
    - A Go [error] interface value is [option error], [None] being [nil].
    - A Go function returning [(T, error)] returns a pair [T * option error].
    - Calls to collaborators (the Nomad API, the DMS API, the logger) are
      recorded in a trace of [Event]s by a writer monad; what the
      collaborators answer is read from the records [NomadClient] and
      [DmsApiClient].
    - Pointers handed to the helper ([req], [req.PoolIdentifier], the Nomad
      client) are taken to be non-nil.  The DMS client of the helper is an
      option: [NewScaleInUtils] hands the helper out with a nil DMS client
      when that client cannot be built. *)

From stdpp Require Import base tactics option list strings gmap pretty sorting.
From Stdlib Require Import ZArith Lia.

Local Open Scope string_scope.
Local Open Scope list_scope.
Local Open Scope Z_scope.

(** ** Errors: [errors.New], [fmt.Errorf], [multierror] *)

(** An error is either a plain message ([errors.New], [fmt.Errorf] without
    [%w], errors handed back by a collaborator, seen through [Error()]) or a
    [*multierror.Error] with its [Errors] slice. *)
#[warnings="-register-all"]
Inductive error : Type :=
| errorString (msg : string)
| multiError (Errors : list error).

(** [strings.Join]. *)
Fixpoint strings_Join (elems : list string) (sep : string) : string :=
  match elems with
  | [] => ""
  | [e] => e
  | e :: rest => e +:+ sep +:+ strings_Join rest sep
  end.

Definition LF : string := String (Ascii.ascii_of_nat 10) EmptyString.
Definition TAB : string := String (Ascii.ascii_of_nat 9) EmptyString.

(** [multierror.ListFormatFunc], the default [ErrorFormat], over the messages
    of the collected errors. *)
Definition ListFormatFunc (es : list string) : string :=
  match es with
  | [e] => "1 error occurred:" +:+ LF +:+ TAB +:+ "* " +:+ e +:+ LF +:+ LF
  | _ =>
      let points := map (fun e => "* " +:+ e) es in
      pretty (length es) +:+ " errors occurred:" +:+ LF +:+ TAB +:+
      strings_Join points (LF +:+ TAB) +:+ LF +:+ LF
  end.

(** The [Error()] method. *)
Fixpoint Error_ (e : error) : string :=
  match e with
  | errorString msg => msg
  | multiError es => ListFormatFunc (map Error_ es)
  end.

(** [errors.New(msg)]. *)
Definition errors_New (msg : string) : error := errorString msg.

(** [fmt.Errorf(prefix + "%v", err)]: the verb prints [err.Error()]. *)
Definition Errorf_v (prefix : string) (err : error) : error :=
  errorString (prefix +:+ Error_ err).

(** What [multierror.Append] flattens an appended error to. *)
Definition flatten (e : error) : list error :=
  match e with
  | multiError es => es
  | _ => [e]
  end.

(** [multierror.Append(err, e)] for a non-nil [e].  A nil [err] (typed or
    not) starts a fresh [Error]; a [*Error] is extended; any other error
    becomes the first entry. Appended [*Error]s are flattened. *)
Definition multierror_Append (err : option error) (e : error) : error :=
  match err with
  | None => multiError (flatten e)
  | Some (multiError es) => multiError (es ++ flatten e)
  | Some a => multiError (a :: flatten e)
  end.

(** The [ErrorOrNil] method of [multierror.Error]. *)
Definition ErrorOrNil (mErr : option error) : option error :=
  match mErr with
  | Some (multiError []) => None
  | _ => mErr
  end.

(** ** Data *)

(** [api.NodeListStub], the summary record of the node listing. *)
Record NodeListStub := {
  ID : string;
  NodeClass : string;
  CreateIndex : Z;
}.

(** [api.Node], the full node record. *)
Record Node := {
  Node_ID : string;
  Attributes : gmap string string;
}.

Record NodeID := {
  NomadID : string;
  RemoteID : string;
}.

#[global] Instance NodeListStub_eq_dec : EqDecision NodeListStub.
Proof. solve_decision. Defined.

#[global] Instance NodeID_eq_dec : EqDecision NodeID.
Proof. solve_decision. Defined.

Definition IdentifierKey := string.
Definition RemoteProvider := string.
Definition NodeIDStrategy := string.

Record PoolIdentifier := {
  PoolIdentifierKey : IdentifierKey;
  Value : string;
}.

(** [time.Duration] is an [int64] count of nanoseconds. *)
Definition Duration := Z.

Record ScaleInReq := {
  Num : Z;
  DrainDeadline : Duration;
  ReqPoolIdentifier : PoolIdentifier;
  ReqRemoteProvider : RemoteProvider;
  ReqNodeIDStrategy : NodeIDStrategy;
}.

Record DrainSpec := { Deadline : Duration }.

(** [api.MonitorMsgLevel] is an [int]. *)
Definition MonitorMsgLevel := Z.
Definition MonitorMsgLevelNormal : MonitorMsgLevel := 0.
Definition MonitorMsgLevelInfo : MonitorMsgLevel := 1.
Definition MonitorMsgLevelWarn : MonitorMsgLevel := 2.
Definition MonitorMsgLevelError : MonitorMsgLevel := 3.

Record MonitorMessage := {
  Level : MonitorMsgLevel;
  Message : string;
}.

(** [DmsNodes.Nodes], a [map[string]bool] keyed by Nomad node ID. *)
Record DmsNodes := { Nodes : gmap string bool }.

(** ** Events and the trace monad *)

Inductive LogLevel := LDebug | LInfo | LWarn | LError.

Inductive LogValue :=
| VStr (s : string)
| VInt (n : Z).

Inductive Event :=
| EvLog (lvl : LogLevel) (msg : string) (args : list (string * LogValue))
| EvNodesList
| EvNodesInfo (nodeID : string)
| EvDmsList
| EvUpdateDrain (nodeID : string) (spec : DrainSpec)
| EvMonitorDrain (nodeID : string) (index : Z).

(** A computation returns its value and the events it caused, in order. *)
Definition M (A : Type) : Type := A * list Event.

Definition ret {A} (a : A) : M A := (a, []).

Definition bind {A B} (m : M A) (f : A -> M B) : M B :=
  let '(a, t1) := m in
  let '(b, t2) := f a in
  (b, t1 ++ t2).

Definition emit (e : Event) : M unit := (tt, [e]).

Definition value {A} (m : M A) : A := fst m.
Definition trace {A} (m : M A) : list Event := snd m.

Arguments bind {A B} m f : simpl never.
Arguments value {A} m : simpl never.
Arguments trace {A} m : simpl never.

Declare Scope go_scope.
Delimit Scope go_scope with go.
Notation "x <- c1 ;; c2" := (bind c1 (fun x => c2))
  (at level 100, c1 at next level, right associativity) : go_scope.
Notation "c1 ;;; c2" := (bind c1 (fun _ => c2))
  (at level 100, right associativity) : go_scope.
Local Open Scope go_scope.

Definition log (lvl : LogLevel) (msg : string)
    (args : list (string * LogValue)) : M unit :=
  emit (EvLog lvl msg args).

(** ** filterOutNodeID *)

(** The range loop of [filterOutNodeID], [out] being built by [append]. *)
Fixpoint filterOutNodeID_loop (n : list NodeListStub) (id : string)
    (out : list NodeListStub) : list NodeListStub :=
  match n with
  | [] => out
  | node :: rest =>
      if decide (ID node = id) then filterOutNodeID_loop rest id out
      else filterOutNodeID_loop rest id (out ++ [node])
  end.

Definition filterOutNodeID (n : list NodeListStub) (id : string)
    : list NodeListStub :=
  if decide (id = "") then n
  else filterOutNodeID_loop n id [].

(** ** Collaborators *)

(** What a call to a collaborator hands back: a value, or an error. *)
Inductive Result (A : Type) : Type :=
| Ok (a : A)
| Err (e : error).
Arguments Ok {A} a.
Arguments Err {A} e.

(** A call of the helper returns, or panics at run time. *)
Inductive Outcome (A : Type) : Type :=
| Returned (a : A)
| Panicked.
Arguments Returned {A} a.
Arguments Panicked {A}.

(** The answers of the Nomad API client [si.nomad] to the calls the helper
    makes: [Nodes().List(nil)], [Nodes().Info(id, nil)],
    [Nodes().UpdateDrain(id, spec, false, nil)] (its [LastIndex]) and the
    messages [Nodes().MonitorDrain(ctx, id, index, false)] delivers before
    its channel is closed. *)
Record NomadClient := {
  Nodes_List : Result (list NodeListStub);
  Nodes_Info : string -> Result Node;
  Nodes_UpdateDrain : string -> DrainSpec -> Result Z;
  Nodes_MonitorDrain : string -> Z -> list MonitorMessage;
}.

(** What [Dms().List()] does on a DMS client that is not nil: it answers
    with the nodes or with an error, or it panics, as the query does when the
    address of the client does not parse. *)
Record DmsApiClient := {
  Dms_List : Outcome (Result DmsNodes);
}.

(** The helper.  [NewScaleInUtils] hands it out also when the DMS client
    could not be built; [dms] is nil then. *)
Record ScaleIn := {
  nomad : NomadClient;
  curNodeID : string;
  dms : option DmsApiClient;
}.

(** A [context.Context], seen through [ctx.Err()]: what it answers once the
    monitoring stream of the given node has been closed. *)
Record Context := {
  ctx_Err : string -> option error;
}.

(** The declarations of package [utils] the helper uses but which live in
    another file of the package: the strategy constant, request validation,
    the pool filter and the table of remote-ID functions.  An ID function
    returns [(id, err)]. *)
Record Pkg := {
  IDStrategyNewestCreateIndex : NodeIDStrategy;
  validate : ScaleInReq -> option error;
  IdentifyNodes :
    PoolIdentifier -> list NodeListStub -> list NodeListStub * option error;
  idFuncMap : RemoteProvider -> option (Node -> string * option error);
}.

(** The order in which the drain goroutines of [drainNodes] take
    [resultLock], i.e. complete: some rearrangement of the nodes.  The
    goroutines share nothing but [result]; the trace keeps the events of one
    goroutine together, in this order. *)
Record Scheduler := {
  completion : list NodeID -> list NodeID;
  completion_perm : forall nodes, completion nodes ≡ₚ nodes;
}.

(** ** Go runtime helpers *)

(** Arithmetic on [int] (64 bits) wraps around. *)
Definition wrap64 (z : Z) : Z := (z + 2 ^ 63) mod 2 ^ 64 - 2 ^ 63.

Definition len {A} (l : list A) : Z := Z.of_nat (length l).

Definition DQUOTE : string := String (Ascii.ascii_of_nat 34) EmptyString.
Definition BACKSLASH : string := String (Ascii.ascii_of_nat 92) EmptyString.

(** The [%q] verb on a string ([strconv.Quote]) for printable ASCII: the
    string between double quotes, double quotes and backslashes escaped. *)
Fixpoint quote_body (s : string) : string :=
  match s with
  | EmptyString => EmptyString
  | String c rest =>
      if decide (c = Ascii.ascii_of_nat 34) then BACKSLASH +:+ DQUOTE +:+ quote_body rest
      else if decide (c = Ascii.ascii_of_nat 92) then BACKSLASH +:+ BACKSLASH +:+ quote_body rest
      else String c (quote_body rest)
  end.

Definition strconv_Quote (s : string) : string :=
  DQUOTE +:+ quote_body s +:+ DQUOTE.

(** ** The ScaleIn helper *)

Section ScaleInUtils.
Context (P : Pkg) (si : ScaleIn).

(** The selection loop of [identifyTargets]:
    [for i := 0; i <= num-1; i++ { out = append(out, filteredNodes[i]) }].
    [bound] is [num-1] and [rest] is [filteredNodes[i:]], so that
    [filteredNodes[i]] is the head of [rest] and indexing past the end, a
    run-time panic, is the case of an empty [rest]. *)
Fixpoint identifyTargets_loop (i bound : Z) (rest out : list NodeListStub)
    : M (Outcome (list NodeListStub)) :=
  if i <=? bound then
    match rest with
    | [] => ret Panicked
    | node :: rest' =>
        log LDebug "identified Nomad node for removal"
            [("node_id", VStr (ID node))];;;
        identifyTargets_loop (i + 1) bound rest' (out ++ [node])
    end
  else ret (Returned out).

Definition identifyTargets (num : Z) (ident : PoolIdentifier)
    (strategy : NodeIDStrategy)
    : M (Outcome (list NodeListStub * option error)) :=
  emit EvNodesList;;;
  match Nodes_List (nomad si) with
  | Err err =>
      ret (Returned ([], Some (Errorf_v "failed to list Nomad nodes from API: " err)))
  | Ok nodes =>
      log LDebug "filtering node list"
          [("filter", VStr (PoolIdentifierKey ident)); ("value", VStr (Value ident))];;;
      let '(filteredNodes, err) := IdentifyNodes P ident nodes in
      match err with
      | Some err => ret (Returned ([], Some err))
      | None =>
          let filteredNodes := filterOutNodeID filteredNodes (curNodeID si) in
          if decide (len filteredNodes = 0) then
            ret (Returned ([], Some (errorString
              ("no nodes unfiltered for " +:+ PoolIdentifierKey ident +:+
               " with value " +:+ Value ident))))
          else if decide (strategy = IDStrategyNewestCreateIndex P) then
            num <- (if decide (num > len filteredNodes) then
                      log LWarn "can only identify portion of requested nodes for removal"
                          [("requested", VInt num); ("available", VInt (len filteredNodes))];;;
                      ret (len filteredNodes)
                    else ret num);;
            r <- identifyTargets_loop 0 (wrap64 (num - 1)) filteredNodes [];;
            match r with
            | Panicked => ret Panicked
            | Returned out => ret (Returned (out, None))
            end
          else
            ret (Returned ([], Some (errorString
              ("unsupported scale in node identification strategy: " +:+
               strconv_Quote strategy))))
      end
  end.

(** The range loop of [getRemoteIDMap]. *)
Fixpoint getRemoteIDMap_loop (idFunc : Node -> string * option error)
    (nodes : list NodeListStub) (out : list NodeID) (mErr : option error)
    : M (list NodeID * option error) :=
  match nodes with
  | [] => ret (out, ErrorOrNil mErr)
  | node :: rest =>
      emit (EvNodesInfo (ID node));;;
      match Nodes_Info (nomad si) (ID node) with
      | Err err => ret ([], Some err)
      | Ok nodeInfo =>
          let '(id, err) := idFunc nodeInfo in
          let mErr :=
            match err with
            | Some err => Some (multierror_Append mErr err)
            | None => mErr
            end in
          log LDebug "identified remote provider ID for node"
              [("node_id", VStr (Node_ID nodeInfo)); ("remote_id", VStr id)];;;
          getRemoteIDMap_loop idFunc rest
            (out ++ [{| NomadID := ID node; RemoteID := id |}]) mErr
      end
  end.

Definition getRemoteIDMap (nodes : list NodeListStub)
    (remoteProvider : RemoteProvider) : M (list NodeID * option error) :=
  match idFuncMap P remoteProvider with
  | None =>
      ret ([], Some (errorString
        ("remote provider ID function not found: " +:+ remoteProvider)))
  | Some idFunc => getRemoteIDMap_loop idFunc nodes [] None
  end.

(** The range loop of [filterBusyNodes]. *)
Fixpoint filterBusyNodes_loop (nodesStatus : gmap string bool)
    (nodes out : list NodeID) : M (list NodeID) :=
  match nodes with
  | [] => ret out
  | node :: rest =>
      match nodesStatus !! NomadID node with
      | Some true =>
          log LDebug "identified busy node"
              [("node_id", VStr (NomadID node)); ("remote_id", VStr (RemoteID node))];;;
          filterBusyNodes_loop nodesStatus rest out
      | _ =>
          filterBusyNodes_loop nodesStatus rest
            (out ++ [{| NomadID := NomadID node; RemoteID := RemoteID node |}])
      end
  end.

(** [filterBusyNodes].  The call [si.dms.Dms().List()] dereferences the
    client, so that it panics on a nil [si.dms]. *)
Definition filterBusyNodes (nodes : list NodeID)
    : M (Outcome (list NodeID * option error)) :=
  let mErr : option error := None in
  emit EvDmsList;;;
  match dms si with
  | None => ret Panicked
  | Some client =>
      match Dms_List client with
      | Panicked => ret Panicked
      | Returned (Err err) => ret (Returned ([], Some err))
      | Returned (Ok nodesStatus) =>
          out <- filterBusyNodes_loop (Nodes nodesStatus) nodes [];;
          ret (Returned (out, ErrorOrNil mErr))
      end
  end.

(** The [for msg := range ch] loop of [monitorNodeDrain] over the messages
    [ch] still to be received before the channel is closed.  Next to the
    returned error it hands back the messages left unreceived. *)
Fixpoint monitorNodeDrain_range (ctx : Context) (nodeID : string)
    (ch : list MonitorMessage) : M (option error * list MonitorMessage) :=
  match ch with
  | [] => ret (ctx_Err ctx nodeID, [])
  | msg :: rest =>
      if decide (Level msg = MonitorMsgLevelInfo) then
        log LInfo "received node drain message"
            [("node_id", VStr nodeID); ("msg", VStr (Message msg))];;;
        monitorNodeDrain_range ctx nodeID rest
      else if decide (Level msg = MonitorMsgLevelWarn) then
        log LWarn "received node drain message"
            [("node_id", VStr nodeID); ("msg", VStr (Message msg))];;;
        monitorNodeDrain_range ctx nodeID rest
      else if decide (Level msg = MonitorMsgLevelError) then
        ret (Some (errorString
               ("received error while draining node: " +:+ Message msg)), rest)
      else
        log LDebug "received node drain message"
            [("node_id", VStr nodeID); ("msg", VStr (Message msg))];;;
        monitorNodeDrain_range ctx nodeID rest
  end.

Definition monitorNodeDrain (ctx : Context) (nodeID : string) (index : Z)
    : M (option error * list MonitorMessage) :=
  emit (EvMonitorDrain nodeID index);;;
  monitorNodeDrain_range ctx nodeID (Nodes_MonitorDrain (nomad si) nodeID index).

Definition drainNode (ctx : Context) (nodeID : string) (spec : DrainSpec)
    : M (option error) :=
  log LInfo "triggering drain on node"
      [("node_id", VStr nodeID); ("deadline", VInt (Deadline spec))];;;
  emit (EvUpdateDrain nodeID spec);;;
  match Nodes_UpdateDrain (nomad si) nodeID spec with
  | Err err => ret (Some (Errorf_v "failed to drain node: " err))
  | Ok lastIndex =>
      r <- monitorNodeDrain ctx nodeID lastIndex;;
      match fst r with
      | Some err =>
          ret (Some (Errorf_v "context done while monitoring node drain: " err))
      | None => ret None
      end
  end.

(** The goroutines of [drainNodes], in the order [done] in which they
    complete: each drains its node and, on failure, appends the error to
    [result] under [resultLock]. *)
Fixpoint drainNodes_join (ctx : Context) (drainSpec : DrainSpec)
    (done : list NodeID) (result : option error) : M (option error) :=
  match done with
  | [] => ret result
  | n :: rest =>
      err <- drainNode ctx (NomadID n) drainSpec;;
      match err with
      | Some err =>
          drainNodes_join ctx drainSpec rest (Some (multierror_Append result err))
      | None => drainNodes_join ctx drainSpec rest result
      end
  end.

(** [drainNodes]: one goroutine per node, [wg.Wait()] for all of them, then
    [result] is returned. *)
Definition drainNodes (sch : Scheduler) (ctx : Context) (deadline : Duration)
    (nodes : list NodeID) : M (option error) :=
  let drainSpec := {| Deadline := deadline |} in
  drainNodes_join ctx drainSpec (completion sch nodes) None.

Definition RunPreScaleInTasks (sch : Scheduler) (ctx : Context)
    (req : ScaleInReq) : M (Outcome (list NodeID * option error)) :=
  match validate P req with
  | Some err =>
      ret (Returned ([], Some (Errorf_v "failed to validate request: " err)))
  | None =>
      r <- identifyTargets (Num req) (ReqPoolIdentifier req) (ReqNodeIDStrategy req);;
      match r with
      | Panicked => ret Panicked
      | Returned (_, Some err) =>
          ret (Returned ([], Some (Errorf_v "failed to identify nodes for removal: " err)))
      | Returned (nodes, None) =>
          r <- getRemoteIDMap nodes (ReqRemoteProvider req);;
          match r with
          | (_, Some err) => ret (Returned ([], Some err))
          | (nodeIDMap, None) =>
              r <- filterBusyNodes nodeIDMap;;
              match r with
              | Panicked => ret Panicked
              | Returned (nodeIDMap, _) =>
                  if decide (len nodeIDMap = 0) then
                    ret (Returned ([], Some (errors_New "failed to identify nodes for removal")))
                  else
                    err <- drainNodes sch ctx (DrainDeadline req) nodeIDMap;;
                    match err with
                    | Some err => ret (Returned ([], Some err))
                    | None => ret (Returned (nodeIDMap, None))
                    end
              end
          end
      end
  end.

End ScaleInUtils.

(** ** Sample package declarations and clusters *)

Definition IdentifierKeyClass : IdentifierKey := "class".
Definition RemoteProviderAWSInstanceID : RemoteProvider := "aws_instance_id".

(** Modelled from the spec: the pool filter [IdentifyNodes], declared in a
    file of the package that is not at hand.  It keeps the nodes whose
    attribute named by the key equals the value of the identifier; zero
    matches and an unrecognised key are errors. *)
Definition classIdentifyNodes (ident : PoolIdentifier)
    (nodes : list NodeListStub) : list NodeListStub * option error :=
  if decide (PoolIdentifierKey ident = IdentifierKeyClass) then
    match filter (fun n => NodeClass n = Value ident) nodes with
    | [] => ([], Some (errorString "no eligible nodes"))
    | out => (out, None)
    end
  else ([], Some (errorString "unsupported pool identifier")).

(** Modelled from the spec: request validation [validate], declared in a file
    of the package that is not at hand.  The count is at least zero and the
    key of the pool identifier is a recognised kind. *)
Definition specValidate (req : ScaleInReq) : option error :=
  if decide (Num req < 0) then Some (errorString "count is negative")
  else if decide (PoolIdentifierKey (ReqPoolIdentifier req) = IdentifierKeyClass)
  then None
  else Some (errorString "unsupported pool identifier").

(** A sample ID function: the remote ID is an attribute of the full record. *)
Definition attrIDFunc (n : Node) : string * option error :=
  match Attributes n !! "unique.platform.aws.instance-id" with
  | Some id => (id, None)
  | None => ("", Some (errorString "attribute not found"))
  end.

Definition samplePkg : Pkg := {|
  IDStrategyNewestCreateIndex := "newest_create_index";
  validate := specValidate;
  IdentifyNodes := classIdentifyNodes;
  idFuncMap := fun p =>
    if decide (p = RemoteProviderAWSInstanceID) then Some attrIDFunc else None;
|}.

(** Goroutines completing in the order they were started. *)
Program Definition fifo : Scheduler := {| completion := fun nodes => nodes |}.
Next Obligation. reflexivity. Qed.

(** Goroutines completing in the reverse order. *)
Program Definition lifo : Scheduler := {| completion := fun nodes => reverse nodes |}.
Next Obligation. intros nodes. apply reverse_Permutation. Qed.

Definition background : Context := {| ctx_Err := fun _ => None |}.

Definition stub (id : string) (createIndex : Z) : NodeListStub :=
  {| ID := id; NodeClass := "high-memory"; CreateIndex := createIndex |}.

(** Creation indices 3, 1, 4, 1, 5, in the order the listing returns them. *)
Definition inventory5 : list NodeListStub :=
  [stub "n1" 3; stub "n2" 1; stub "n3" 4; stub "n4" 1; stub "n5" 5].

Definition inventory3 : list NodeListStub :=
  [stub "n1" 1; stub "n2" 2; stub "n3" 3].

Definition fullRecord (id : string) : Node :=
  {| Node_ID := id;
     Attributes := {[ "unique.platform.aws.instance-id" := "i-" +:+ id ]} |}.

Definition bareRecord (id : string) : Node :=
  {| Node_ID := id; Attributes := ∅ |}.

Definition quietDrain : list MonitorMessage :=
  [ {| Level := MonitorMsgLevelInfo; Message := "drain started" |};
    {| Level := MonitorMsgLevelNormal; Message := "drain complete" |} ].

Definition brokenDrain : list MonitorMessage :=
  [ {| Level := MonitorMsgLevelInfo; Message := "drain started" |};
    {| Level := MonitorMsgLevelError; Message := "alloc stuck" |};
    {| Level := MonitorMsgLevelWarn; Message := "never received" |} ].

(** A cluster in which every call succeeds and every drain is quiet. *)
Definition healthyNomad (inventory : list NodeListStub) : NomadClient := {|
  Nodes_List := Ok inventory;
  Nodes_Info := fun id => Ok (fullRecord id);
  Nodes_UpdateDrain := fun _ _ => Ok 42;
  Nodes_MonitorDrain := fun _ _ => quietDrain;
|}.

(** An oracle that reports n1 busy, n2 idle, and knows no other node. *)
Definition busyDms : DmsApiClient :=
  {| Dms_List := Returned (Ok {| Nodes := {[ "n1" := true; "n2" := false ]} |}) |}.

Definition idleDms : DmsApiClient :=
  {| Dms_List := Returned (Ok {| Nodes := ∅ |}) |}.

Definition healthy (inventory : list NodeListStub) : ScaleIn :=
  {| nomad := healthyNomad inventory; curNodeID := ""; dms := Some idleDms |}.

(** Three nodes; the monitoring stream of n2 carries an error message. *)
Definition n2DrainFails : ScaleIn := {|
  nomad := {|
    Nodes_List := Ok inventory3;
    Nodes_Info := fun id => Ok (fullRecord id);
    Nodes_UpdateDrain := fun _ _ => Ok 42;
    Nodes_MonitorDrain := fun id _ =>
      if decide (id = "n2") then brokenDrain else quietDrain;
  |};
  curNodeID := "";
  dms := Some idleDms;
|}.

(** Five nodes; the full record of n3 lacks the remote-ID attribute. *)
Definition n3ExtractionFails : ScaleIn := {|
  nomad := {|
    Nodes_List := Ok inventory5;
    Nodes_Info := fun id =>
      if decide (id = "n3") then Ok (bareRecord id) else Ok (fullRecord id);
    Nodes_UpdateDrain := fun _ _ => Ok 42;
    Nodes_MonitorDrain := fun _ _ => quietDrain;
  |};
  curNodeID := "";
  dms := Some idleDms;
|}.

(** Five nodes; fetching the full record of n3 fails. *)
Definition n3FetchFails : ScaleIn := {|
  nomad := {|
    Nodes_List := Ok inventory5;
    Nodes_Info := fun id =>
      if decide (id = "n3") then Err (errorString "node not found")
      else Ok (fullRecord id);
    Nodes_UpdateDrain := fun _ _ => Ok 42;
    Nodes_MonitorDrain := fun _ _ => quietDrain;
  |};
  curNodeID := "";
  dms := Some idleDms;
|}.

(** A healthy cluster of three idle nodes whose busy-node oracle cannot be
    reached. *)
Definition oracleDown (why : string) : ScaleIn := {|
  nomad := healthyNomad inventory3;
  curNodeID := "";
  dms := Some {| Dms_List := Returned (Err (errorString why)) |};
|}.

Definition request (num : Z) : ScaleInReq := {|
  Num := num;
  DrainDeadline := 300000000000;
  ReqPoolIdentifier := {| PoolIdentifierKey := IdentifierKeyClass; Value := "high-memory" |};
  ReqRemoteProvider := RemoteProviderAWSInstanceID;
  ReqNodeIDStrategy := "newest_create_index";
|}.

(** [strings.Contains]. *)
Fixpoint strings_Contains (s substr : string) : bool :=
  String.prefix substr s ||
  match s with
  | EmptyString => false
  | String _ rest => strings_Contains rest substr
  end.

(** The severity at which [monitorNodeDrain] logs a message that is not of
    error level. *)
Definition severityOf (msg : MonitorMessage) : LogLevel :=
  if decide (Level msg = MonitorMsgLevelInfo) then LInfo
  else if decide (Level msg = MonitorMsgLevelWarn) then LWarn
  else LDebug.

(** The log entry [monitorNodeDrain] writes for such a message. *)
Definition drainMessageEvent (nodeID : string) (msg : MonitorMessage) : Event :=
  EvLog (severityOf msg) "received node drain message"
    [("node_id", VStr nodeID); ("msg", VStr (Message msg))].

(** The accumulator after [multierror.Append]ing the errors [errs] to
    [mErr], one after the other. *)
Definition appendAll (mErr : option error) (errs : list error) : option error :=
  foldl (fun acc e => Some (multierror_Append acc e)) mErr errs.

(** The node IDs of the [Nodes().Info] calls of a trace, in order. *)
Definition infoCalls (t : list Event) : list string :=
  omap (fun e => match e with EvNodesInfo id => Some id | _ => None end) t.

(** The node IDs of the [Nodes().UpdateDrain] calls of a trace, in order. *)
Definition drainCalls (t : list Event) : list string :=
  omap (fun e => match e with EvUpdateDrain id _ => Some id | _ => None end) t.

(** The list a call returned; none when it panicked. *)
Definition returnedList {A} (o : Outcome (list A * option error)) : list A :=
  match o with
  | Returned (l, _) => l
  | Panicked => []
  end.

(** The full record was fetched for each of the nodes. *)
Definition fetchedAll (si : ScaleIn) (nodes : list NodeListStub)
    (fetched : list Node) : Prop :=
  Forall2 (fun node info => Nodes_Info (nomad si) (ID node) = Ok info)
    nodes fetched.

(** The errors of the nodes whose drain fails, one per failing node, in the
    order of the nodes. *)
Definition drainFailures (si : ScaleIn) (ctx : Context) (spec : DrainSpec)
    (nodes : list NodeID) : list error :=
  omap (fun n => value (drainNode si ctx (NomadID n) spec)) nodes.

(** The drain of every one of the nodes succeeds. *)
Definition allDrained (si : ScaleIn) (ctx : Context) (spec : DrainSpec)
    (nodes : list NodeID) : Prop :=
  Forall (fun n => value (drainNode si ctx (NomadID n) spec) = None) nodes.

Definition threeNodes : list NodeID :=
  [ {| NomadID := "n1"; RemoteID := "i-n1" |};
    {| NomadID := "n2"; RemoteID := "i-n2" |};
    {| NomadID := "n3"; RemoteID := "i-n3" |} ].

(** How often a trace consults the busy-node oracle. *)
Definition dmsListCalls (t : list Event) : nat :=
  length (omap (fun e => match e with EvDmsList => Some tt | _ => None end) t).

(** The warnings of a trace, in order. *)
Definition warnings (t : list Event) : list Event :=
  omap (fun e => match e with EvLog LWarn _ _ => Some e | _ => None end) t.

(** The node IDs of the [Nodes().MonitorDrain] calls of a trace, in order. *)
Definition monitorCalls (t : list Event) : list string :=
  omap (fun e => match e with EvMonitorDrain id _ => Some id | _ => None end) t.

(** The log entry [identifyTargets] writes for a node it selects. *)
Definition selectionLog (node : NodeListStub) : Event :=
  EvLog LDebug "identified Nomad node for removal" [("node_id", VStr (ID node))].

(** The selection of [identifyTargets] among the nodes [filteredNodes] left
    by the pool filter and the self-node exclusion: the count is capped at
    what is available, [num-1] is taken on 64 bits, and the loop either
    stays within the slice or runs off its end. *)
Definition selectionBound (num : Z) (filteredNodes : list NodeListStub) : Z :=
  wrap64 ((if decide (num > len filteredNodes) then len filteredNodes else num) - 1).

(** A healthy cluster with the autoscaler running on node [self]. *)
Definition healthyOn (self : string) (inventory : list NodeListStub) : ScaleIn :=
  {| nomad := healthyNomad inventory; curNodeID := self; dms := Some idleDms |}.

(** A healthy cluster whose oracle reports n1 busy. *)
Definition n1Busy : ScaleIn :=
  {| nomad := healthyNomad inventory3; curNodeID := ""; dms := Some busyDms |}.

(** The event is a log entry. *)
Definition isLog (e : Event) : Prop :=
  match e with EvLog _ _ _ => True | _ => False end.

(** The event reads from the cluster or from the oracle, or is a log entry:
    it is no drain update and no drain monitor. *)
Definition isReadOnly (e : Event) : Prop :=
  match e with
  | EvUpdateDrain _ _ | EvMonitorDrain _ _ => False
  | _ => True
  end.

(** The event belongs to the drain of a node, or is a log entry. *)
Definition isDrainEvent (e : Event) : Prop :=
  match e with
  | EvLog _ _ _ | EvUpdateDrain _ _ | EvMonitorDrain _ _ => True
  | _ => False
  end.

(** A request naming a provider that has no ID function. *)
Definition gcpRequest : ScaleInReq := {|
  Num := 1;
  DrainDeadline := 300000000000;
  ReqPoolIdentifier := {| PoolIdentifierKey := IdentifierKeyClass; Value := "high-memory" |};
  ReqRemoteProvider := "gce_instance_id";
  ReqNodeIDStrategy := "newest_create_index";
|}.

(** The warning [identifyTargets] logs when fewer nodes are available than
    requested. *)
Definition degradedWarning (requested available : Z) : Event :=
  EvLog LWarn "can only identify portion of requested nodes for removal"
    [("requested", VInt requested); ("available", VInt available)].

(** The log entry [filterBusyNodes] writes for a node it drops. *)
Definition busyLog (node : NodeID) : Event :=
  EvLog LDebug "identified busy node"
    [("node_id", VStr (NomadID node)); ("remote_id", VStr (RemoteID node))].

(** ** The DMS API client: configuration *)

(** [s[n:]]. *)
Fixpoint string_drop (n : nat) (s : string) : string :=
  match n, s with
  | O, _ => s
  | S n, String _ rest => string_drop n rest
  | S _, EmptyString => EmptyString
  end.

(** [strings.SplitN(s, sep, 2)] for a non-empty [sep]: [s] is cut at the
    first occurrence of [sep]; without an occurrence, [s] is the only part. *)
Fixpoint strings_SplitN2 (s sep : string) : list string :=
  if String.prefix sep s then [""; string_drop (String.length sep) s]
  else
    match s with
    | EmptyString => [s]
    | String c rest =>
        match strings_SplitN2 rest sep with
        | [before; after] => [String c before; after]
        | _ => [s]
        end
    end.

(** [l[i]]; indexing a slice out of range panics. *)
Definition index {A} (l : list A) (i : nat) : Outcome A :=
  match l !! i with
  | Some x => Returned x
  | None => Panicked
  end.

(** [strconv.ParseBool]. *)
Definition strconv_ParseBool (str : string) : bool * option error :=
  if bool_decide (str ∈ ["1"; "t"; "T"; "TRUE"; "true"; "True"]) then (true, None)
  else if bool_decide (str ∈ ["0"; "f"; "F"; "FALSE"; "false"; "False"]) then (false, None)
  else (false, Some (errorString
         ("strconv.ParseBool: parsing " +:+ strconv_Quote str +:+ ": invalid syntax"))).

Record HttpBasicAuth := {
  Username : string;
  Password : string;
}.

(** [TLSConfig]; the PEM fields are byte slices. *)
Record TLSConfig := {
  CACert : string;
  CAPath : string;
  CACertPEM : string;
  ClientCert : string;
  ClientCertPEM : string;
  ClientKey : string;
  ClientKeyPEM : string;
  TLSServerName : string;
  Insecure : bool;
}.

(** [&TLSConfig{}]. *)
Definition emptyTLSConfig : TLSConfig := {|
  CACert := ""; CAPath := ""; CACertPEM := ""; ClientCert := "";
  ClientCertPEM := ""; ClientKey := ""; ClientKeyPEM := "";
  TLSServerName := ""; Insecure := false;
|}.

(** [tls.Config], as far as the package reads or writes it; certificates and
    certificate pools are opaque. *)
Record TlsClientConfig := {
  MinVersion : Z;
  InsecureSkipVerify : bool;
  Certificates : list string;
  ServerName : string;
  RootCAs : option string;
}.

(** A dial function of a transport: the [DialContext] method of a
    [net.Dialer] with the given timeout and keep-alive, or some other
    function, known by a name. *)
Inductive DialFunc :=
| net_Dialer_DialContext (timeout keepAlive : Duration)
| OtherDialFunc (name : string).

(** An [http.Transport]: the exported fields that [cloneWithTimeout] names
    and, as one opaque value, everything else the transport holds (its other
    exported fields, its idle connections and locks), [None] being the zero
    value of all of it.  Functions, maps and headers are opaque, nil being
    [None]. *)
Record http_Transport := {
  Proxy : option string;
  DialContext : option DialFunc;
  Dial : option string;
  DialTLS : option string;
  TLSClientConfig : option TlsClientConfig;
  TLSHandshakeTimeout : Duration;
  DisableKeepAlives : bool;
  DisableCompression : bool;
  MaxIdleConns : Z;
  MaxIdleConnsPerHost : Z;
  MaxConnsPerHost : Z;
  IdleConnTimeout : Duration;
  ResponseHeaderTimeout : Duration;
  ExpectContinueTimeout : Duration;
  TLSNextProto : option string;
  ProxyConnectHeader : option string;
  MaxResponseHeaderBytes : Z;
  otherState : option string;
}.

(** An [http.RoundTripper]: an [*http.Transport], or some other
    implementation, known by the name of its type. *)
Inductive RoundTripper :=
| HttpTransport (tr : http_Transport)
| OtherRoundTripper (typeName : string).

(** An [http.Client]; the redirect policy and the cookie jar are opaque. *)
Record HttpClient := {
  Transport : option RoundTripper;
  CheckRedirect : option string;
  Jar : option string;
  Timeout : Duration;
}.

(** Assignments to one field of a transport or of a client. *)
Definition setTLSClientConfig (c : option TlsClientConfig)
    (tr : http_Transport) : http_Transport :=
  {| Proxy := Proxy tr; DialContext := DialContext tr; Dial := Dial tr;
     DialTLS := DialTLS tr; TLSClientConfig := c;
     TLSHandshakeTimeout := TLSHandshakeTimeout tr;
     DisableKeepAlives := DisableKeepAlives tr;
     DisableCompression := DisableCompression tr;
     MaxIdleConns := MaxIdleConns tr;
     MaxIdleConnsPerHost := MaxIdleConnsPerHost tr;
     MaxConnsPerHost := MaxConnsPerHost tr;
     IdleConnTimeout := IdleConnTimeout tr;
     ResponseHeaderTimeout := ResponseHeaderTimeout tr;
     ExpectContinueTimeout := ExpectContinueTimeout tr;
     TLSNextProto := TLSNextProto tr;
     ProxyConnectHeader := ProxyConnectHeader tr;
     MaxResponseHeaderBytes := MaxResponseHeaderBytes tr;
     otherState := otherState tr |}.

Definition setTLSHandshakeTimeout (d : Duration) (tr : http_Transport)
    : http_Transport :=
  {| Proxy := Proxy tr; DialContext := DialContext tr; Dial := Dial tr;
     DialTLS := DialTLS tr; TLSClientConfig := TLSClientConfig tr;
     TLSHandshakeTimeout := d;
     DisableKeepAlives := DisableKeepAlives tr;
     DisableCompression := DisableCompression tr;
     MaxIdleConns := MaxIdleConns tr;
     MaxIdleConnsPerHost := MaxIdleConnsPerHost tr;
     MaxConnsPerHost := MaxConnsPerHost tr;
     IdleConnTimeout := IdleConnTimeout tr;
     ResponseHeaderTimeout := ResponseHeaderTimeout tr;
     ExpectContinueTimeout := ExpectContinueTimeout tr;
     TLSNextProto := TLSNextProto tr;
     ProxyConnectHeader := ProxyConnectHeader tr;
     MaxResponseHeaderBytes := MaxResponseHeaderBytes tr;
     otherState := otherState tr |}.

Definition setDialContext (d : option DialFunc) (tr : http_Transport)
    : http_Transport :=
  {| Proxy := Proxy tr; DialContext := d; Dial := Dial tr;
     DialTLS := DialTLS tr; TLSClientConfig := TLSClientConfig tr;
     TLSHandshakeTimeout := TLSHandshakeTimeout tr;
     DisableKeepAlives := DisableKeepAlives tr;
     DisableCompression := DisableCompression tr;
     MaxIdleConns := MaxIdleConns tr;
     MaxIdleConnsPerHost := MaxIdleConnsPerHost tr;
     MaxConnsPerHost := MaxConnsPerHost tr;
     IdleConnTimeout := IdleConnTimeout tr;
     ResponseHeaderTimeout := ResponseHeaderTimeout tr;
     ExpectContinueTimeout := ExpectContinueTimeout tr;
     TLSNextProto := TLSNextProto tr;
     ProxyConnectHeader := ProxyConnectHeader tr;
     MaxResponseHeaderBytes := MaxResponseHeaderBytes tr;
     otherState := otherState tr |}.

Definition setTransport (rt : option RoundTripper) (c : HttpClient)
    : HttpClient :=
  {| Transport := rt; CheckRedirect := CheckRedirect c; Jar := Jar c;
     Timeout := Timeout c |}.

(** [DmsApiConfig]; the pointer fields are options. *)
Record DmsApiConfig := {
  Address : string;
  SecretID : string;
  ConfigHttpClient : option HttpClient;
  HttpAuth : option HttpBasicAuth;
  WaitTime : Duration;
  ConfigTLS : option TLSConfig;
}.

Definition configKeyDmsAddress : string := "dms_address".
Definition configKeyDmsToken : string := "dms_token".
Definition configKeyDmsHTTPAuth : string := "dms_http-auth".
Definition configKeyDmsCACert : string := "dms_ca-cert".
Definition configKeyDmsCAPath : string := "dms_ca-path".
Definition configKeyDmsClientCert : string := "dms_client-cert".
Definition configKeyDmsClientKey : string := "dms_client-key".
Definition configKeyDmsTLSServerName : string := "dms_tls-server-name".
Definition configKeyDmsSkipVerify : string := "dms_skip-verify".

(** [HTTPAuthFromString]: nil for the empty string; otherwise the user name
    is what precedes the first colon and the password what follows it. *)
Definition HTTPAuthFromString (auth : string) : Outcome (option HttpBasicAuth) :=
  if decide (auth = "") then Returned None
  else if strings_Contains auth ":" then
    let split := strings_SplitN2 auth ":" in
    match index split 0 with
    | Returned username =>
        match index split 1 with
        | Returned password =>
            Returned (Some {| Username := username; Password := password |})
        | Panicked => Panicked
        end
    | Panicked => Panicked
    end
  else Returned (Some {| Username := auth; Password := "" |}).

(** Field updates of a [TLSConfig]. *)
Definition setCACert (v : string) (t : TLSConfig) : TLSConfig :=
  {| CACert := v; CAPath := CAPath t; CACertPEM := CACertPEM t;
     ClientCert := ClientCert t; ClientCertPEM := ClientCertPEM t;
     ClientKey := ClientKey t; ClientKeyPEM := ClientKeyPEM t;
     TLSServerName := TLSServerName t; Insecure := Insecure t |}.
Definition setCAPath (v : string) (t : TLSConfig) : TLSConfig :=
  {| CACert := CACert t; CAPath := v; CACertPEM := CACertPEM t;
     ClientCert := ClientCert t; ClientCertPEM := ClientCertPEM t;
     ClientKey := ClientKey t; ClientKeyPEM := ClientKeyPEM t;
     TLSServerName := TLSServerName t; Insecure := Insecure t |}.
Definition setClientCert (v : string) (t : TLSConfig) : TLSConfig :=
  {| CACert := CACert t; CAPath := CAPath t; CACertPEM := CACertPEM t;
     ClientCert := v; ClientCertPEM := ClientCertPEM t;
     ClientKey := ClientKey t; ClientKeyPEM := ClientKeyPEM t;
     TLSServerName := TLSServerName t; Insecure := Insecure t |}.
Definition setClientKey (v : string) (t : TLSConfig) : TLSConfig :=
  {| CACert := CACert t; CAPath := CAPath t; CACertPEM := CACertPEM t;
     ClientCert := ClientCert t; ClientCertPEM := ClientCertPEM t;
     ClientKey := v; ClientKeyPEM := ClientKeyPEM t;
     TLSServerName := TLSServerName t; Insecure := Insecure t |}.
Definition setTLSServerName (v : string) (t : TLSConfig) : TLSConfig :=
  {| CACert := CACert t; CAPath := CAPath t; CACertPEM := CACertPEM t;
     ClientCert := ClientCert t; ClientCertPEM := ClientCertPEM t;
     ClientKey := ClientKey t; ClientKeyPEM := ClientKeyPEM t;
     TLSServerName := v; Insecure := Insecure t |}.
Definition setInsecure (v : bool) (t : TLSConfig) : TLSConfig :=
  {| CACert := CACert t; CAPath := CAPath t; CACertPEM := CACertPEM t;
     ClientCert := ClientCert t; ClientCertPEM := ClientCertPEM t;
     ClientKey := ClientKey t; ClientKeyPEM := ClientKeyPEM t;
     TLSServerName := TLSServerName t; Insecure := v |}.

(** [DmsConfigFromMap].  The configuration is built field by field; [tls] is
    the [TLSConfig] the fresh configuration points to. *)
Definition DmsConfigFromMap (cfg : gmap string string) : Outcome DmsApiConfig :=
  let address := match cfg !! configKeyDmsAddress with Some addr => addr | None => "" end in
  let secretID := match cfg !! configKeyDmsToken with Some token => token | None => "" end in
  let tls := emptyTLSConfig in
  let tls := match cfg !! configKeyDmsCACert with Some v => setCACert v tls | None => tls end in
  let tls := match cfg !! configKeyDmsCAPath with Some v => setCAPath v tls | None => tls end in
  let tls := match cfg !! configKeyDmsClientCert with Some v => setClientCert v tls | None => tls end in
  let tls := match cfg !! configKeyDmsClientKey with Some v => setClientKey v tls | None => tls end in
  let tls := match cfg !! configKeyDmsTLSServerName with Some v => setTLSServerName v tls | None => tls end in
  let tls := match cfg !! configKeyDmsSkipVerify with
             | Some skipVerify => setInsecure (strconv_ParseBool skipVerify).1 tls
             | None => tls
             end in
  match cfg !! configKeyDmsHTTPAuth with
  | Some httpAuth =>
      match HTTPAuthFromString httpAuth with
      | Returned auth =>
          Returned {| Address := address; SecretID := secretID;
                      ConfigHttpClient := None; HttpAuth := auth;
                      WaitTime := 0; ConfigTLS := Some tls |}
      | Panicked => Panicked
      end
  | None =>
      Returned {| Address := address; SecretID := secretID;
                  ConfigHttpClient := None; HttpAuth := None;
                  WaitTime := 0; ConfigTLS := Some tls |}
  end.

(** [DefaultConfig], the environment being what [os.Getenv] answers. *)
Definition DefaultConfig (getenv : string -> string) : Outcome DmsApiConfig :=
  let address := "http://127.0.0.1:4646" in
  let address := if decide (getenv "DMS_ADDR" ≠ "") then getenv "DMS_ADDR" else address in
  let auth :=
    if decide (getenv "DMS_HTTP_AUTH" ≠ "") then
      let auth := getenv "DMS_HTTP_AUTH" in
      if strings_Contains auth ":" then
        let split := strings_SplitN2 auth ":" in
        match index split 0 with
        | Returned username =>
            match index split 1 with
            | Returned password =>
                Returned (Some {| Username := username; Password := password |})
            | Panicked => Panicked
            end
        | Panicked => Panicked
        end
      else Returned (Some {| Username := auth; Password := "" |})
    else Returned None in
  let tls := emptyTLSConfig in
  let tls := if decide (getenv "DMS_CACERT" ≠ "") then setCACert (getenv "DMS_CACERT") tls else tls in
  let tls := if decide (getenv "DMS_CAPATH" ≠ "") then setCAPath (getenv "DMS_CAPATH") tls else tls in
  let tls := if decide (getenv "DMS_CLIENT_CERT" ≠ "") then setClientCert (getenv "DMS_CLIENT_CERT") tls else tls in
  let tls := if decide (getenv "DMS_CLIENT_KEY" ≠ "") then setClientKey (getenv "DMS_CLIENT_KEY") tls else tls in
  let tls := if decide (getenv "DMS_TLS_SERVER_NAME" ≠ "") then setTLSServerName (getenv "DMS_TLS_SERVER_NAME") tls else tls in
  let tls :=
    if decide (getenv "DMS_SKIP_VERIFY" ≠ "") then
      match strconv_ParseBool (getenv "DMS_SKIP_VERIFY") with
      | (insecure, None) => setInsecure insecure tls
      | (_, Some _) => tls
      end
    else tls in
  let secretID := if decide (getenv "DMS_TOKEN" ≠ "") then getenv "DMS_TOKEN" else "" in
  match auth with
  | Returned auth =>
      Returned {| Address := address; SecretID := secretID;
                  ConfigHttpClient := None; HttpAuth := auth;
                  WaitTime := 0; ConfigTLS := Some tls |}
  | Panicked => Panicked
  end.

(** [durToMsec]: [dur/time.Millisecond] is an integer division, which
    truncates toward zero. *)
Definition Millisecond : Duration := 1000000.

Definition durToMsec (dur : Duration) : string :=
  pretty (dur ÷ Millisecond) +:+ "ms".

(** The configuration with another address. *)
Definition withAddress (address : string) (c : DmsApiConfig) : DmsApiConfig :=
  {| Address := address; SecretID := SecretID c;
     ConfigHttpClient := ConfigHttpClient c; HttpAuth := HttpAuth c;
     WaitTime := WaitTime c; ConfigTLS := ConfigTLS c |}.

(** ** The DMS API client: construction *)

(** What [crypto/tls], [go-rootcerts], [go-cleanhttp] and [net/url] answer:
    loading a key pair from files or from PEM blocks, configuring the root
    certificates of a [tls.Config] (given as updated, with the error) from
    the CA file, path and PEM block, the default client, and whether
    [url.Parse] accepts an address. *)
Record Libs := {
  tls_LoadX509KeyPair : string -> string -> Result string;
  tls_X509KeyPair : string -> string -> Result string;
  rootcerts_ConfigureTLS :
    option TlsClientConfig -> string -> string -> string ->
    option TlsClientConfig * option error;
  cleanhttp_DefaultClient : HttpClient;
  url_Parse : string -> option error;
}.

(** [tls.VersionTLS12]. *)
Definition VersionTLS12 : Z := 771.

Definition Second : Duration := 1000000000.

(** The [Copy] method of [TLSConfig]: nil for nil, otherwise a copy of the
    value. *)
Definition TLSConfig_Copy (t : option TLSConfig) : option TLSConfig :=
  match t with
  | None => None
  | Some t => Some t
  end.

(** The [ClientConfig] method of [DmsApiConfig]. *)
Definition ClientConfig (c : DmsApiConfig) (address : string)
    (tlsEnabled : bool) : DmsApiConfig :=
  let scheme := if tlsEnabled then "https" else "http" in
  let tls := TLSConfig_Copy (ConfigTLS c) in
  let tls :=
    match tlsEnabled, tls with
    | true, Some t => Some (setTLSServerName "client.nomad" t)
    | _, _ => tls
    end in
  {| Address := scheme +:+ "://" +:+ address;
     SecretID := SecretID c;
     ConfigHttpClient := ConfigHttpClient c;
     HttpAuth := HttpAuth c;
     WaitTime := WaitTime c;
     ConfigTLS := tls |}.

(** [defaultHttpClient]: the clean default client with a handshake timeout
    of ten seconds and a fresh TLS configuration; the type assertion on its
    transport panics unless it is an [*http.Transport]. *)
Definition defaultHttpClient (L : Libs) : Outcome HttpClient :=
  let httpClient := cleanhttp_DefaultClient L in
  match Transport httpClient with
  | Some (HttpTransport transport) =>
      let transport := setTLSHandshakeTimeout (10 * Second) transport in
      let transport :=
        setTLSClientConfig
          (Some {| MinVersion := VersionTLS12; InsecureSkipVerify := false;
                   Certificates := []; ServerName := ""; RootCAs := None |})
          transport in
      Returned (setTransport (Some (HttpTransport transport)) httpClient)
  | _ => Panicked
  end.

(** [cloneWithTimeout].  The new transport is built from the fields the
    composite literal names, everything else being left at its zero value,
    and its dial function is then replaced; the new client is a copy of the
    old one but for the transport. *)
Definition cloneWithTimeout (httpClient : option HttpClient) (t : Duration)
    : option HttpClient * option error :=
  match httpClient with
  | None => (None, Some (errorString "nil HTTP client"))
  | Some client =>
      match Transport client with
      | None => (None, Some (errorString "nil HTTP client transport"))
      | Some rt =>
          if decide (t < 0) then (Some client, None)
          else
            match rt with
            | HttpTransport tr =>
                let ntr := {|
                  Proxy := Proxy tr;
                  DialContext := DialContext tr;
                  Dial := Dial tr;
                  DialTLS := DialTLS tr;
                  TLSClientConfig := TLSClientConfig tr;
                  TLSHandshakeTimeout := TLSHandshakeTimeout tr;
                  DisableKeepAlives := DisableKeepAlives tr;
                  DisableCompression := DisableCompression tr;
                  MaxIdleConns := MaxIdleConns tr;
                  MaxIdleConnsPerHost := MaxIdleConnsPerHost tr;
                  MaxConnsPerHost := MaxConnsPerHost tr;
                  IdleConnTimeout := IdleConnTimeout tr;
                  ResponseHeaderTimeout := ResponseHeaderTimeout tr;
                  ExpectContinueTimeout := ExpectContinueTimeout tr;
                  TLSNextProto := TLSNextProto tr;
                  ProxyConnectHeader := ProxyConnectHeader tr;
                  MaxResponseHeaderBytes := MaxResponseHeaderBytes tr;
                  otherState := None |} in
                let ntr :=
                  setDialContext
                    (Some (net_Dialer_DialContext t (30 * Second))) ntr in
                let nc := setTransport (Some (HttpTransport ntr)) client in
                (Some nc, None)
            | OtherRoundTripper typeName =>
                (None, Some (errorString
                   ("unexpected HTTP transport: " +:+ typeName)))
            end
      end
  end.

(** The client certificate [ConfigureTLS] finds: none, the pair loaded from
    the two files, the pair parsed from the two PEM blocks, or an error. *)
Definition clientCertificate (L : Libs) (tlsConfig : TLSConfig)
    : Result (option string) :=
  if decide (ClientCert tlsConfig ≠ "" \/ ClientKey tlsConfig ≠ "") then
    if decide (ClientCert tlsConfig ≠ "" /\ ClientKey tlsConfig ≠ "") then
      match tls_LoadX509KeyPair L (ClientCert tlsConfig) (ClientKey tlsConfig) with
      | Ok clientCert => Ok (Some clientCert)
      | Err err => Err err
      end
    else Err (errorString "Both client cert and client key must be provided")
  else if decide (ClientCertPEM tlsConfig ≠ "" \/ ClientKeyPEM tlsConfig ≠ "") then
    if decide (ClientCertPEM tlsConfig ≠ "" /\ ClientKeyPEM tlsConfig ≠ "") then
      match tls_X509KeyPair L (ClientCertPEM tlsConfig) (ClientKeyPEM tlsConfig) with
      | Ok clientCert => Ok (Some clientCert)
      | Err err => Err err
      end
    else Err (errorString "Both client cert and client key must be provided")
  else Ok None.

(** [ConfigureTLS].  The TLS configuration of the transport is updated in
    place; the client is handed back as it is afterwards. *)
Definition ConfigureTLS (L : Libs) (httpClient : option HttpClient)
    (tlsConfig : option TLSConfig) : Outcome (option HttpClient * option error) :=
  match tlsConfig with
  | None => Returned (httpClient, None)
  | Some tlsConfig =>
      match httpClient with
      | None =>
          Returned (None, Some (errorString "config HTTP DmsApiClient must be set"))
      | Some client =>
          match clientCertificate L tlsConfig with
          | Err err => Returned (Some client, Some err)
          | Ok foundClientCert =>
              match Transport client with
              | Some (HttpTransport transport) =>
                  let '(clientTLSConfig, err) :=
                    rootcerts_ConfigureTLS L (TLSClientConfig transport)
                      (CACert tlsConfig) (CAPath tlsConfig)
                      (CACertPEM tlsConfig) in
                  let updated c :=
                    Some (setTransport
                            (Some (HttpTransport (setTLSClientConfig c transport)))
                            client) in
                  match err with
                  | Some err => Returned (updated clientTLSConfig, Some err)
                  | None =>
                      match clientTLSConfig with
                      | None => Panicked
                      | Some c =>
                          Returned (updated (Some {|
                            MinVersion := MinVersion c;
                            InsecureSkipVerify := Insecure tlsConfig;
                            Certificates :=
                              match foundClientCert with
                              | Some clientCert => [clientCert]
                              | None => Certificates c
                              end;
                            ServerName :=
                              if decide (TLSServerName tlsConfig ≠ "")
                              then TLSServerName tlsConfig else ServerName c;
                            RootCAs := RootCAs c |}), None)
                      end
                  end
              | _ => Panicked
              end
          end
      end
  end.

(** The [DmsApiClient] struct: its HTTP client and its configuration. *)
Record ApiClient := {
  httpClient : option HttpClient;
  config : DmsApiConfig;
}.

(** [NewDmsApiClient].  Next to the client it hands back the configuration
    of the caller, whose address it fills in when empty. *)
Definition NewDmsApiClient (L : Libs) (getenv : string -> string)
    (config : DmsApiConfig)
    : Outcome ((option ApiClient * option error) * DmsApiConfig) :=
  match DefaultConfig getenv with
  | Panicked => Panicked
  | Returned defConfig =>
      let checked : DmsApiConfig * option error :=
        if decide (Address config = "") then
          (withAddress (Address defConfig) config, None)
        else
          match url_Parse L (Address config) with
          | Some err =>
              (config, Some (errorString
                 ("invalid address '" +:+ Address config +:+ "': " +:+ Error_ err)))
          | None => (config, None)
          end in
      let '(config, err) := checked in
      match err with
      | Some err => Returned ((None, Some err), config)
      | None =>
          match ConfigHttpClient config with
          | Some httpClient =>
              Returned ((Some {| httpClient := Some httpClient; config := config |},
                         None), config)
          | None =>
              match defaultHttpClient L with
              | Panicked => Panicked
              | Returned httpClient =>
                  match ConfigureTLS L (Some httpClient) (ConfigTLS config) with
                  | Panicked => Panicked
                  | Returned (_, Some err) => Returned ((None, Some err), config)
                  | Returned (httpClient, None) =>
                      Returned ((Some {| httpClient := httpClient;
                                         config := config |}, None), config)
                  end
              end
          end
      end
  end.

(** [getDmsClientImpl], [GetDmsClient] and [GetDmsClientWithTimeout]. *)
Definition getDmsClientImpl (L : Libs) (getenv : string -> string)
    (c : ApiClient) (HTTPAddr : string) (TLSEnabled : bool) (timeout : Duration)
    : Outcome (option ApiClient * option error) :=
  let conf := ClientConfig (config c) HTTPAddr TLSEnabled in
  let '(cloned, err) := cloneWithTimeout (httpClient c) timeout in
  let httpClient := match err with Some _ => httpClient c | None => cloned end in
  let conf := {| Address := Address conf; SecretID := SecretID conf;
                 ConfigHttpClient := httpClient; HttpAuth := HttpAuth conf;
                 WaitTime := WaitTime conf; ConfigTLS := ConfigTLS conf |} in
  match NewDmsApiClient L getenv conf with
  | Panicked => Panicked
  | Returned (r, _) => Returned r
  end.


Definition GetDmsClientWithTimeout (L : Libs) (getenv : string -> string)
    (c : ApiClient) (addr : string) (tlsEnabled : bool) (timeout : Duration)
    : Outcome (option ApiClient * option error) :=
  getDmsClientImpl L getenv c addr tlsEnabled timeout.

(** A transport in the manner of [cleanhttp]: proxy from the environment, a
    dialer with a timeout and a keep-alive of thirty seconds, a pool of idle
    connections, and buffer sizes of its own, which are not among the fields
    that [cloneWithTimeout] names. *)
Definition pooledTransport : http_Transport := {|
  Proxy := Some "http.ProxyFromEnvironment";
  DialContext := Some (net_Dialer_DialContext (30 * Second) (30 * Second));
  Dial := None; DialTLS := None; TLSClientConfig := None;
  TLSHandshakeTimeout := 10 * Second;
  DisableKeepAlives := false; DisableCompression := false;
  MaxIdleConns := 100; MaxIdleConnsPerHost := 5; MaxConnsPerHost := 0;
  IdleConnTimeout := 90 * Second; ResponseHeaderTimeout := 0;
  ExpectContinueTimeout := 1 * Second;
  TLSNextProto := None; ProxyConnectHeader := None;
  MaxResponseHeaderBytes := 0;
  otherState := Some "WriteBufferSize, ReadBufferSize";
|}.

(** Libraries that load every key pair, leave the root certificates alone
    and accept every address. *)
Definition sampleLibs : Libs := {|
  tls_LoadX509KeyPair := fun certFile keyFile => Ok (certFile +:+ "+" +:+ keyFile);
  tls_X509KeyPair := fun certPEM keyPEM => Ok "pem pair";
  rootcerts_ConfigureTLS := fun c _ _ _ => (c, None);
  cleanhttp_DefaultClient :=
    {| Transport := Some (HttpTransport pooledTransport);
       CheckRedirect := None; Jar := None; Timeout := 0 |};
  url_Parse := fun _ => None;
|}.

(** The same libraries with another answer of [url.Parse]. *)
Definition withParser (parse : string -> option error) (L : Libs) : Libs := {|
  tls_LoadX509KeyPair := tls_LoadX509KeyPair L;
  tls_X509KeyPair := tls_X509KeyPair L;
  rootcerts_ConfigureTLS := rootcerts_ConfigureTLS L;
  cleanhttp_DefaultClient := cleanhttp_DefaultClient L;
  url_Parse := parse;
|}.

(** The configuration that [DmsConfigFromMap] reads from an empty map: no
    address, no HTTP client, an empty TLS configuration. *)
Definition bareConfig : DmsApiConfig := {|
  Address := ""; SecretID := ""; ConfigHttpClient := None; HttpAuth := None;
  WaitTime := 0; ConfigTLS := Some emptyTLSConfig;
|}.

(** A client certificate without its key. *)
Definition loneCert : TLSConfig := setClientCert "client.pem" emptyTLSConfig.

(** A client with a dial function of its own and a keep-alive of two
    minutes. *)
Definition sampleHttpClient : HttpClient :=
  {| Transport :=
       Some (HttpTransport
               (setDialContext
                  (Some (net_Dialer_DialContext (5 * Second) (120 * Second)))
                  pooledTransport));
     CheckRedirect := Some "no redirects"; Jar := None; Timeout := 0 |}.

Definition sampleConfig : DmsApiConfig := {|
  Address := "http://dms.example:4646"; SecretID := "secret";
  ConfigHttpClient := Some sampleHttpClient; HttpAuth := None; WaitTime := 0;
  ConfigTLS := Some loneCert;
|}.

Definition sampleClient : ApiClient :=
  {| httpClient := Some sampleHttpClient; config := sampleConfig |}.

(** ** The DMS API client: queries *)

(** What can be closed while a response is handled: the gzip reader put
    around the body, and the body of the response itself. *)
Inductive Closer := GzipReaderCloser | RespBodyCloser.

#[global] Instance Closer_eq_dec : EqDecision Closer.
Proof. solve_decision. Defined.

(** The reader that [resp.Body] is: the body as received, or the
    [multiCloser] over a gzip reader over it. *)
Inductive Body := RawBody | GzipBody.

(** An [http.Response], without its body. *)
Record Response := {
  StatusCode : Z;
  Header : option (gmap string (list string));
  ContentLength : Z;
}.

(** [Header.Get], for a key in canonical form. *)
Definition Header_Get (h : gmap string (list string)) (key : string) : string :=
  match h !! key with
  | Some (v :: _) => v
  | _ => ""
  end.

(** One exchange with the DMS service, as the collaborators of [query] see
    it: the error of [toHTTP], what [httpClient.Do] returns, the error of
    [gzip.NewReader], the error of each [Close], what [io.Copy] reads from a
    body, and what decoding a body as JSON gives. *)
Record Exchange := {
  toHTTP_err : option error;
  Do_result : option Response * option error;
  gzip_NewReader_err : option error;
  Close_err : Closer -> option error;
  io_Copy : Body -> string;
  json_Decode : Body -> Result DmsNodes;
}.

(** The [Close] method of [multiCloser]: the closers are closed in order, up
    to the first that fails.  The closers closed are handed back with the
    error. *)
Fixpoint multiCloser_Close (X : Exchange) (inorderClose : list Closer)
    : option error * list Closer :=
  match inorderClose with
  | [] => (None, [])
  | c :: rest =>
      match Close_err X c with
      | Some err => (Some err, [c])
      | None =>
          let '(err, closed) := multiCloser_Close X rest in
          (err, c :: closed)
      end
  end.

(** [resp.Body.Close()]. *)
Definition Body_Close (X : Exchange) (body : Body) : option error * list Closer :=
  match body with
  | RawBody => (Close_err X RespBodyCloser, [RespBodyCloser])
  | GzipBody => multiCloser_Close X [GzipReaderCloser; RespBodyCloser]
  end.

(** [newRequest]: the error with which it returns, if any.  [url.Parse]
    hands back a nil URL with an error.  The error for the address of the
    client is dropped and the nil URL is dereferenced, once the path has
    been parsed, to fill in the URL of the request; a nil client is
    dereferenced at once. *)
Definition newRequest (L : Libs) (c : option ApiClient) (path : string)
    : Outcome (option error) :=
  match c with
  | None => Panicked
  | Some c =>
      let base := url_Parse L (Address (config c)) in
      match url_Parse L path with
      | Some err => Returned (Some err)
      | None =>
          match base with
          | Some _ => Panicked
          | None => Returned None
          end
      end
  end.

(** [doRequest]: the response comes with the reader its body has become.
    Calling [Do] through a nil HTTP client panics. *)
Definition doRequest (c : ApiClient) (X : Exchange)
    : Outcome (option (Response * Body) * option error) :=
  match toHTTP_err X with
  | Some err => Returned (None, Some err)
  | None =>
      match httpClient c with
      | None => Panicked
      | Some _ =>
          let '(resp, err) := Do_result X in
          match resp with
          | None => Returned (None, err)
          | Some resp =>
              match Header resp with
              | None => Returned (Some (resp, RawBody), err)
              | Some header =>
                  if decide (Header_Get header "Content-Encoding" = "gzip") then
                    match gzip_NewReader_err X with
                    | Some err => Returned (None, Some err)
                    | None => Returned (Some (resp, GzipBody), err)
                    end
                  else Returned (Some (resp, RawBody), err)
              end
          end
      end
  end.

(** [requireOK], with the closers it closed. *)
Definition requireOK (X : Exchange) (resp : option (Response * Body))
    (e : option error)
    : Outcome (option (Response * Body) * option error) * list Closer :=
  match e with
  | Some e =>
      match resp with
      | Some (_, body) => (Returned (None, Some e), (Body_Close X body).2)
      | None => (Returned (None, Some e), [])
      end
  | None =>
      match resp with
      | None => (Panicked, [])
      | Some (resp, body) =>
          if decide (StatusCode resp ≠ 200) then
            let buf := io_Copy X body in
            (Returned (None, Some (errorString
               ("Unexpected response code: " +:+ pretty (StatusCode resp) +:+
                " (" +:+ buf +:+ ")"))),
             (Body_Close X body).2)
          else (Returned (Some (resp, body), None), [])
      end
  end.

(** [decodeBody] for a non-nil [out], as [query] calls it. *)
Definition decodeBody (X : Exchange) (resp : Response) (body : Body)
    : Result DmsNodes :=
  if decide (ContentLength resp = 0) then
    Err (errors_New "Got 0 byte response with non-nil decode object")
  else json_Decode X body.

(** [query] into a [DmsNodes], with the closers closed on the way; the body
    is closed by the deferred call once the decoding is done. *)
Definition query (L : Libs) (c : option ApiClient) (endpoint : string)
    (X : Exchange) : Outcome (Result DmsNodes) * list Closer :=
  match newRequest L c endpoint, c with
  | Returned (Some err), _ => (Returned (Err err), [])
  | Returned None, Some c =>
      match doRequest c X with
      | Panicked => (Panicked, [])
      | Returned (resp, err) =>
          let '(r, closed) := requireOK X resp err in
          match r with
          | Panicked => (Panicked, closed)
          | Returned (_, Some err) => (Returned (Err err), closed)
          | Returned (None, None) => (Panicked, closed)
          | Returned (Some (resp, body), None) =>
              let out := decodeBody X resp body in
              (Returned out, closed ++ (Body_Close X body).2)
          end
      end
  | _, _ => (Panicked, [])
  end.

(** The [List] method of [Dms]: the nodes, or the error of the query for
    [/v1/nodes] through the client of the handle, which [Dms()] builds also
    over a nil client. *)
Definition DmsList (L : Libs) (c : option ApiClient) (X : Exchange)
    : Outcome (Result DmsNodes) * list Closer :=
  let '(r, closed) := query L c "/v1/nodes" X in
  match r with
  | Panicked => (Panicked, closed)
  | Returned (Err err) => (Returned (Err err), closed)
  | Returned (Ok resp) => (Returned (Ok resp), closed)
  end.

(** The response says its body is gzip-compressed. *)
Definition isGzip (resp : Response) : Prop :=
  exists header,
    Header resp = Some header /\ Header_Get header "Content-Encoding" = "gzip".

(** The reader [doRequest] makes of the body of a response. *)
Definition bodyOf (resp : Response) : Body :=
  match Header resp with
  | Some header =>
      if decide (Header_Get header "Content-Encoding" = "gzip") then GzipBody
      else RawBody
  | None => RawBody
  end.

(** A gzip-compressed answer of two busy flags. *)
Definition gzipAnswer : Response := {|
  StatusCode := 200;
  Header := Some {[ "Content-Encoding" := ["gzip"] ]};
  ContentLength := 57;
|}.

Definition sampleExchange (closeGzip : option error) : Exchange := {|
  toHTTP_err := None;
  Do_result := (Some gzipAnswer, None);
  gzip_NewReader_err := None;
  Close_err := fun c =>
    match c with GzipReaderCloser => closeGzip | RespBodyCloser => None end;
  io_Copy := fun _ => "";
  json_Decode := fun _ => Ok {| Nodes := {[ "n1" := true; "n2" := false ]} |};
|}.

(** The keys [DmsConfigFromMap] looks up. *)
Definition dmsConfigKeys : list string :=
  [configKeyDmsAddress; configKeyDmsToken; configKeyDmsHTTPAuth;
   configKeyDmsCACert; configKeyDmsCAPath; configKeyDmsClientCert;
   configKeyDmsClientKey; configKeyDmsTLSServerName; configKeyDmsSkipVerify].

(** The strings [strconv.ParseBool] reads as true. *)
Definition trueStrings : list string := ["1"; "t"; "T"; "TRUE"; "true"; "True"].

(** The environment variables of [DefaultConfig], under the keys of
    [DmsConfigFromMap]. *)
Definition envAsMap (getenv : string -> string) : gmap string string :=
  list_to_map
    [(configKeyDmsAddress, getenv "DMS_ADDR");
     (configKeyDmsToken, getenv "DMS_TOKEN");
     (configKeyDmsHTTPAuth, getenv "DMS_HTTP_AUTH");
     (configKeyDmsCACert, getenv "DMS_CACERT");
     (configKeyDmsCAPath, getenv "DMS_CAPATH");
     (configKeyDmsClientCert, getenv "DMS_CLIENT_CERT");
     (configKeyDmsClientKey, getenv "DMS_CLIENT_KEY");
     (configKeyDmsTLSServerName, getenv "DMS_TLS_SERVER_NAME");
     (configKeyDmsSkipVerify, getenv "DMS_SKIP_VERIFY")].

(** An environment with a token and basic-auth credentials. *)
Definition sampleEnv (name : string) : string :=
  if decide (name = "DMS_TOKEN") then "secret"
  else if decide (name = "DMS_HTTP_AUTH") then "alice:s3:cret"
  else if decide (name = "DMS_SKIP_VERIFY") then "maybe"
  else "".

(** ** Setting the helper up *)

(** [identifyAutoscalerNodeID], the environment being what [os.Getenv]
    answers and [Allocations_Info] the [NodeID] of the allocation that
    [client.Allocations().Info(id, nil)] hands back. *)
Definition identifyAutoscalerNodeID (getenv : string -> string)
    (Allocations_Info : string -> Result string) : string * option error :=
  let envVar := getenv "NOMAD_ALLOC_ID" in
  if decide (envVar = "") then ("", None)
  else
    match Allocations_Info envVar with
    | Err err =>
        ("", Some (Errorf_v "failed to call Nomad allocations info: " err))
    | Ok nodeID => (nodeID, None)
    end.

(** The [ScaleIn] struct as [NewScaleInUtils] fills it in: the [dms] field
    holds the DMS client that was built, nil when there is none. *)
Record NewScaleIn := {
  new_nomad : NomadClient;
  new_dms : option ApiClient;
  new_curNodeID : string;
}.

(** [NewScaleInUtils], [api_NewClient] being what [api.NewClient(cfg)] hands
    back and [dmsCfg] the configuration pointed to.  The logger prints an
    error through its [Error] method. *)
Definition NewScaleInUtils (L : Libs) (getenv : string -> string)
    (api_NewClient : Result NomadClient)
    (Allocations_Info : string -> Result string) (dmsCfg : DmsApiConfig)
    : M (Outcome (option NewScaleIn * option error)) :=
  match api_NewClient with
  | Err err =>
      ret (Returned (None,
        Some (Errorf_v "failed to instantiate Nomad client: " err)))
  | Ok client =>
      let '(id, err) := identifyAutoscalerNodeID getenv Allocations_Info in
      match err with
      | Some err =>
          log LError "failed to identify Nomad Autoscaler nodeID"
              [("error", VStr (Error_ err))]
      | None => ret tt
      end;;;
      match NewDmsApiClient L getenv dmsCfg with
      | Panicked => ret Panicked
      | Returned ((dmsApiClient, err), _) =>
          match err with
          | Some err =>
              log LError "failed to identify Nomad Autoscaler nodeID"
                  [("error", VStr (Error_ err))]
          | None => ret tt
          end;;;
          ret (Returned (Some {| new_nomad := client;
                                 new_dms := dmsApiClient;
                                 new_curNodeID := id |}, None))
      end
  end.

(** The helper that [NewScaleInUtils] built, as the run sees it: what the
    node listing of its DMS client does being what [Dms.List] does in the
    exchange [X]; without DMS client when none was built. *)
Definition helperOf (L : Libs) (X : Exchange) (s : NewScaleIn) : ScaleIn := {|
  nomad := new_nomad s;
  curNodeID := new_curNodeID s;
  dms := (fun c => {| Dms_List := (DmsList L (Some c) X).1 |}) <$> new_dms s;
|}.

(** A healthy cluster served by a helper without DMS client. *)
Definition withoutDms (inventory : list NodeListStub) : ScaleIn :=
  {| nomad := healthyNomad inventory; curNodeID := ""; dms := None |}.

(** An environment that names the allocation of the autoscaler. *)
Definition allocEnv (name : string) : string :=
  if decide (name = "NOMAD_ALLOC_ID") then "alloc-1" else "".

(** An allocations endpoint that is down. *)
Definition allocationsDown (allocID : string) : Result string :=
  Err (errorString "connection refused").

(** A DMS configuration without HTTP client whose client certificate lacks
    its key. *)
Definition halfPairConfig : DmsApiConfig := {|
  Address := "http://dms.example:4646"; SecretID := "";
  ConfigHttpClient := None; HttpAuth := None; WaitTime := 0;
  ConfigTLS := Some loneCert;
|}.

(** * Properties *)

(** ** The trace monad *)

Lemma value_bind {A B} (m : M A) (f : A -> M B) :
  value (bind m f) = value (f (value m)).
Proof. destruct m as [a t1]. unfold value, bind; simpl. by destruct (f a). Qed.

Lemma trace_bind {A B} (m : M A) (f : A -> M B) :
  trace (bind m f) = trace m ++ trace (f (value m)).
Proof.
  destruct m as [a t1]. unfold trace, value, bind; simpl. by destruct (f a).
Qed.

Lemma value_ret {A} (a : A) : value (ret a) = a.
Proof. done. Qed.

Lemma trace_ret {A} (a : A) : trace (ret a) = [].
Proof. done. Qed.

Lemma trace_emit (e : Event) : trace (emit e) = [e].
Proof. done. Qed.

Lemma trace_log lvl msg args : trace (log lvl msg args) = [EvLog lvl msg args].
Proof. done. Qed.

Create Rewrite HintDb go.
#[local] Hint Rewrite @value_bind @trace_bind @value_ret @trace_ret
  trace_emit trace_log : go.

Ltac go_simpl := repeat progress (autorewrite with go; simpl).

(** ** Accumulated errors *)

Lemma appendAll_multi (es : list error) (errs : list error) :
  appendAll (Some (multiError es)) errs =
  Some (multiError (es ++ concat (flatten <$> errs))).
Proof.
  revert es. induction errs as [|e errs IH]; intros es; simpl.
  - by rewrite app_nil_r.
  - rewrite IH. by rewrite <- app_assoc.
Qed.

Lemma appendAll_nil_acc (errs : list error) :
  appendAll None errs =
  match errs with
  | [] => None
  | _ => Some (multiError (concat (flatten <$> errs)))
  end.
Proof. destruct errs as [|e errs]; [done|]. simpl. by rewrite appendAll_multi. Qed.

(** Plain errors are collected one entry each. *)
Lemma flatten_plain (errs : list error) :
  Forall (fun e => exists msg, e = errorString msg) errs ->
  concat (flatten <$> errs) = errs.
Proof.
  induction 1 as [|e errs [msg ->] _ IH]; [done|]. simpl. by f_equal.
Qed.

(** ** Self-node exclusion *)

Lemma filterOutNodeID_loop_filter (n : list NodeListStub) id out :
  filterOutNodeID_loop n id out = out ++ filter (fun node => ID node ≠ id) n.
Proof.
  revert out. induction n as [|node rest IH]; intros out; simpl.
  - by rewrite app_nil_r.
  - rewrite filter_cons. destruct (decide (ID node = id)) as [Heq|Hne].
    + rewrite decide_False by (intros H; by apply H). apply IH.
    + rewrite decide_True by done. rewrite IH, <- app_assoc. done.
Qed.

(** What [filterOutNodeID] computes: nothing is excluded for the empty ID,
    otherwise exactly the nodes carrying the ID are. *)
Lemma filterOutNodeID_filter (n : list NodeListStub) id :
  filterOutNodeID n id =
  if decide (id = "") then n else filter (fun node => ID node ≠ id) n.
Proof.
  unfold filterOutNodeID. case_decide; [done|].
  by rewrite filterOutNodeID_loop_filter.
Qed.

Lemma filterOutNodeID_sublist (n : list NodeListStub) id :
  filterOutNodeID n id `sublist_of` n.
Proof.
  rewrite filterOutNodeID_filter. case_decide; [done|]. apply sublist_filter.
Qed.

(** C9. Self-node exclusion is idempotent: excluding an ID that no node of
    the list carries returns the list itself, the exclusion never removes a
    node whose ID differs from the excluded one, and excluding the same ID a
    second time changes nothing. *)
Theorem filterOutNodeID_idempotent (n : list NodeListStub) (id : string) :
  (id ∉ map ID n -> filterOutNodeID n id = n) /\
  (forall node, node ∈ n -> ID node ≠ id -> node ∈ filterOutNodeID n id) /\
  filterOutNodeID (filterOutNodeID n id) id = filterOutNodeID n id.
Proof.
  rewrite !filterOutNodeID_filter. split; [|split].
  - intros Hid. case_decide; [done|].
    induction n as [|node rest IH]; [done|].
    rewrite filter_cons. simpl in Hid.
    apply not_elem_of_cons in Hid as [Hne Hrest].
    rewrite decide_True by done. by rewrite IH.
  - intros node Hin Hne. case_decide; [done|].
    apply list_elem_of_filter. done.
  - case_decide; [done|]. rewrite list_filter_filter.
    apply list_filter_iff. tauto.
Qed.

Lemma filterOutNodeID_idempotent_witness :
  filterOutNodeID inventory3 "n9" = inventory3 /\
  stub "n1" 1 ∈ filterOutNodeID inventory3 "n2".
Proof.
  split.
  - apply (proj1 (filterOutNodeID_idempotent inventory3 "n9")). compute_done.
  - apply (proj1 (proj2 (filterOutNodeID_idempotent inventory3 "n2")));
      compute_done.
Defined.

(** ** Busy-node filter *)

Lemma NodeID_eta (node : NodeID) :
  {| NomadID := NomadID node; RemoteID := RemoteID node |} = node.
Proof. by destruct node. Qed.

Lemma filterBusyNodes_loop_value (nodesStatus : gmap string bool)
    (nodes out : list NodeID) :
  value (filterBusyNodes_loop nodesStatus nodes out) =
  out ++ filter (fun n => nodesStatus !! NomadID n ≠ Some true) nodes.
Proof.
  revert out. induction nodes as [|node rest IH]; intros out; simpl.
  - by rewrite app_nil_r.
  - rewrite filter_cons.
    destruct (nodesStatus !! NomadID node) as [[|]|] eqn:Hst;
      go_simpl; rewrite IH, ?NodeID_eta; try case_decide;
      try done; by rewrite <- ?app_assoc.
Qed.

Lemma filterBusyNodes_ok (si : ScaleIn) (client : DmsApiClient)
    (status : DmsNodes) (nodes : list NodeID) :
  dms si = Some client ->
  Dms_List client = Returned (Ok status) ->
  value (filterBusyNodes si nodes) =
  Returned (filter (fun n => Nodes status !! NomadID n ≠ Some true) nodes, None).
Proof.
  intros Hdms Hok. unfold filterBusyNodes. rewrite Hdms, Hok. go_simpl.
  by rewrite filterBusyNodes_loop_value.
Qed.

Lemma filterBusyNodes_err (si : ScaleIn) (client : DmsApiClient) (err : error)
    (nodes : list NodeID) :
  dms si = Some client ->
  Dms_List client = Returned (Err err) ->
  value (filterBusyNodes si nodes) = Returned ([], Some err).
Proof.
  intros Hdms Herr. unfold filterBusyNodes. rewrite Hdms, Herr. by go_simpl.
Qed.

(** The filter panics exactly when the helper has no DMS client, or the
    listing itself panics. *)
Lemma filterBusyNodes_panics (si : ScaleIn) (nodes : list NodeID) :
  value (filterBusyNodes si nodes) = Panicked <->
  dms si = None \/ exists client, dms si = Some client /\ Dms_List client = Panicked.
Proof.
  unfold filterBusyNodes.
  destruct (dms si) as [client|]; go_simpl; [|by split; [left|]].
  destruct (Dms_List client) as [[status|err]|] eqn:Hlist; go_simpl.
  - split; [done|]. intros [?|(? & [= <-] & ?)]; congruence.
  - split; [done|]. intros [?|(? & [= <-] & ?)]; congruence.
  - split; [|done]. intros _. right. eauto.
Qed.

(** The three ways the filter can end. *)
Lemma filterBusyNodes_cases (si : ScaleIn) (nodes : list NodeID) :
  value (filterBusyNodes si nodes) = Panicked \/
  (exists client err,
     dms si = Some client /\ Dms_List client = Returned (Err err) /\
     value (filterBusyNodes si nodes) = Returned ([], Some err)) \/
  (exists client status,
     dms si = Some client /\ Dms_List client = Returned (Ok status) /\
     value (filterBusyNodes si nodes) =
       Returned (filter (fun n => Nodes status !! NomadID n ≠ Some true) nodes,
                 None)).
Proof.
  destruct (dms si) as [client|] eqn:Hdms;
    [|left; apply filterBusyNodes_panics; by left].
  destruct (Dms_List client) as [[status|err]|] eqn:Hlist.
  - right; right. exists client, status.
    by rewrite (filterBusyNodes_ok si client status).
  - right; left. exists client, err.
    by rewrite (filterBusyNodes_err si client err).
  - left. apply filterBusyNodes_panics. right. eauto.
Qed.

Lemma filterBusyNodes_sublist (si : ScaleIn) (nodes : list NodeID) :
  returnedList (value (filterBusyNodes si nodes)) `sublist_of` nodes.
Proof.
  destruct (filterBusyNodes_cases si nodes)
    as [->|[(client & err & _ & _ & ->)|(client & status & _ & _ & ->)]];
    simpl; [apply sublist_nil_l|apply sublist_nil_l|apply sublist_filter].
Qed.

Lemma filterBusyNodes_returned_sublist (si : ScaleIn) (nodes fl : list NodeID)
    (e : option error) :
  value (filterBusyNodes si nodes) = Returned (fl, e) -> fl `sublist_of` nodes.
Proof.
  intros Hbusy. pose proof (filterBusyNodes_sublist si nodes) as Hsub.
  by rewrite Hbusy in Hsub.
Qed.

(** C6. With a status map fetched from the oracle, the busy-node filter keeps
    exactly the nodes that are absent from the map or mapped to false and
    drops exactly the nodes mapped to true, and it reports no error. *)
Theorem filterBusyNodes_retains_idle_and_unknown (si : ScaleIn)
    (client : DmsApiClient) (status : DmsNodes) (nodes : list NodeID) :
  dms si = Some client ->
  Dms_List client = Returned (Ok status) ->
  value (filterBusyNodes si nodes) =
    Returned (filter (fun n => Nodes status !! NomadID n ≠ Some true) nodes,
              None) /\
  forall node, node ∈ nodes ->
    (node ∈ returnedList (value (filterBusyNodes si nodes)) <->
       Nodes status !! NomadID node = None \/
       Nodes status !! NomadID node = Some false) /\
    (node ∉ returnedList (value (filterBusyNodes si nodes)) <->
       Nodes status !! NomadID node = Some true).
Proof.
  intros Hdms Hok. rewrite (filterBusyNodes_ok _ _ _ _ Hdms Hok).
  split; [done|].
  intros node Hin. simpl. rewrite list_elem_of_filter.
  destruct (Nodes status !! NomadID node) as [[|]|]; split; split;
    intuition congruence.
Qed.

Lemma filterBusyNodes_retains_idle_and_unknown_witness :
  value (filterBusyNodes
           {| nomad := healthyNomad inventory3; curNodeID := ""; dms := Some busyDms |}
           [ {| NomadID := "n1"; RemoteID := "i-n1" |};
             {| NomadID := "n2"; RemoteID := "i-n2" |};
             {| NomadID := "n3"; RemoteID := "i-n3" |} ]) =
    Returned ([ {| NomadID := "n2"; RemoteID := "i-n2" |};
                {| NomadID := "n3"; RemoteID := "i-n3" |} ], None).
Proof.
  refine (proj1 (filterBusyNodes_retains_idle_and_unknown _ busyDms
    {| Nodes := {[ "n1" := true; "n2" := false ]} |} _ _ _));
    reflexivity.
Defined.

(** ** Drain monitoring *)

Lemma monitorNodeDrain_range_quiet ctx nodeID (ch : list MonitorMessage) :
  Forall (fun m => Level m ≠ MonitorMsgLevelError) ch ->
  monitorNodeDrain_range ctx nodeID ch =
  ((ctx_Err ctx nodeID, []), map (drainMessageEvent nodeID) ch).
Proof.
  induction 1 as [|msg rest Hmsg _ IH]; [done|].
  simpl. unfold drainMessageEvent, severityOf.
  repeat case_decide; try done; rewrite IH; reflexivity.
Qed.

Lemma monitorNodeDrain_range_error ctx nodeID
    (pre : list MonitorMessage) msg (rest : list MonitorMessage) :
  Forall (fun m => Level m ≠ MonitorMsgLevelError) pre ->
  Level msg = MonitorMsgLevelError ->
  monitorNodeDrain_range ctx nodeID (pre ++ msg :: rest) =
  ((Some (errorString ("received error while draining node: " +:+ Message msg)),
    rest), map (drainMessageEvent nodeID) pre).
Proof.
  intros Hpre Hmsg. induction Hpre as [|m pre Hm _ IH]; simpl.
  - rewrite Hmsg. reflexivity.
  - unfold drainMessageEvent, severityOf.
    repeat case_decide; try done; rewrite IH; reflexivity.
Qed.

Lemma monitorNodeDrain_range_errors_only ctx nodeID (ch : list MonitorMessage) :
  (value (monitorNodeDrain_range ctx nodeID ch)).1 =
  (value (monitorNodeDrain_range ctx nodeID
            (filter (fun m => Level m = MonitorMsgLevelError) ch))).1.
Proof.
  induction ch as [|msg rest IH]; [done|].
  rewrite filter_cons. simpl.
  unfold MonitorMsgLevelInfo, MonitorMsgLevelWarn, MonitorMsgLevelError in *.
  repeat case_decide; try congruence; go_simpl; try apply IH.
  simpl. by repeat case_decide.
Qed.

(** C7. Monitoring the drain of a node whose stream delivers [ch] and is then
    closed: messages that are not of error level are only logged, the outcome
    depends on the error-level messages alone; the first error-level message
    ends the monitor at once with a failure, the messages after it are left
    unreceived; and when no message is of error level every message is
    received and the monitor returns what [ctx.Err()] answers, so it succeeds
    exactly when the context has not been cancelled. *)
Theorem monitorNodeDrain_outcome (si : ScaleIn) (ctx : Context)
    (nodeID : string) (index : Z) (ch : list MonitorMessage) :
  Nodes_MonitorDrain (nomad si) nodeID index = ch ->
  (forall ch' : list MonitorMessage,
     filter (fun m => Level m = MonitorMsgLevelError) ch' =
     filter (fun m => Level m = MonitorMsgLevelError) ch ->
     (value (monitorNodeDrain_range ctx nodeID ch')).1 =
     (value (monitorNodeDrain si ctx nodeID index)).1) /\
  (forall pre msg rest,
     ch = pre ++ msg :: rest ->
     Forall (fun m => Level m ≠ MonitorMsgLevelError) pre ->
     Level msg = MonitorMsgLevelError ->
     value (monitorNodeDrain si ctx nodeID index) =
       (Some (errorString ("received error while draining node: " +:+ Message msg)),
        rest) /\
     trace (monitorNodeDrain si ctx nodeID index) =
       EvMonitorDrain nodeID index :: map (drainMessageEvent nodeID) pre) /\
  (Forall (fun m => Level m ≠ MonitorMsgLevelError) ch ->
     value (monitorNodeDrain si ctx nodeID index) = (ctx_Err ctx nodeID, []) /\
     trace (monitorNodeDrain si ctx nodeID index) =
       EvMonitorDrain nodeID index :: map (drainMessageEvent nodeID) ch /\
     ((value (monitorNodeDrain si ctx nodeID index)).1 = None <->
      ctx_Err ctx nodeID = None)).
Proof.
  intros Hch. unfold monitorNodeDrain. rewrite Hch.
  split; [|split].
  - intros ch' Hsame. go_simpl.
    rewrite (monitorNodeDrain_range_errors_only _ _ ch').
    rewrite (monitorNodeDrain_range_errors_only _ _ ch). by rewrite Hsame.
  - intros pre msg rest -> Hpre Hmsg. go_simpl.
    by rewrite monitorNodeDrain_range_error.
  - intros Hquiet. go_simpl. by rewrite monitorNodeDrain_range_quiet.
Qed.

Lemma monitorNodeDrain_outcome_witness :
  value (monitorNodeDrain n2DrainFails background "n2" 42) =
    (Some (errorString "received error while draining node: alloc stuck"),
     [ {| Level := MonitorMsgLevelWarn; Message := "never received" |} ]) /\
  value (monitorNodeDrain n2DrainFails background "n1" 42) = (None, []).
Proof.
  split.
  - refine (proj1 (proj1 (proj2 (monitorNodeDrain_outcome n2DrainFails
      background "n2" 42 brokenDrain _))
      [ {| Level := MonitorMsgLevelInfo; Message := "drain started" |} ]
      {| Level := MonitorMsgLevelError; Message := "alloc stuck" |}
      [ {| Level := MonitorMsgLevelWarn; Message := "never received" |} ]
      _ _ _)); [reflexivity|reflexivity|compute_done|reflexivity].
  - refine (proj1 (proj2 (proj2 (monitorNodeDrain_outcome n2DrainFails
      background "n1" 42 quietDrain _)) _)); [reflexivity|compute_done].
Defined.

(** ** Remote identity resolution *)

Section Resolver.
Context (si : ScaleIn) (idFunc : Node -> string * option error).

Lemma getRemoteIDMap_loop_fetched nodes fetched out mErr :
  fetchedAll si nodes fetched ->
  value (getRemoteIDMap_loop si idFunc nodes out mErr) =
    (out ++ zip_with (fun node info =>
               {| NomadID := ID node; RemoteID := (idFunc info).1 |})
             nodes fetched,
     ErrorOrNil (appendAll mErr (omap (fun info => (idFunc info).2) fetched))) /\
  infoCalls (trace (getRemoteIDMap_loop si idFunc nodes out mErr)) = ID <$> nodes.
Proof.
  intros Hall. revert out mErr.
  induction Hall as [|node info nodes fetched Hinfo _ IH]; intros out mErr.
  - simpl. by rewrite app_nil_r.
  - simpl. rewrite Hinfo. destruct (idFunc info) as [id err] eqn:Hid. go_simpl.
    destruct (IH (out ++ [{| NomadID := ID node; RemoteID := id |}])
                 (match err with
                  | Some err => Some (multierror_Append mErr err)
                  | None => mErr
                  end)) as [-> ->].
    rewrite <- app_assoc. split; [|done].
    by destruct err.
Qed.

Lemma getRemoteIDMap_loop_fetch_error pre fetched node post err out mErr :
  fetchedAll si pre fetched ->
  Nodes_Info (nomad si) (ID node) = Err err ->
  value (getRemoteIDMap_loop si idFunc (pre ++ node :: post) out mErr) =
    ([], Some err) /\
  infoCalls (trace (getRemoteIDMap_loop si idFunc (pre ++ node :: post) out mErr)) =
    (ID <$> pre) ++ [ID node].
Proof.
  intros Hall Herr. revert out mErr.
  induction Hall as [|n info pre fetched Hinfo _ IH]; intros out mErr; simpl.
  - rewrite Herr. by go_simpl.
  - rewrite Hinfo. destruct (idFunc info) as [id e]. go_simpl.
    by destruct (IH (out ++ [{| NomadID := ID n; RemoteID := id |}])
                 (match e with
                  | Some err => Some (multierror_Append mErr err)
                  | None => mErr
                  end)) as [-> ->].
Qed.

Lemma getRemoteIDMap_loop_order nodes out mErr :
  (value (getRemoteIDMap_loop si idFunc nodes out mErr)).1 = [] \/
  NomadID <$> (value (getRemoteIDMap_loop si idFunc nodes out mErr)).1 =
    (NomadID <$> out) ++ (ID <$> nodes).
Proof.
  revert out mErr. induction nodes as [|node rest IH]; intros out mErr; simpl.
  - right. by rewrite app_nil_r.
  - destruct (Nodes_Info (nomad si) (ID node)) as [info|err]; go_simpl;
      [|by left].
    destruct (idFunc info) as [id e]. go_simpl.
    destruct (IH (out ++ [{| NomadID := ID node; RemoteID := id |}])
                 (match e with
                  | Some err => Some (multierror_Append mErr err)
                  | None => mErr
                  end)) as [->| ->]; [by left|right].
    by rewrite fmap_app, <- app_assoc.
Qed.

End Resolver.

(** C3 (amended). For a known provider: while every full record can be
    fetched, an extraction failure is recorded into the accumulating error
    and the resolver goes on to the remaining nodes, the failing node being
    emitted like the others, paired with the remote ID its extraction
    returned; the output has one pair per input node.  A full-record fetch
    that fails ends the batch at that node: no pair is returned, the error
    is the fetch error, and no later node is looked at. *)
Theorem getRemoteIDMap_per_node_failures (P : Pkg) (si : ScaleIn)
    (provider : RemoteProvider) (idFunc : Node -> string * option error)
    (nodes : list NodeListStub) :
  idFuncMap P provider = Some idFunc ->
  (forall fetched, fetchedAll si nodes fetched ->
     value (getRemoteIDMap P si nodes provider) =
       (zip_with (fun node info =>
                    {| NomadID := ID node; RemoteID := (idFunc info).1 |})
                 nodes fetched,
        ErrorOrNil (appendAll None (omap (fun info => (idFunc info).2) fetched))) /\
     length (value (getRemoteIDMap P si nodes provider)).1 = length nodes /\
     infoCalls (trace (getRemoteIDMap P si nodes provider)) = ID <$> nodes) /\
  (forall pre fetched node post err,
     nodes = pre ++ node :: post ->
     fetchedAll si pre fetched ->
     Nodes_Info (nomad si) (ID node) = Err err ->
     value (getRemoteIDMap P si nodes provider) = ([], Some err) /\
     infoCalls (trace (getRemoteIDMap P si nodes provider)) =
       (ID <$> pre) ++ [ID node]).
Proof.
  intros Hknown. unfold getRemoteIDMap. rewrite Hknown. split.
  - intros fetched Hall.
    destruct (getRemoteIDMap_loop_fetched si idFunc nodes fetched [] None Hall)
      as [Hval Htr].
    rewrite Hval, Htr. repeat split. simpl.
    rewrite length_zip_with. apply Forall2_length in Hall. lia.
  - intros pre fetched node post err -> Hall Herr.
    by apply getRemoteIDMap_loop_fetch_error with (fetched := fetched).
Qed.

Lemma getRemoteIDMap_per_node_failures_witness :
  value (getRemoteIDMap samplePkg n3ExtractionFails inventory5
           RemoteProviderAWSInstanceID) =
    ([ {| NomadID := "n1"; RemoteID := "i-n1" |};
       {| NomadID := "n2"; RemoteID := "i-n2" |};
       {| NomadID := "n3"; RemoteID := "" |};
       {| NomadID := "n4"; RemoteID := "i-n4" |};
       {| NomadID := "n5"; RemoteID := "i-n5" |} ],
     Some (multiError [errorString "attribute not found"])) /\
  value (getRemoteIDMap samplePkg n3FetchFails inventory5
           RemoteProviderAWSInstanceID) =
    ([], Some (errorString "node not found")).
Proof.
  split.
  - refine (proj1 (proj1 (getRemoteIDMap_per_node_failures samplePkg
      n3ExtractionFails RemoteProviderAWSInstanceID attrIDFunc inventory5 _)
      [fullRecord "n1"; fullRecord "n2"; bareRecord "n3"; fullRecord "n4";
       fullRecord "n5"] _)); [reflexivity|].
    repeat constructor.
  - refine (proj1 (proj2 (getRemoteIDMap_per_node_failures samplePkg
      n3FetchFails RemoteProviderAWSInstanceID attrIDFunc inventory5 _)
      [stub "n1" 3; stub "n2" 1] [fullRecord "n1"; fullRecord "n2"]
      (stub "n3" 4) [stub "n4" 1; stub "n5" 5] (errorString "node not found")
      _ _ _)); [reflexivity|reflexivity| |reflexivity].
    repeat constructor.
Defined.

(** C3, as stated, fails.  In a batch of five nodes in which the extraction
    fails for n3, n3 is not excluded: five pairs come back, n3 among them,
    next to the one recorded error.  And in a batch in which fetching the
    full record of n3 fails, the batch is aborted: nothing comes back and
    n4 and n5 are never fetched. *)
Lemma getRemoteIDMap_per_node_failures_counterexample :
  (let r := getRemoteIDMap samplePkg n3ExtractionFails inventory5
              RemoteProviderAWSInstanceID in
   length (value r).1 = 5%nat /\
   {| NomadID := "n3"; RemoteID := "" |} ∈ (value r).1 /\
   (value r).2 = Some (multiError [errorString "attribute not found"])) /\
  (let r := getRemoteIDMap samplePkg n3FetchFails inventory5
              RemoteProviderAWSInstanceID in
   value r = ([], Some (errorString "node not found")) /\
   infoCalls (trace r) = ["n1"; "n2"; "n3"]).
Proof. repeat split. compute_done. Qed.

(** ** Pool selection *)

Lemma wrap64_small (z : Z) : - 2 ^ 63 <= z < 2 ^ 63 -> wrap64 z = z.
Proof. intros Hz. unfold wrap64. rewrite Z.mod_small; lia. Qed.

Lemma len_nonneg {A} (l : list A) : 0 <= len l.
Proof. unfold len. lia. Qed.

Lemma len_zero {A} (l : list A) : len l = 0 <-> l = [].
Proof. unfold len. destruct l; simpl; split; intros; try done; lia. Qed.

(** As long as the bound stays within the slice, the selection loop appends
    the next [bound - i + 1] nodes, in the order it finds them. *)
Lemma identifyTargets_loop_take (i bound : Z) (rest out : list NodeListStub) :
  bound - i + 1 <= len rest ->
  value (identifyTargets_loop i bound rest out) =
  Returned (out ++ take (Z.to_nat (bound - i + 1)) rest).
Proof.
  revert i out. induction rest as [|node rest IH]; intros i out Hlen; simpl.
  - destruct (Z.leb_spec i bound); [unfold len in Hlen; simpl in Hlen; lia|].
    by rewrite take_nil, app_nil_r.
  - destruct (Z.leb_spec i bound) as [Hle|Hgt].
    + go_simpl. rewrite IH by (unfold len in *; simpl in Hlen; lia).
      replace (Z.to_nat (bound - i + 1))
        with (S (Z.to_nat (bound - (i + 1) + 1))) by lia.
      simpl. by rewrite <- app_assoc.
    + replace (Z.to_nat (bound - i + 1)) with 0%nat by lia.
      by rewrite take_0, app_nil_r.
Qed.

(** Past the end of the slice the loop panics. *)
Lemma identifyTargets_loop_panic (i bound : Z) (rest out : list NodeListStub) :
  len rest < bound - i + 1 ->
  value (identifyTargets_loop i bound rest out) = Panicked.
Proof.
  revert i out. induction rest as [|node rest IH]; intros i out Hlen; simpl.
  - destruct (Z.leb_spec i bound); [done|unfold len in Hlen; simpl in Hlen; lia].
  - destruct (Z.leb_spec i bound) as [Hle|Hgt].
    + go_simpl. apply IH. unfold len in *; simpl in Hlen; lia.
    + pose proof (len_nonneg (node :: rest)). lia.
Qed.

(** What [identifyTargets] selects once the listing and the pool filter have
    succeeded and the strategy is the supported one. *)
Lemma identifyTargets_selected (P : Pkg) (si : ScaleIn) (num : Z)
    (ident : PoolIdentifier) (strategy : NodeIDStrategy)
    (nodes pool : list NodeListStub) :
  Nodes_List (nomad si) = Ok nodes ->
  IdentifyNodes P ident nodes = (pool, None) ->
  filterOutNodeID pool (curNodeID si) ≠ [] ->
  strategy = IDStrategyNewestCreateIndex P ->
  - 2 ^ 63 < num < 2 ^ 63 ->
  value (identifyTargets P si num ident strategy) =
  Returned (take (Z.to_nat num) (filterOutNodeID pool (curNodeID si)), None).
Proof.
  intros Hlist Hpool Hne Hstrat Hnum. unfold identifyTargets.
  rewrite Hlist. go_simpl. rewrite Hpool.
  set (filteredNodes := filterOutNodeID pool (curNodeID si)) in *.
  rewrite decide_False by (by rewrite len_zero).
  rewrite decide_True by done. go_simpl.
  pose proof (len_nonneg filteredNodes) as Hnn.
  destruct (decide (num > len filteredNodes)) as [Hmore|Hless]; go_simpl.
  - rewrite wrap64_small by lia.
    rewrite identifyTargets_loop_take by lia. simpl.
    rewrite !take_ge; [done| |]; unfold len in *; lia.
  - rewrite wrap64_small by lia.
    rewrite identifyTargets_loop_take by lia. simpl.
    by replace (Z.to_nat (num - 1 - 0 + 1)) with (Z.to_nat num) by lia.
Qed.

(** A count of zero selects nothing, whatever else happens. *)
Lemma identifyTargets_zero (P : Pkg) (si : ScaleIn) (ident : PoolIdentifier)
    (strategy : NodeIDStrategy) :
  exists e, value (identifyTargets P si 0 ident strategy) = Returned ([], e).
Proof.
  unfold identifyTargets. go_simpl.
  destruct (Nodes_List (nomad si)) as [nodes|err]; go_simpl; [|eauto].
  destruct (IdentifyNodes P ident nodes) as [filteredNodes [err|]];
    go_simpl; [eauto|].
  case_decide; go_simpl; [eauto|]. case_decide; go_simpl; [|eauto].
  pose proof (len_nonneg (filterOutNodeID filteredNodes (curNodeID si))).
  rewrite decide_False by lia. go_simpl.
  rewrite wrap64_small by lia.
  rewrite identifyTargets_loop_take by lia. simpl. eauto.
Qed.

(** The one count for which [num-1] wraps around makes the loop run off the
    end of the slice. *)
Example identifyTargets_min_int_panics :
  value (identifyTargets samplePkg (healthy inventory5) (- 2 ^ 63)
           {| PoolIdentifierKey := IdentifierKeyClass; Value := "high-memory" |}
           "newest_create_index") = Panicked.
Proof. reflexivity. Qed.

(** What the selector does for the supported strategy and a count other
    than the least [int]: it keeps the pool-filtered nodes, the autoscaler's
    own node left out, in the order in which the listing and the pool filter
    hand them over, and returns the first [num] of them, all of them when
    there are fewer.  The branch of the strategy is empty: nothing is
    sorted. *)
Lemma identifyTargets_listing_order (P : Pkg) (si : ScaleIn) (num : Z)
    (ident : PoolIdentifier) (strategy : NodeIDStrategy)
    (nodes pool : list NodeListStub) :
  Nodes_List (nomad si) = Ok nodes ->
  IdentifyNodes P ident nodes = (pool, None) ->
  filterOutNodeID pool (curNodeID si) ≠ [] ->
  strategy = IDStrategyNewestCreateIndex P ->
  - 2 ^ 63 < num < 2 ^ 63 ->
  let filteredNodes := filterOutNodeID pool (curNodeID si) in
  let selected := take (Z.to_nat num) filteredNodes in
  value (identifyTargets P si num ident strategy) = Returned (selected, None) /\
  selected `prefix_of` filteredNodes /\
  len selected = Z.max 0 (Z.min num (len filteredNodes)).
Proof.
  intros Hlist Hpool Hne Hstrat Hnum filteredNodes selected.
  split; [by apply identifyTargets_selected with (nodes := nodes)|].
  split; [apply prefix_take|].
  unfold selected, len. rewrite length_take. lia.
Qed.

Lemma identifyTargets_listing_order_witness :
  value (identifyTargets samplePkg (healthy inventory5) 2
           {| PoolIdentifierKey := IdentifierKeyClass; Value := "high-memory" |}
           "newest_create_index") =
  Returned ([stub "n1" 3; stub "n2" 1], None).
Proof.
  refine (proj1 (identifyTargets_listing_order samplePkg (healthy inventory5) 2
    {| PoolIdentifierKey := IdentifierKeyClass; Value := "high-memory" |}
    "newest_create_index" inventory5 inventory5 _ _ _ _ _));
    [reflexivity|reflexivity|discriminate|reflexivity|lia].
Defined.

(** C5. The selector is documented to sort the pool-filtered nodes by the
    strategy, newest creation index first, before it takes the requested
    count, and does not.  On the inventory with creation indices 3, 1, 4, 1,
    5 and a request for two nodes it returns n1 and n2, of creation indices
    3 and 1, and leaves out n5, the newest node of the pool; a request for
    five returns the nodes in the order of the listing, which is not newest
    first. *)
Theorem identifyTargets_not_sorted :
  let ident := {| PoolIdentifierKey := IdentifierKeyClass; Value := "high-memory" |} in
  let two := returnedList (value (identifyTargets samplePkg (healthy inventory5)
                                    2 ident "newest_create_index")) in
  let five := returnedList (value (identifyTargets samplePkg (healthy inventory5)
                                     5 ident "newest_create_index")) in
  two = [stub "n1" 3; stub "n2" 1] /\
  stub "n5" 5 ∈ inventory5 /\ (stub "n5" 5 ∉ two) /\
  (CreateIndex <$> five) = [3; 1; 4; 1; 5] /\
  (CreateIndex <$> five) ≠ [5; 4; 3; 1; 1].
Proof. repeat split; compute_done. Qed.

(** ** Draining *)

Lemma drainCalls_app (t1 t2 : list Event) :
  drainCalls (t1 ++ t2) = drainCalls t1 ++ drainCalls t2.
Proof. apply omap_app. Qed.

Lemma drainCalls_monitorNodeDrain_range ctx nodeID (ch : list MonitorMessage) :
  drainCalls (trace (monitorNodeDrain_range ctx nodeID ch)) = [].
Proof.
  induction ch as [|msg rest IH]; [done|]. simpl.
  repeat case_decide; go_simpl; try done; by rewrite drainCalls_app, IH.
Qed.

(** A drain issues one drain update, for its own node. *)
Lemma drainCalls_drainNode si ctx nodeID spec :
  drainCalls (trace (drainNode si ctx nodeID spec)) = [nodeID].
Proof.
  unfold drainNode. go_simpl.
  destruct (Nodes_UpdateDrain (nomad si) nodeID spec) as [lastIndex|err];
    go_simpl; [|done].
  unfold monitorNodeDrain. go_simpl.
  rewrite drainCalls_app, drainCalls_monitorNodeDrain_range. simpl.
  by destruct (value (monitorNodeDrain_range _ _ _)).1.
Qed.

(** The error of a failed drain is a plain error. *)
Lemma drainNode_plain si ctx nodeID spec err :
  value (drainNode si ctx nodeID spec) = Some err ->
  exists msg, err = errorString msg.
Proof.
  unfold drainNode. go_simpl.
  destruct (Nodes_UpdateDrain (nomad si) nodeID spec) as [lastIndex|e];
    go_simpl.
  - destruct (value (monitorNodeDrain si ctx nodeID lastIndex)).1; go_simpl;
      intros [= <-]; eauto.
  - intros [= <-]. eauto.
Qed.

Lemma drainFailures_plain si ctx spec nodes :
  Forall (fun e => exists msg, e = errorString msg)
    (drainFailures si ctx spec nodes).
Proof.
  apply Forall_forall. intros e He.
  apply list_elem_of_omap in He as (n & _ & Hn).
  by apply drainNode_plain in Hn.
Qed.

Lemma drainFailures_nil si ctx spec nodes :
  drainFailures si ctx spec nodes = [] <-> allDrained si ctx spec nodes.
Proof.
  unfold drainFailures, allDrained.
  induction nodes as [|n rest IH]; simpl; [by split; intros; constructor|].
  rewrite Forall_cons.
  destruct (value (drainNode si ctx (NomadID n) spec)) as [e|]; simpl.
  - split; [done|]. by intros [? _].
  - rewrite IH. tauto.
Qed.

Lemma drainNodes_join_value si ctx spec (done : list NodeID) result :
  value (drainNodes_join si ctx spec done result) =
  appendAll result (drainFailures si ctx spec done).
Proof.
  revert result. induction done as [|n rest IH]; intros result; [done|].
  simpl. go_simpl. unfold drainFailures. simpl.
  destruct (value (drainNode si ctx (NomadID n) spec)) as [err|];
    simpl; by rewrite IH.
Qed.

Lemma drainNodes_join_drainCalls si ctx spec (done : list NodeID) result :
  drainCalls (trace (drainNodes_join si ctx spec done result)) =
  NomadID <$> done.
Proof.
  revert result. induction done as [|n rest IH]; intros result; [done|].
  simpl. go_simpl. rewrite drainCalls_app, drainCalls_drainNode.
  destruct (value (drainNode si ctx (NomadID n) spec)) as [err|];
    simpl; by rewrite IH.
Qed.

(** What [drainNodes] returns: nil when no drain failed, otherwise a
    multi-error whose entries are the errors of the failed drains, in the
    order in which the goroutines completed. *)
Lemma drainNodes_value si sch ctx deadline nodes :
  value (drainNodes si sch ctx deadline nodes) =
  match drainFailures si ctx {| Deadline := deadline |} (completion sch nodes) with
  | [] => None
  | es => Some (multiError es)
  end.
Proof.
  unfold drainNodes. rewrite drainNodes_join_value, appendAll_nil_acc.
  rewrite flatten_plain by apply drainFailures_plain.
  by destruct (drainFailures _ _ _ _).
Qed.

Lemma drainFailures_completion si sch ctx spec nodes :
  drainFailures si ctx spec (completion sch nodes) ≡ₚ
  drainFailures si ctx spec nodes.
Proof. unfold drainFailures. by rewrite (completion_perm sch nodes). Qed.

Lemma drainNodes_nil si sch ctx deadline nodes :
  value (drainNodes si sch ctx deadline nodes) = None <->
  allDrained si ctx {| Deadline := deadline |} nodes.
Proof.
  rewrite drainNodes_value, <- drainFailures_nil.
  pose proof (drainFailures_completion si sch ctx {| Deadline := deadline |} nodes)
    as Hperm.
  destruct (drainFailures _ _ _ (completion sch nodes)) as [|e es] eqn:Hdone.
  - apply Permutation_nil_l in Hperm. by rewrite Hperm.
  - split; [done|]. intros Hnil. rewrite Hnil in Hperm.
    by apply Permutation_nil_r in Hperm.
Qed.

Lemma drainNodes_some si sch ctx deadline nodes err :
  value (drainNodes si sch ctx deadline nodes) = Some err ->
  exists es, err = multiError es /\ es ≠ [] /\
    es ≡ₚ drainFailures si ctx {| Deadline := deadline |} nodes.
Proof.
  rewrite drainNodes_value.
  pose proof (drainFailures_completion si sch ctx {| Deadline := deadline |} nodes)
    as Hperm.
  destruct (drainFailures _ _ _ (completion sch nodes)) as [|e es]; [done|].
  intros [= <-]. by exists (e :: es).
Qed.

Lemma length_omap_is_Some {A B} (f : A -> option B) (l : list A) :
  length (omap f l) = length (filter (fun x => is_Some (f x)) l).
Proof.
  induction l as [|x l IH]; [done|]. rewrite filter_cons.
  change (omap f (x :: l)) with (from_option (fun y => y :: omap f l) (omap f l) (f x)).
  destruct (f x) as [y|]; simpl; by rewrite IH.
Qed.

(** C8 (amended). For every set of nodes passed to the drain coordinator, a
    drain is issued for every node whatever the outcome of the others, and
    all outcomes are in before it returns: the aggregate error is nil exactly
    when every node drained successfully, and otherwise it is a multi-error
    with exactly one entry per failed node, the entry being the error of that
    node's drain, in the order in which the drains completed.  (An entry is
    built from the failure alone; the node is not named in it.) *)
Theorem drainNodes_aggregate (si : ScaleIn) (sch : Scheduler) (ctx : Context)
    (deadline : Duration) (nodes : list NodeID) :
  let spec := {| Deadline := deadline |} in
  drainCalls (trace (drainNodes si sch ctx deadline nodes)) ≡ₚ NomadID <$> nodes /\
  (value (drainNodes si sch ctx deadline nodes) = None <->
   allDrained si ctx spec nodes) /\
  (forall err, value (drainNodes si sch ctx deadline nodes) = Some err ->
     exists es, err = multiError es /\
       es ≡ₚ drainFailures si ctx spec nodes /\
       length es =
         length (filter (fun n =>
                   is_Some (value (drainNode si ctx (NomadID n) spec))) nodes)).
Proof.
  intros spec. split; [|split].
  - unfold drainNodes. rewrite drainNodes_join_drainCalls.
    by rewrite (completion_perm sch nodes).
  - apply drainNodes_nil.
  - intros err Herr. apply drainNodes_some in Herr as (es & -> & _ & Hperm).
    exists es. split; [done|]. split; [done|].
    rewrite Hperm. apply length_omap_is_Some.
Qed.

Lemma drainNodes_aggregate_witness :
  exists es,
    value (drainNodes n2DrainFails lifo background 300000000000 threeNodes) =
      Some (multiError es) /\
    length es = 1%nat.
Proof.
  destruct (proj2 (proj2 (drainNodes_aggregate n2DrainFails lifo background
    300000000000 threeNodes)) _ eq_refl) as (es & Hes & _ & Hlen).
  exists es. split; [|exact Hlen]. rewrite <- Hes. reflexivity.
Defined.

(** C8, as stated, fails.  With three nodes of which n2 fails to drain, the
    one entry of the aggregate error names neither n2 nor its remote ID. *)
Lemma drainNodes_aggregate_counterexample :
  exists entry,
    value (drainNodes n2DrainFails fifo background 300000000000 threeNodes) =
      Some (multiError [entry]) /\
    value (drainNode n2DrainFails background "n2"
             {| Deadline := 300000000000 |}) = Some entry /\
    strings_Contains (Error_ entry) "n2" = false.
Proof. eexists. repeat split. Qed.

(** ** Stages that issue no drain *)

Lemma drainCalls_identifyTargets_loop i bound (rest out : list NodeListStub) :
  drainCalls (trace (identifyTargets_loop i bound rest out)) = [].
Proof.
  revert i out. induction rest as [|node rest IH]; intros i out; simpl;
    destruct (i <=? bound); go_simpl; rewrite ?IH; done.
Qed.

Lemma drainCalls_identifyTargets P si num ident strategy :
  drainCalls (trace (identifyTargets P si num ident strategy)) = [].
Proof.
  unfold identifyTargets. go_simpl.
  destruct (Nodes_List (nomad si)) as [nodes|err]; go_simpl; [|done].
  destruct (IdentifyNodes P ident nodes) as [filteredNodes [err|]];
    go_simpl; [done|].
  repeat case_decide; go_simpl; try done;
    rewrite ?drainCalls_app, drainCalls_identifyTargets_loop; simpl;
    by destruct (value (identifyTargets_loop _ _ _ _)).
Qed.

Lemma drainCalls_getRemoteIDMap_loop si idFunc nodes out mErr :
  drainCalls (trace (getRemoteIDMap_loop si idFunc nodes out mErr)) = [].
Proof.
  revert out mErr. induction nodes as [|node rest IH]; intros out mErr;
    simpl; [done|].
  destruct (Nodes_Info (nomad si) (ID node)) as [info|err]; go_simpl; [|done].
  destruct (idFunc info) as [id e]. go_simpl. by rewrite IH.
Qed.

Lemma drainCalls_getRemoteIDMap P si nodes provider :
  drainCalls (trace (getRemoteIDMap P si nodes provider)) = [].
Proof.
  unfold getRemoteIDMap. destruct (idFuncMap P provider); [|done].
  apply drainCalls_getRemoteIDMap_loop.
Qed.

Lemma drainCalls_filterBusyNodes_loop nodesStatus (nodes out : list NodeID) :
  drainCalls (trace (filterBusyNodes_loop nodesStatus nodes out)) = [].
Proof.
  revert out. induction nodes as [|node rest IH]; intros out; simpl; [done|].
  destruct (nodesStatus !! NomadID node) as [[|]|]; go_simpl; by rewrite IH.
Qed.

Lemma drainCalls_filterBusyNodes si nodes :
  drainCalls (trace (filterBusyNodes si nodes)) = [].
Proof.
  unfold filterBusyNodes. go_simpl.
  destruct (dms si) as [client|]; go_simpl; [|done].
  destruct (Dms_List client) as [[status|err]|]; go_simpl; try done.
  by rewrite drainCalls_app, drainCalls_filterBusyNodes_loop.
Qed.

(** ** The pre-scale-in run *)

Section Orchestrator.
Context (P : Pkg) (si : ScaleIn) (sch : Scheduler) (ctx : Context)
  (req : ScaleInReq).

(** The run once the selector, the resolver and the busy-node filter have
    handed over a non-empty list [fl]: all that is left is the drain. *)
Lemma RunPreScaleInTasks_drain_stage nodes ids fl e :
  validate P req = None ->
  value (identifyTargets P si (Num req) (ReqPoolIdentifier req)
           (ReqNodeIDStrategy req)) = Returned (nodes, None) ->
  value (getRemoteIDMap P si nodes (ReqRemoteProvider req)) = (ids, None) ->
  value (filterBusyNodes si ids) = Returned (fl, e) ->
  fl ≠ [] ->
  value (RunPreScaleInTasks P si sch ctx req) =
  Returned (match value (drainNodes si sch ctx (DrainDeadline req) fl) with
            | Some err => ([], Some err)
            | None => (fl, None)
            end).
Proof.
  intros Hvalid Hsel Hres Hbusy Hne. unfold RunPreScaleInTasks.
  rewrite Hvalid. go_simpl. rewrite Hsel. go_simpl. rewrite Hres. go_simpl.
  rewrite Hbusy. go_simpl. rewrite decide_False by (by rewrite len_zero).
  go_simpl.
  by destruct (value (drainNodes si sch ctx (DrainDeadline req) fl)).
Qed.

(** The run when the selector, the resolver or the busy-node filter hands
    over no node: the zero-node guard ends it. *)
Lemma RunPreScaleInTasks_zero_nodes nodes ids e :
  validate P req = None ->
  value (identifyTargets P si (Num req) (ReqPoolIdentifier req)
           (ReqNodeIDStrategy req)) = Returned (nodes, None) ->
  value (getRemoteIDMap P si nodes (ReqRemoteProvider req)) = (ids, None) ->
  value (filterBusyNodes si ids) = Returned ([], e) ->
  value (RunPreScaleInTasks P si sch ctx req) =
  Returned ([], Some (errors_New "failed to identify nodes for removal")).
Proof.
  intros Hvalid Hsel Hres Hbusy. unfold RunPreScaleInTasks.
  rewrite Hvalid. go_simpl. rewrite Hsel. go_simpl. rewrite Hres. go_simpl.
  rewrite Hbusy. by go_simpl.
Qed.

(** Whatever the run returns was selected, in that order. *)
Lemma RunPreScaleInTasks_returned_sublist :
  (NomadID <$> returnedList (value (RunPreScaleInTasks P si sch ctx req)))
    `sublist_of`
  (ID <$> returnedList (value (identifyTargets P si (Num req)
                                 (ReqPoolIdentifier req) (ReqNodeIDStrategy req)))).
Proof.
  unfold RunPreScaleInTasks.
  destruct (validate P req) as [verr|]; [apply sublist_nil_l|]. go_simpl.
  destruct (value (identifyTargets _ _ _ _ _)) as [[nodes [serr|]]|];
    go_simpl; try apply sublist_nil_l.
  pose proof (getRemoteIDMap_loop_order si) as Horder.
  unfold getRemoteIDMap in *.
  destruct (idFuncMap P (ReqRemoteProvider req)) as [idFunc|];
    go_simpl; [|apply sublist_nil_l].
  specialize (Horder idFunc nodes [] None).
  destruct (value (getRemoteIDMap_loop si idFunc nodes [] None))
    as [ids [rerr|]]; go_simpl; [apply sublist_nil_l|].
  pose proof (filterBusyNodes_sublist si ids) as Hsub.
  destruct (value (filterBusyNodes si ids)) as [[fl ferr]|]; go_simpl;
    [|apply sublist_nil_l].
  simpl in Hsub, Horder.
  case_decide; go_simpl; [apply sublist_nil_l|].
  destruct (value (drainNodes si sch ctx (DrainDeadline req) fl));
    go_simpl; [apply sublist_nil_l|].
  destruct Horder as [->|Hids].
  - apply sublist_nil_r in Hsub as ->. apply sublist_nil_l.
  - rewrite <- Hids. by apply fmap_sublist.
Qed.

(** The zero-node guard is reached before any drain is issued. *)
Lemma RunPreScaleInTasks_zero_nodes_no_drain nodes ids e :
  validate P req = None ->
  value (identifyTargets P si (Num req) (ReqPoolIdentifier req)
           (ReqNodeIDStrategy req)) = Returned (nodes, None) ->
  value (getRemoteIDMap P si nodes (ReqRemoteProvider req)) = (ids, None) ->
  value (filterBusyNodes si ids) = Returned ([], e) ->
  drainCalls (trace (RunPreScaleInTasks P si sch ctx req)) = [].
Proof.
  intros Hvalid Hsel Hres Hbusy. unfold RunPreScaleInTasks.
  rewrite Hvalid. go_simpl. rewrite Hsel. go_simpl. rewrite Hres. go_simpl.
  rewrite Hbusy. go_simpl. rewrite !drainCalls_app.
  rewrite drainCalls_identifyTargets, drainCalls_getRemoteIDMap,
    drainCalls_filterBusyNodes. done.
Qed.

(** When the oracle cannot be reached, the error it gave is dropped and the
    run ends at the zero-node guard. *)
Lemma RunPreScaleInTasks_oracle_err nodes ids client err :
  validate P req = None ->
  value (identifyTargets P si (Num req) (ReqPoolIdentifier req)
           (ReqNodeIDStrategy req)) = Returned (nodes, None) ->
  value (getRemoteIDMap P si nodes (ReqRemoteProvider req)) = (ids, None) ->
  dms si = Some client ->
  Dms_List client = Returned (Err err) ->
  value (RunPreScaleInTasks P si sch ctx req) =
  Returned ([], Some (errors_New "failed to identify nodes for removal")).
Proof.
  intros Hvalid Hsel Hres Hdms Herr.
  apply RunPreScaleInTasks_zero_nodes with (nodes := nodes) (ids := ids)
    (e := Some err); try done.
  by apply filterBusyNodes_err with (client := client).
Qed.

(** When the busy-node filter is reached and panics, so does the run. *)
Lemma RunPreScaleInTasks_filter_panics nodes ids :
  validate P req = None ->
  value (identifyTargets P si (Num req) (ReqPoolIdentifier req)
           (ReqNodeIDStrategy req)) = Returned (nodes, None) ->
  value (getRemoteIDMap P si nodes (ReqRemoteProvider req)) = (ids, None) ->
  value (filterBusyNodes si ids) = Panicked ->
  value (RunPreScaleInTasks P si sch ctx req) = Panicked.
Proof.
  intros Hvalid Hsel Hres Hbusy. unfold RunPreScaleInTasks.
  rewrite Hvalid. go_simpl. rewrite Hsel. go_simpl. rewrite Hres. go_simpl.
  rewrite Hbusy. by go_simpl.
Qed.

(** With a count of zero the run never succeeds: it returns an error, or
    panics at the busy-node filter. *)
Lemma RunPreScaleInTasks_zero_count_fails :
  Num req = 0 ->
  value (RunPreScaleInTasks P si sch ctx req) = Panicked \/
  exists err, value (RunPreScaleInTasks P si sch ctx req) = Returned ([], Some err).
Proof.
  intros Hnum. unfold RunPreScaleInTasks. rewrite Hnum.
  destruct (validate P req) as [verr|]; [eauto|]. go_simpl.
  destruct (identifyTargets_zero P si (ReqPoolIdentifier req)
              (ReqNodeIDStrategy req)) as [e ->].
  destruct e as [serr|]; go_simpl; [eauto|].
  unfold getRemoteIDMap.
  destruct (idFuncMap P (ReqRemoteProvider req)) as [idFunc|];
    go_simpl; [|eauto].
  pose proof (filterBusyNodes_sublist si []) as Hsub.
  destruct (value (filterBusyNodes si [])) as [[fl ferr]|]; go_simpl;
    [|by left].
  apply sublist_nil_r in Hsub. simpl in Hsub. subst fl. go_simpl. eauto.
Qed.

End Orchestrator.

(** C1 (amended). For every scale-in request that reaches the drain stage
    with the list [fl] of nodes, the run is all or nothing: when every node
    of [fl] drains successfully the whole of [fl] is returned with a nil
    error, and when some node fails to drain the returned list is nil, the
    nodes that did drain are not returned, and the error is the aggregate
    error with one entry per failed node. *)
Theorem RunPreScaleInTasks_all_or_nothing (P : Pkg) (si : ScaleIn)
    (sch : Scheduler) (ctx : Context) (req : ScaleInReq)
    (nodes : list NodeListStub) (ids fl : list NodeID) (e : option error) :
  validate P req = None ->
  value (identifyTargets P si (Num req) (ReqPoolIdentifier req)
           (ReqNodeIDStrategy req)) = Returned (nodes, None) ->
  value (getRemoteIDMap P si nodes (ReqRemoteProvider req)) = (ids, None) ->
  value (filterBusyNodes si ids) = Returned (fl, e) ->
  fl ≠ [] ->
  let spec := {| Deadline := DrainDeadline req |} in
  (allDrained si ctx spec fl ->
   value (RunPreScaleInTasks P si sch ctx req) = Returned (fl, None)) /\
  (~ allDrained si ctx spec fl ->
   exists es,
     value (RunPreScaleInTasks P si sch ctx req) =
       Returned ([], Some (multiError es)) /\
     es ≡ₚ drainFailures si ctx spec fl /\
     es ≠ []).
Proof.
  intros Hvalid Hsel Hres Hbusy Hne spec. subst spec.
  rewrite (RunPreScaleInTasks_drain_stage P si sch ctx req nodes ids fl e)
    by done.
  split.
  - intros Hall.
    apply (proj2 (drainNodes_nil si sch ctx (DrainDeadline req) fl)) in Hall.
    by rewrite Hall.
  - intros Hsome.
    destruct (value (drainNodes si sch ctx (DrainDeadline req) fl))
      as [err|] eqn:Hdrain.
    + apply drainNodes_some in Hdrain as (es & -> & Hes & Hperm). by exists es.
    + by apply drainNodes_nil in Hdrain.
Qed.

Lemma RunPreScaleInTasks_all_or_nothing_witness :
  (exists es,
     value (RunPreScaleInTasks samplePkg n2DrainFails fifo background (request 3)) =
       Returned ([], Some (multiError es)) /\ es ≠ []) /\
  value (RunPreScaleInTasks samplePkg (healthy inventory3) fifo background
           (request 3)) = Returned (threeNodes, None).
Proof.
  split.
  - destruct (proj2 (RunPreScaleInTasks_all_or_nothing samplePkg n2DrainFails
      fifo background (request 3) inventory3 threeNodes threeNodes None
      eq_refl eq_refl eq_refl eq_refl ltac:(discriminate)))
      as (es & Hval & _ & Hes).
    + intros Hall. apply Forall_cons in Hall as [_ Hall].
      apply Forall_cons in Hall as [Hn2 _]. discriminate Hn2.
    + exists es. split; [exact Hval|exact Hes].
  - refine (proj1 (RunPreScaleInTasks_all_or_nothing samplePkg
      (healthy inventory3) fifo background (request 3) inventory3 threeNodes
      threeNodes None eq_refl eq_refl eq_refl eq_refl ltac:(discriminate)) _).
    repeat constructor.
Defined.

(** C1, as stated, fails.  Of three nodes n2 fails to drain while n1 and n3
    drain successfully; the run returns no node at all, not n1 and n3, next
    to the aggregate error. *)
Lemma RunPreScaleInTasks_all_or_nothing_counterexample :
  let spec := {| Deadline := 300000000000 |} in
  let r := value (RunPreScaleInTasks samplePkg n2DrainFails fifo background
                    (request 3)) in
  value (drainNode n2DrainFails background "n1" spec) = None /\
  value (drainNode n2DrainFails background "n3" spec) = None /\
  r = Returned ([], Some (multiError [errorString
        "context done while monitoring node drain: received error while draining node: alloc stuck"])) /\
  returnedList r ≠
    [ {| NomadID := "n1"; RemoteID := "i-n1" |};
      {| NomadID := "n3"; RemoteID := "i-n3" |} ].
Proof. repeat split. discriminate. Qed.

(** C2 (amended). For every valid request with a count of zero, a non-empty
    eligible pool, the supported strategy and a known provider, served by a
    helper that has a DMS client whose node listing answers, with the nodes
    or with an error, the run returns no list and the error of the zero-node
    guard, "failed to identify nodes for removal": the empty selection is
    turned into a failure, before any drain is issued. *)
Theorem RunPreScaleInTasks_zero_count (P : Pkg) (si : ScaleIn)
    (sch : Scheduler) (ctx : Context) (req : ScaleInReq)
    (nodes pool : list NodeListStub) (idFunc : Node -> string * option error)
    (client : DmsApiClient) (answer : Result DmsNodes) :
  Num req = 0 ->
  validate P req = None ->
  Nodes_List (nomad si) = Ok nodes ->
  IdentifyNodes P (ReqPoolIdentifier req) nodes = (pool, None) ->
  filterOutNodeID pool (curNodeID si) ≠ [] ->
  ReqNodeIDStrategy req = IDStrategyNewestCreateIndex P ->
  idFuncMap P (ReqRemoteProvider req) = Some idFunc ->
  dms si = Some client ->
  Dms_List client = Returned answer ->
  value (RunPreScaleInTasks P si sch ctx req) =
    Returned ([], Some (errorString "failed to identify nodes for removal")) /\
  drainCalls (trace (RunPreScaleInTasks P si sch ctx req)) = [].
Proof.
  intros Hnum Hvalid Hlist Hpool Hne Hstrat Hknown Hdms Hanswer.
  assert (value (identifyTargets P si (Num req) (ReqPoolIdentifier req)
                   (ReqNodeIDStrategy req)) = Returned ([], None)) as Hsel.
  { rewrite (identifyTargets_selected P si (Num req) _ _ nodes pool)
      by (done || lia).
    by rewrite Hnum. }
  assert (value (getRemoteIDMap P si [] (ReqRemoteProvider req)) = ([], None))
    as Hres.
  { unfold getRemoteIDMap. by rewrite Hknown. }
  assert (exists e, value (filterBusyNodes si []) = Returned ([], e))
    as [e Hbusy].
  { destruct answer as [status|err].
    - exists None. by rewrite (filterBusyNodes_ok si client status).
    - exists (Some err). by rewrite (filterBusyNodes_err si client err). }
  split.
  - by apply RunPreScaleInTasks_zero_nodes with (nodes := []) (ids := []) (e := e).
  - by apply RunPreScaleInTasks_zero_nodes_no_drain
      with (nodes := []) (ids := []) (e := e).
Qed.

Lemma RunPreScaleInTasks_zero_count_witness :
  value (RunPreScaleInTasks samplePkg (healthy inventory3) fifo background
           (request 0)) =
  Returned ([], Some (errorString "failed to identify nodes for removal")).
Proof.
  refine (proj1 (RunPreScaleInTasks_zero_count samplePkg (healthy inventory3)
    fifo background (request 0) inventory3 inventory3 attrIDFunc idleDms
    (Ok {| Nodes := ∅ |}) _ _ _ _ _ _ _ _ _));
    [reflexivity|reflexivity|reflexivity|reflexivity|discriminate
    |reflexivity|reflexivity|reflexivity|reflexivity].
Defined.

(** C2, as stated, fails.  The request for zero nodes of a pool of three is
    valid and the pool is not empty, yet the run ends with an error and not
    with an empty list and a nil error. *)
Lemma RunPreScaleInTasks_zero_count_counterexample :
  let r := value (RunPreScaleInTasks samplePkg (healthy inventory3) fifo
                    background (request 0)) in
  validate samplePkg (request 0) = None /\
  IdentifyNodes samplePkg (ReqPoolIdentifier (request 0)) inventory3 =
    (inventory3, None) /\
  r = Returned ([], Some (errorString "failed to identify nodes for removal")) /\
  r ≠ Returned ([], None).
Proof. repeat split. discriminate. Qed.

(** C4. A run in which the busy-node oracle cannot be reached: the filter
    hands its caller the oracle's error with an empty list, the run drops
    that error and ends with the error of the zero-node guard, which is the
    same whatever the oracle's error was. *)
Theorem RunPreScaleInTasks_oracle_failure_hidden (why : string) :
  value (filterBusyNodes (oracleDown why) threeNodes) =
    Returned ([], Some (errorString why)) /\
  value (RunPreScaleInTasks samplePkg (oracleDown why) fifo background
           (request 2)) =
    Returned ([], Some (errorString "failed to identify nodes for removal")).
Proof. split; reflexivity. Qed.

(** C10. Order is preserved through the pipeline: the resolver emits its
    pairs in the order of its input nodes (or nothing at all), the output of
    the busy-node filter is a subsequence of its input, and the node IDs of
    the list the run returns are a subsequence of the node IDs the selector
    selected. *)
Theorem pipeline_preserves_order (P : Pkg) (si : ScaleIn) (sch : Scheduler)
    (ctx : Context) (req : ScaleInReq) (nodes : list NodeListStub)
    (provider : RemoteProvider) (ids : list NodeID) :
  ((value (getRemoteIDMap P si nodes provider)).1 = [] \/
   NomadID <$> (value (getRemoteIDMap P si nodes provider)).1 = ID <$> nodes) /\
  returnedList (value (filterBusyNodes si ids)) `sublist_of` ids /\
  (NomadID <$> returnedList (value (RunPreScaleInTasks P si sch ctx req)))
    `sublist_of`
  (ID <$> returnedList (value (identifyTargets P si (Num req)
                                 (ReqPoolIdentifier req) (ReqNodeIDStrategy req)))).
Proof.
  split; [|split].
  - unfold getRemoteIDMap. destruct (idFuncMap P provider) as [idFunc|];
      [|by left].
    apply (getRemoteIDMap_loop_order si idFunc nodes [] None).
  - apply filterBusyNodes_sublist.
  - apply RunPreScaleInTasks_returned_sublist.
Qed.

(** * Further properties of the scale-in helper *)

(** ** Selection: every case *)

Lemma identifyTargets_loop_trace_take (i bound : Z) (rest out : list NodeListStub) :
  bound - i + 1 <= len rest ->
  trace (identifyTargets_loop i bound rest out) =
  selectionLog <$> take (Z.to_nat (bound - i + 1)) rest.
Proof.
  revert i out. induction rest as [|node rest IH]; intros i out Hlen; simpl.
  - destruct (Z.leb_spec i bound); [unfold len in Hlen; simpl in Hlen; lia|].
    by rewrite take_nil.
  - destruct (Z.leb_spec i bound) as [Hle|Hgt].
    + go_simpl. rewrite IH by (unfold len in *; simpl in Hlen; lia).
      replace (Z.to_nat (bound - i + 1))
        with (S (Z.to_nat (bound - (i + 1) + 1))) by lia.
      done.
    + by replace (Z.to_nat (bound - i + 1)) with 0%nat by lia.
Qed.

(** The selector once the listing and the pool filter have succeeded, the
    pool is not empty and the strategy is the supported one, for every count:
    it returns the first nodes up to the bound, or panics when the bound
    lies beyond the slice. *)
Lemma identifyTargets_value (P : Pkg) (si : ScaleIn) (num : Z)
    (ident : PoolIdentifier) (strategy : NodeIDStrategy)
    (nodes pool : list NodeListStub) :
  Nodes_List (nomad si) = Ok nodes ->
  IdentifyNodes P ident nodes = (pool, None) ->
  filterOutNodeID pool (curNodeID si) ≠ [] ->
  strategy = IDStrategyNewestCreateIndex P ->
  let filteredNodes := filterOutNodeID pool (curNodeID si) in
  let bound := selectionBound num filteredNodes in
  value (identifyTargets P si num ident strategy) =
  if decide (bound + 1 <= len filteredNodes)
  then Returned (take (Z.to_nat (bound + 1)) filteredNodes, None)
  else Panicked.
Proof.
  intros Hlist Hpool Hne Hstrat filteredNodes bound. unfold identifyTargets.
  rewrite Hlist. go_simpl. rewrite Hpool.
  fold filteredNodes.
  rewrite decide_False by (by rewrite len_zero).
  rewrite decide_True by done. go_simpl.
  assert (value (if decide (num > len filteredNodes)
                 then log LWarn "can only identify portion of requested nodes for removal"
                        [("requested", VInt num);
                         ("available", VInt (len filteredNodes))];;;
                      ret (len filteredNodes)
                 else ret num) =
          if decide (num > len filteredNodes) then len filteredNodes else num)
    as ->.
  { case_decide; by go_simpl. }
  fold (selectionBound num filteredNodes). fold bound.
  case_decide as Hin.
  - rewrite identifyTargets_loop_take by lia. simpl.
    by replace (bound - 0 + 1) with (bound + 1) by lia.
  - by rewrite identifyTargets_loop_panic by lia.
Qed.

(** Whatever the selector returns is a prefix of the pool once the pool
    filter and the self-node exclusion have been applied. *)
Lemma identifyTargets_prefix (P : Pkg) (si : ScaleIn) (num : Z)
    (ident : PoolIdentifier) (strategy : NodeIDStrategy) :
  returnedList (value (identifyTargets P si num ident strategy)) = [] \/
  exists nodes pool,
    Nodes_List (nomad si) = Ok nodes /\
    IdentifyNodes P ident nodes = (pool, None) /\
    strategy = IDStrategyNewestCreateIndex P /\
    returnedList (value (identifyTargets P si num ident strategy)) =
      take (Z.to_nat (selectionBound num (filterOutNodeID pool (curNodeID si)) + 1))
        (filterOutNodeID pool (curNodeID si)).
Proof.
  destruct (Nodes_List (nomad si)) as [nodes|err] eqn:Hlist;
    [|left; unfold identifyTargets; rewrite Hlist; by go_simpl].
  destruct (IdentifyNodes P ident nodes) as [pool [err|]] eqn:Hpool;
    [left; unfold identifyTargets; rewrite Hlist; go_simpl; by rewrite Hpool|].
  destruct (decide (filterOutNodeID pool (curNodeID si) = [])) as [Hnil|Hne].
  { left. unfold identifyTargets. rewrite Hlist. go_simpl. rewrite Hpool.
    by rewrite decide_True by (by rewrite len_zero). }
  destruct (decide (strategy = IDStrategyNewestCreateIndex P)) as [Hstrat|Hstrat].
  - rewrite (identifyTargets_value P si num ident strategy nodes pool) by done.
    case_decide; [right|by left]. by exists nodes, pool.
  - left. unfold identifyTargets. rewrite Hlist. go_simpl. rewrite Hpool.
    rewrite decide_False by (by rewrite len_zero).
    by rewrite decide_False by done.
Qed.

(** ** What each stage may do *)

Lemma identifyTargets_loop_events i bound (rest out : list NodeListStub) :
  Forall isLog (trace (identifyTargets_loop i bound rest out)).
Proof.
  revert i out. induction rest as [|node rest IH]; intros i out; simpl;
    destruct (i <=? bound); go_simpl; try done.
  constructor; [done|apply IH].
Qed.

Lemma identifyTargets_events P si num ident strategy :
  Forall (fun e => e = EvNodesList \/ isLog e)
    (trace (identifyTargets P si num ident strategy)).
Proof.
  unfold identifyTargets. go_simpl. constructor; [by left|].
  destruct (Nodes_List (nomad si)) as [nodes|err]; go_simpl; [|done].
  constructor; [by right|].
  destruct (IdentifyNodes P ident nodes) as [filteredNodes [err|]];
    go_simpl; [done|].
  repeat case_decide; go_simpl; try done.
  - constructor; [by right|]. apply Forall_app. split.
    + eapply Forall_impl; [apply identifyTargets_loop_events|]. by right.
    + by destruct (value (identifyTargets_loop _ _ _ _)).
  - apply Forall_app. split.
    + eapply Forall_impl; [apply identifyTargets_loop_events|]. by right.
    + by destruct (value (identifyTargets_loop _ _ _ _)).
Qed.

Lemma getRemoteIDMap_events P si nodes provider :
  Forall (fun e => (exists id, e = EvNodesInfo id) \/ isLog e)
    (trace (getRemoteIDMap P si nodes provider)).
Proof.
  unfold getRemoteIDMap. destruct (idFuncMap P provider) as [idFunc|]; [|done].
  generalize (@nil NodeID) (@None error).
  induction nodes as [|node rest IH]; intros out mErr; simpl; [done|].
  go_simpl. constructor; [left; eauto|].
  destruct (Nodes_Info (nomad si) (ID node)) as [info|err]; go_simpl; [|done].
  destruct (idFunc info) as [id e]. go_simpl. constructor; [by right|]. apply IH.
Qed.

Lemma filterBusyNodes_loop_events nodesStatus (nodes out : list NodeID) :
  Forall isLog (trace (filterBusyNodes_loop nodesStatus nodes out)).
Proof.
  revert out. induction nodes as [|node rest IH]; intros out; simpl; [done|].
  destruct (nodesStatus !! NomadID node) as [[|]|]; go_simpl;
    try apply IH.
  constructor; [done|apply IH].
Qed.

Lemma filterBusyNodes_events si nodes :
  exists logs,
    trace (filterBusyNodes si nodes) = EvDmsList :: logs /\ Forall isLog logs.
Proof.
  unfold filterBusyNodes. go_simpl.
  destruct (dms si) as [client|]; go_simpl; [|by exists []].
  destruct (Dms_List client) as [[status|err]|]; go_simpl.
  - eexists. split; [done|]. rewrite app_nil_r.
    apply filterBusyNodes_loop_events.
  - by exists [].
  - by exists [].
Qed.

Lemma monitorNodeDrain_range_events ctx nodeID (ch : list MonitorMessage) :
  Forall isLog (trace (monitorNodeDrain_range ctx nodeID ch)).
Proof.
  induction ch as [|msg rest IH]; [done|]. simpl.
  repeat case_decide; go_simpl; try done; by constructor.
Qed.

Lemma drainNode_events si ctx nodeID spec :
  Forall isDrainEvent (trace (drainNode si ctx nodeID spec)).
Proof.
  unfold drainNode. go_simpl. constructor; [done|]. constructor; [done|].
  destruct (Nodes_UpdateDrain (nomad si) nodeID spec) as [lastIndex|err];
    go_simpl; [|done].
  unfold monitorNodeDrain. go_simpl. constructor; [done|].
  apply Forall_app. split.
  - eapply Forall_impl; [apply monitorNodeDrain_range_events|].
    by intros [].
  - by destruct (value (monitorNodeDrain_range _ _ _)).1.
Qed.

Lemma drainNodes_events si sch ctx deadline nodes :
  Forall isDrainEvent (trace (drainNodes si sch ctx deadline nodes)).
Proof.
  unfold drainNodes. generalize (@None error).
  induction (completion sch nodes) as [|n rest IH]; intros result; [done|].
  simpl. go_simpl. apply Forall_app. split; [apply drainNode_events|].
  destruct (value (drainNode si ctx (NomadID n) {| Deadline := deadline |}));
    apply IH.
Qed.

Lemma omap_nil_Forall {A B} (f : A -> option B) (Q : A -> Prop) (l : list A) :
  Forall Q l -> (forall x, Q x -> f x = None) -> omap f l = [].
Proof.
  intros Hl Hf. induction Hl as [|x l Hx _ IH]; [done|].
  change (omap f (x :: l)) with (from_option (fun y => y :: omap f l) (omap f l) (f x)).
  by rewrite (Hf x Hx).
Qed.

Lemma drainCalls_drainNodes si sch ctx deadline nodes :
  drainCalls (trace (drainNodes si sch ctx deadline nodes)) =
  NomadID <$> completion sch nodes.
Proof. unfold drainNodes. apply drainNodes_join_drainCalls. Qed.

Lemma dmsListCalls_nil : dmsListCalls [] = 0%nat.
Proof. done. Qed.

Lemma dmsListCalls_app (t1 t2 : list Event) :
  dmsListCalls (t1 ++ t2) = (dmsListCalls t1 + dmsListCalls t2)%nat.
Proof. unfold dmsListCalls. by rewrite omap_app, length_app. Qed.


Lemma dmsListCalls_identifyTargets P si num ident strategy :
  dmsListCalls (trace (identifyTargets P si num ident strategy)) = 0%nat.
Proof.
  unfold dmsListCalls.
  rewrite (omap_nil_Forall _ _ _ (identifyTargets_events P si num ident strategy));
    [done|].
  by intros [] [Heq|Hlog].
Qed.

Lemma infoCalls_identifyTargets P si num ident strategy :
  infoCalls (trace (identifyTargets P si num ident strategy)) = [].
Proof.
  apply (omap_nil_Forall _ _ _ (identifyTargets_events P si num ident strategy)).
  by intros [] [Heq|Hlog].
Qed.

Lemma dmsListCalls_getRemoteIDMap P si nodes provider :
  dmsListCalls (trace (getRemoteIDMap P si nodes provider)) = 0%nat.
Proof.
  unfold dmsListCalls.
  rewrite (omap_nil_Forall _ _ _ (getRemoteIDMap_events P si nodes provider));
    [done|].
  by intros [] [[id Heq]|Hlog].
Qed.

Lemma dmsListCalls_filterBusyNodes si nodes :
  dmsListCalls (trace (filterBusyNodes si nodes)) = 1%nat.
Proof.
  destruct (filterBusyNodes_events si nodes) as (logs & -> & Hlogs).
  unfold dmsListCalls.
  change (omap ?f (EvDmsList :: logs)) with (tt :: omap f logs).
  rewrite (omap_nil_Forall _ _ _ Hlogs); [done|]. by intros [].
Qed.

Lemma dmsListCalls_drainNodes si sch ctx deadline nodes :
  dmsListCalls (trace (drainNodes si sch ctx deadline nodes)) = 0%nat.
Proof.
  unfold dmsListCalls.
  rewrite (omap_nil_Forall _ _ _ (drainNodes_events si sch ctx deadline nodes));
    [done|].
  by intros [].
Qed.

(** ** The run, stage by stage *)

Section Run.
Context (P : Pkg) (si : ScaleIn) (sch : Scheduler) (ctx : Context)
  (req : ScaleInReq).

Let targets := identifyTargets P si (Num req) (ReqPoolIdentifier req)
                 (ReqNodeIDStrategy req).

(** The drain updates of a run: none, or those of the nodes the busy-node
    filter let through, in the order their drains completed. *)
Lemma RunPreScaleInTasks_drainCalls :
  drainCalls (trace (RunPreScaleInTasks P si sch ctx req)) = [] \/
  exists nodes ids fl ferr,
    value targets = Returned (nodes, None) /\
    value (getRemoteIDMap P si nodes (ReqRemoteProvider req)) = (ids, None) /\
    value (filterBusyNodes si ids) = Returned (fl, ferr) /\
    fl ≠ [] /\
    drainCalls (trace (RunPreScaleInTasks P si sch ctx req)) =
      NomadID <$> completion sch fl.
Proof.
  unfold RunPreScaleInTasks.
  destruct (validate P req) as [verr|]; [by left|]. go_simpl.
  fold targets. rewrite drainCalls_app.
  unfold targets at 1. rewrite drainCalls_identifyTargets. simpl.
  destruct (value targets) as [[nodes [serr|]]|] eqn:Hsel; go_simpl;
    [by left| |by left].
  rewrite drainCalls_app, drainCalls_getRemoteIDMap. simpl.
  destruct (value (getRemoteIDMap P si nodes (ReqRemoteProvider req)))
    as [ids [rerr|]] eqn:Hres; go_simpl; [by left|].
  rewrite drainCalls_app, drainCalls_filterBusyNodes. simpl.
  destruct (value (filterBusyNodes si ids)) as [[fl ferr]|] eqn:Hbusy;
    go_simpl; [|by left].
  destruct (decide (len fl = 0)) as [Hnil|Hnn]; go_simpl; [by left|].
  right. exists nodes, ids, fl, ferr. repeat split; try done.
  - by rewrite <- len_zero.
  - rewrite drainCalls_app, drainCalls_drainNodes.
    destruct (value (drainNodes si sch ctx (DrainDeadline req) fl));
      go_simpl; rewrite ?app_nil_r; unfold targets;
      by rewrite drainCalls_identifyTargets.
Qed.

(** A node for which a drain update was issued had been selected. *)
Lemma RunPreScaleInTasks_drained_selected id :
  id ∈ drainCalls (trace (RunPreScaleInTasks P si sch ctx req)) ->
  id ∈ ID <$> returnedList (value targets).
Proof.
  destruct RunPreScaleInTasks_drainCalls
    as [->|(nodes & ids & fl & ferr & Hsel & Hres & Hbusy & Hne & ->)];
    [by intros ?%elem_of_nil|].
  rewrite Hsel. simpl. rewrite (completion_perm sch fl).
  pose proof (filterBusyNodes_sublist si ids) as Hsub.
  rewrite Hbusy in Hsub. simpl in Hsub.
  pose proof (getRemoteIDMap_loop_order si) as Horder.
  unfold getRemoteIDMap in Hres.
  destruct (idFuncMap P (ReqRemoteProvider req)) as [idFunc|]; [|done].
  specialize (Horder idFunc nodes [] None). rewrite Hres in Horder.
  simpl in Horder. intros Hin.
  destruct Horder as [->|Hids].
  - apply sublist_nil_r in Hsub. by subst fl.
  - rewrite <- Hids. eapply elem_of_sublist; [done|]. by apply fmap_sublist.
Qed.

End Run.

(** The stages of a run, one goal per way it can end: validation failure,
    selection error, resolution error, no node left, drain failure, success,
    panic of the busy-node filter, panic of the selection. *)
Ltac run_stages P si sch ctx req :=
  unfold RunPreScaleInTasks;
  destruct (validate P req) as [verr|] eqn:Hvalid; go_simpl;
  [| destruct (value (identifyTargets P si (Num req) (ReqPoolIdentifier req)
                        (ReqNodeIDStrategy req)))
       as [[nodes [serr|]]|] eqn:Hsel; go_simpl;
     [| destruct (value (getRemoteIDMap P si nodes (ReqRemoteProvider req)))
          as [ids [rerr|]] eqn:Hres; go_simpl;
        [| destruct (value (filterBusyNodes si ids)) as [[fl ferr]|] eqn:Hbusy;
           go_simpl;
           [ destruct (decide (len fl = 0)) as [Hnil|Hnn]; go_simpl;
             [| destruct (value (drainNodes si sch ctx (DrainDeadline req) fl))
                  as [derr|] eqn:Hdrain; go_simpl ]
           | ] ]
     | ] ].

Lemma identifyTargets_not_self (P : Pkg) (si : ScaleIn) (num : Z)
    (ident : PoolIdentifier) (strategy : NodeIDStrategy) (node : NodeListStub) :
  curNodeID si ≠ "" ->
  node ∈ returnedList (value (identifyTargets P si num ident strategy)) ->
  ID node ≠ curNodeID si.
Proof.
  intros Hself.
  destruct (identifyTargets_prefix P si num ident strategy)
    as [->|(nodes & pool & _ & _ & _ & ->)]; [by intros ?%elem_of_nil|].
  intros Hin. apply elem_of_take in Hin as (i & Hin & _).
  apply list_elem_of_lookup_2 in Hin.
  rewrite filterOutNodeID_filter in Hin. rewrite decide_False in Hin by done.
  by apply list_elem_of_filter in Hin as [? _].
Qed.

(** X1. With the autoscaler's own node known, that node is never selected,
    no drain update is ever issued for it, and it is never in the returned
    list. *)
Theorem RunPreScaleInTasks_spares_own_node (P : Pkg) (si : ScaleIn)
    (sch : Scheduler) (ctx : Context) (req : ScaleInReq) :
  curNodeID si ≠ "" ->
  (curNodeID si ∉ (ID <$> returnedList (value (identifyTargets P si (Num req)
                      (ReqPoolIdentifier req) (ReqNodeIDStrategy req))))) /\
  (curNodeID si ∉ drainCalls (trace (RunPreScaleInTasks P si sch ctx req))) /\
  (curNodeID si ∉ (NomadID <$> returnedList
                     (value (RunPreScaleInTasks P si sch ctx req)))).
Proof.
  intros Hself.
  assert (curNodeID si ∉ (ID <$> returnedList (value (identifyTargets P si
            (Num req) (ReqPoolIdentifier req) (ReqNodeIDStrategy req)))))
    as Hsel.
  { intros (node & Hid & Hin)%list_elem_of_fmap.
    by eapply identifyTargets_not_self. }
  split; [done|]. split.
  - intros Hin. by apply RunPreScaleInTasks_drained_selected in Hin.
  - intros Hin. apply Hsel. eapply elem_of_sublist; [done|].
    apply RunPreScaleInTasks_returned_sublist.
Qed.

Lemma RunPreScaleInTasks_spares_own_node_witness :
  "n1" ∉ drainCalls (trace (RunPreScaleInTasks samplePkg
                              (healthyOn "n1" inventory3) fifo background
                              (request 3))).
Proof.
  refine (proj1 (proj2 (RunPreScaleInTasks_spares_own_node samplePkg
    (healthyOn "n1" inventory3) fifo background (request 3) _))).
  discriminate.
Defined.

(** X2. A node the busy-node oracle reports busy is never drained and never
    returned. *)
Theorem RunPreScaleInTasks_never_drains_busy (P : Pkg) (si : ScaleIn)
    (sch : Scheduler) (ctx : Context) (req : ScaleInReq)
    (client : DmsApiClient) (status : DmsNodes) (id : string) :
  dms si = Some client ->
  Dms_List client = Returned (Ok status) ->
  Nodes status !! id = Some true ->
  (id ∉ drainCalls (trace (RunPreScaleInTasks P si sch ctx req))) /\
  (id ∉ (NomadID <$> returnedList (value (RunPreScaleInTasks P si sch ctx req)))).
Proof.
  intros Hdms Hok Htrue.
  assert (forall ids,
            id ∉ (NomadID <$> returnedList (value (filterBusyNodes si ids))))
    as Hfilter.
  { intros ids (n & -> & Hin)%list_elem_of_fmap.
    rewrite (filterBusyNodes_ok _ _ _ _ Hdms Hok) in Hin. simpl in Hin.
    by apply list_elem_of_filter in Hin as [? _]. }
  split.
  - destruct (RunPreScaleInTasks_drainCalls P si sch ctx req)
      as [->|(nodes & ids & fl & ferr & _ & _ & Hfl & _ & ->)];
      [by intros ?%elem_of_nil|].
    rewrite (completion_perm sch fl). specialize (Hfilter ids).
    by rewrite Hfl in Hfilter.
  - run_stages P si sch ctx req; try by intros ?%elem_of_nil.
    specialize (Hfilter ids). by rewrite Hbusy in Hfilter.
Qed.

Lemma RunPreScaleInTasks_never_drains_busy_witness :
  "n1" ∉ drainCalls (trace (RunPreScaleInTasks samplePkg n1Busy fifo
                              background (request 3))).
Proof.
  refine (proj1 (RunPreScaleInTasks_never_drains_busy samplePkg n1Busy fifo
    background (request 3) busyDms
    {| Nodes := {[ "n1" := true; "n2" := false ]} |} "n1" _ _ _));
    reflexivity.
Defined.

Lemma selectionBound_le (num : Z) (filteredNodes : list NodeListStub) :
  - 2 ^ 63 < num < 2 ^ 63 ->
  selectionBound num filteredNodes + 1 <= Z.max 0 num.
Proof.
  intros Hnum. unfold selectionBound.
  pose proof (len_nonneg filteredNodes).
  case_decide; rewrite wrap64_small by lia; lia.
Qed.

(** X3. For a count within the range of [int], the run never issues more
    drain updates than the count asks for (none at all for a count of zero
    or less), and never returns more nodes than that. *)
Theorem RunPreScaleInTasks_at_most_count (P : Pkg) (si : ScaleIn)
    (sch : Scheduler) (ctx : Context) (req : ScaleInReq) :
  - 2 ^ 63 < Num req < 2 ^ 63 ->
  (length (drainCalls (trace (RunPreScaleInTasks P si sch ctx req)))
     <= Z.to_nat (Num req))%nat /\
  (length (returnedList (value (RunPreScaleInTasks P si sch ctx req)))
     <= Z.to_nat (Num req))%nat.
Proof.
  intros Hnum.
  assert (length (returnedList (value (identifyTargets P si (Num req)
            (ReqPoolIdentifier req) (ReqNodeIDStrategy req))))
          <= Z.to_nat (Num req))%nat as Hsel.
  { destruct (identifyTargets_prefix P si (Num req) (ReqPoolIdentifier req)
                (ReqNodeIDStrategy req))
      as [->|(nodes & pool & _ & _ & _ & ->)]; [simpl; lia|].
    rewrite length_take.
    pose proof (selectionBound_le (Num req)
                  (filterOutNodeID pool (curNodeID si)) Hnum).
    lia. }
  assert (length (returnedList (value (RunPreScaleInTasks P si sch ctx req)))
          <= Z.to_nat (Num req))%nat as Hret.
  { pose proof (RunPreScaleInTasks_returned_sublist P si sch ctx req) as Hsub.
    apply sublist_length in Hsub. rewrite !length_fmap in Hsub. lia. }
  split; [|done].
  destruct (RunPreScaleInTasks_drainCalls P si sch ctx req)
    as [->|(nodes & ids & fl & ferr & Htargets & Hres & Hfl & _ & ->)];
    [simpl; lia|].
  rewrite length_fmap, (completion_perm sch fl).
  pose proof (filterBusyNodes_sublist si ids) as Hsub.
  rewrite Hfl in Hsub. apply sublist_length in Hsub. simpl in Hsub.
  rewrite Htargets in Hsel. simpl in Hsel.
  pose proof (getRemoteIDMap_loop_order si) as Horder.
  unfold getRemoteIDMap in Hres.
  destruct (idFuncMap P (ReqRemoteProvider req)) as [idFunc|]; [|done].
  specialize (Horder idFunc nodes [] None). rewrite Hres in Horder.
  simpl in Horder. destruct Horder as [->|Hids]; [simpl in Hsub; lia|].
  apply (f_equal length) in Hids. rewrite !length_fmap in Hids. lia.
Qed.

Lemma RunPreScaleInTasks_at_most_count_witness :
  (length (drainCalls (trace (RunPreScaleInTasks samplePkg (healthy inventory5)
                                lifo background (request 2)))) <= 2)%nat.
Proof.
  refine (proj1 (RunPreScaleInTasks_at_most_count samplePkg (healthy inventory5)
    lifo background (request 2) _)).
  simpl. lia.
Defined.

(** X4. The busy-node oracle is consulted at most once in a run, and exactly
    once precisely when the request is valid, the selection succeeded and
    every remote ID was resolved without error; a run that fails before that
    never contacts the oracle. *)
Theorem RunPreScaleInTasks_oracle_once (P : Pkg) (si : ScaleIn)
    (sch : Scheduler) (ctx : Context) (req : ScaleInReq) :
  (dmsListCalls (trace (RunPreScaleInTasks P si sch ctx req)) <= 1)%nat /\
  (dmsListCalls (trace (RunPreScaleInTasks P si sch ctx req)) = 1%nat <->
   validate P req = None /\
   exists nodes ids,
     value (identifyTargets P si (Num req) (ReqPoolIdentifier req)
              (ReqNodeIDStrategy req)) = Returned (nodes, None) /\
     value (getRemoteIDMap P si nodes (ReqRemoteProvider req)) = (ids, None)).
Proof.
  run_stages P si sch ctx req;
    rewrite ?dmsListCalls_app, ?dmsListCalls_identifyTargets,
      ?dmsListCalls_getRemoteIDMap, ?dmsListCalls_filterBusyNodes,
      ?dmsListCalls_drainNodes, ?dmsListCalls_nil; simpl.
  - split; [lia|]. split; [done|]. by intros [? _].
  - split; [lia|]. split; [done|]. by intros [_ (? & ? & ? & _)].
  - split; [lia|]. split; [done|].
    intros [_ (nodes' & ids' & [= <-] & Hres')]. congruence.
  - split; [lia|]. split; [|done]. intros _. split; [done|].
    by exists nodes, ids.
  - split; [lia|]. split; [|done]. intros _. split; [done|].
    by exists nodes, ids.
  - split; [lia|]. split; [|done]. intros _. split; [done|].
    by exists nodes, ids.
  - split; [lia|]. split; [|done]. intros _. split; [done|].
    by exists nodes, ids.
  - split; [lia|]. split; [done|]. by intros [_ (? & ? & ? & _)].
Qed.

(** X5. A run returns a list or an error, never both and never neither: the
    returned list is non-empty exactly when the error is nil.  And when the
    error is nil, the drain of every returned node succeeded and the drain
    updates issued in the run are those of the returned nodes, one each. *)
Theorem RunPreScaleInTasks_list_xor_error (P : Pkg) (si : ScaleIn)
    (sch : Scheduler) (ctx : Context) (req : ScaleInReq)
    (l : list NodeID) (err : option error) :
  value (RunPreScaleInTasks P si sch ctx req) = Returned (l, err) ->
  (l ≠ [] <-> err = None) /\
  (err = None ->
   allDrained si ctx {| Deadline := DrainDeadline req |} l /\
   drainCalls (trace (RunPreScaleInTasks P si sch ctx req)) ≡ₚ NomadID <$> l).
Proof.
  run_stages P si sch ctx req; intros [= <- <-]; try by (split; [split|]).
  split; [split; [done|]; intros _; by rewrite <- len_zero|]. intros _.
  split; [by apply drainNodes_nil in Hdrain|].
  rewrite !drainCalls_app, drainCalls_identifyTargets,
    drainCalls_getRemoteIDMap, drainCalls_filterBusyNodes,
    drainCalls_drainNodes. simpl.
  by rewrite app_nil_r, (completion_perm sch fl).
Qed.

Lemma RunPreScaleInTasks_list_xor_error_witness :
  drainCalls (trace (RunPreScaleInTasks samplePkg (healthy inventory3) lifo
                       background (request 2)))
  ≡ₚ ["n1"; "n2"].
Proof.
  refine (proj2 (proj2 (RunPreScaleInTasks_list_xor_error samplePkg
    (healthy inventory3) lifo background (request 2)
    [ {| NomadID := "n1"; RemoteID := "i-n1" |};
      {| NomadID := "n2"; RemoteID := "i-n2" |} ] None _) _));
    reflexivity.
Defined.

(** X6. The order in which the drain goroutines complete changes nothing but
    the order of the entries of the aggregate error: two runs that differ in
    the scheduling return the same list, and the same error or multi-errors
    with the same entries. *)
Theorem RunPreScaleInTasks_scheduler_independent (P : Pkg) (si : ScaleIn)
    (sch1 sch2 : Scheduler) (ctx : Context) (req : ScaleInReq) :
  match value (RunPreScaleInTasks P si sch1 ctx req),
        value (RunPreScaleInTasks P si sch2 ctx req) with
  | Returned (l1, e1), Returned (l2, e2) =>
      l1 = l2 /\
      (e1 = e2 \/
       exists es1 es2,
         e1 = Some (multiError es1) /\ e2 = Some (multiError es2) /\
         es1 ≡ₚ es2)
  | Panicked, Panicked => True
  | _, _ => False
  end.
Proof.
  unfold RunPreScaleInTasks.
  destruct (validate P req) as [verr|]; go_simpl; [by split; [|left]|].
  destruct (value (identifyTargets _ _ _ _ _)) as [[nodes [serr|]]|];
    go_simpl; [by split; [|left]| |done].
  destruct (value (getRemoteIDMap _ _ _ _)) as [ids [rerr|]]; go_simpl;
    [by split; [|left]|].
  destruct (value (filterBusyNodes si ids)) as [[fl ferr]|]; go_simpl;
    [|done].
  case_decide; go_simpl; [by split; [|left]|].
  rewrite !drainNodes_value.
  pose proof (drainFailures_completion si sch1 ctx
                {| Deadline := DrainDeadline req |} fl) as H1.
  pose proof (drainFailures_completion si sch2 ctx
                {| Deadline := DrainDeadline req |} fl) as H2.
  destruct (drainFailures _ _ _ (completion sch1 fl)) as [|e1 es1];
    destruct (drainFailures _ _ _ (completion sch2 fl)) as [|e2 es2];
    go_simpl.
  - by split; [|left].
  - rewrite <- H1 in H2. by apply Permutation_nil_r in H2.
  - rewrite <- H2 in H1. by apply Permutation_nil_r in H1.
  - split; [done|]. right. exists (e1 :: es1), (e2 :: es2).
    repeat split. by rewrite H1, H2.
Qed.





(** X8. With a remote provider that has no ID function, a run that got as
    far as selecting nodes ends there: it returns no node and the error
    naming the provider, and neither fetches a full record, nor consults the
    oracle, nor drains a node. *)
Theorem RunPreScaleInTasks_unknown_provider (P : Pkg) (si : ScaleIn)
    (sch : Scheduler) (ctx : Context) (req : ScaleInReq)
    (nodes : list NodeListStub) :
  validate P req = None ->
  value (identifyTargets P si (Num req) (ReqPoolIdentifier req)
           (ReqNodeIDStrategy req)) = Returned (nodes, None) ->
  idFuncMap P (ReqRemoteProvider req) = None ->
  value (RunPreScaleInTasks P si sch ctx req) =
    Returned ([], Some (errorString
      ("remote provider ID function not found: " +:+ ReqRemoteProvider req))) /\
  infoCalls (trace (RunPreScaleInTasks P si sch ctx req)) = [] /\
  dmsListCalls (trace (RunPreScaleInTasks P si sch ctx req)) = 0%nat /\
  drainCalls (trace (RunPreScaleInTasks P si sch ctx req)) = [].
Proof.
  intros Hvalid Hsel Hunknown.
  unfold RunPreScaleInTasks. rewrite Hvalid. go_simpl. rewrite Hsel. go_simpl.
  unfold getRemoteIDMap. rewrite Hunknown. go_simpl.
  rewrite ?app_nil_r, infoCalls_identifyTargets, dmsListCalls_identifyTargets,
    drainCalls_identifyTargets.
  done.
Qed.

Lemma RunPreScaleInTasks_unknown_provider_witness :
  value (RunPreScaleInTasks samplePkg (healthy inventory3) fifo background
           gcpRequest) =
  Returned ([], Some (errorString
    "remote provider ID function not found: gce_instance_id")).
Proof.
  refine (proj1 (RunPreScaleInTasks_unknown_provider samplePkg
    (healthy inventory3) fifo background gcpRequest [stub "n1" 1] _ _ _));
    reflexivity.
Defined.

(** X9. Only the drain stage acts on the cluster: selecting the targets,
    resolving their remote IDs and filtering the busy nodes issue no drain
    update and open no drain monitor, and the drain coordinator neither
    lists nodes, nor fetches a record, nor consults the oracle. *)
Theorem stages_effects (P : Pkg) (si : ScaleIn) (sch : Scheduler)
    (ctx : Context) (num : Z) (ident : PoolIdentifier)
    (strategy : NodeIDStrategy) (nodes : list NodeListStub)
    (provider : RemoteProvider) (ids : list NodeID) (deadline : Duration) :
  Forall isReadOnly (trace (identifyTargets P si num ident strategy)) /\
  Forall isReadOnly (trace (getRemoteIDMap P si nodes provider)) /\
  Forall isReadOnly (trace (filterBusyNodes si ids)) /\
  Forall isDrainEvent (trace (drainNodes si sch ctx deadline ids)).
Proof.
  repeat split.
  - eapply Forall_impl; [apply identifyTargets_events|].
    by intros [] [?|?].
  - eapply Forall_impl; [apply getRemoteIDMap_events|].
    by intros [] [[? ?]|?].
  - destruct (filterBusyNodes_events si ids) as (logs & -> & Hlogs).
    constructor; [done|]. eapply Forall_impl; [done|]. by intros [].
  - apply drainNodes_events.
Qed.

(** ** Selection: warnings and failures *)

Lemma warnings_app (t1 t2 : list Event) :
  warnings (t1 ++ t2) = warnings t1 ++ warnings t2.
Proof. apply omap_app. Qed.

Lemma warnings_selectionLog (l : list NodeListStub) :
  warnings (selectionLog <$> l) = [].
Proof. induction l as [|node l IH]; [done|]. exact IH. Qed.

(** X10. Asking for more nodes than the pool holds is no error: the selector
    returns every node of the pool and logs one warning carrying the count
    requested and the count available; a count the pool can serve logs no
    warning. *)
Theorem identifyTargets_degraded_selection (P : Pkg) (si : ScaleIn) (num : Z)
    (ident : PoolIdentifier) (strategy : NodeIDStrategy)
    (nodes pool : list NodeListStub) :
  Nodes_List (nomad si) = Ok nodes ->
  IdentifyNodes P ident nodes = (pool, None) ->
  filterOutNodeID pool (curNodeID si) ≠ [] ->
  strategy = IDStrategyNewestCreateIndex P ->
  - 2 ^ 63 < num < 2 ^ 63 ->
  let filteredNodes := filterOutNodeID pool (curNodeID si) in
  (num > len filteredNodes ->
   value (identifyTargets P si num ident strategy) =
     Returned (filteredNodes, None) /\
   warnings (trace (identifyTargets P si num ident strategy)) =
     [degradedWarning num (len filteredNodes)]) /\
  (num <= len filteredNodes ->
   warnings (trace (identifyTargets P si num ident strategy)) = []).
Proof.
  intros Hlist Hpool Hne Hstrat Hnum filteredNodes.
  pose proof (len_nonneg filteredNodes) as Hnn.
  split.
  - intros Hmore. split.
    + rewrite (identifyTargets_selected P si num ident strategy nodes pool)
        by done.
      fold filteredNodes. rewrite take_ge; [done|]. unfold len in *. lia.
    + unfold identifyTargets. rewrite Hlist. go_simpl. rewrite Hpool.
      fold filteredNodes.
      rewrite decide_False by (by rewrite len_zero).
      rewrite decide_True by done. rewrite decide_True by done. go_simpl.
      rewrite wrap64_small by lia.
      rewrite warnings_app, identifyTargets_loop_trace_take by lia.
      rewrite identifyTargets_loop_take by lia.
      by rewrite warnings_selectionLog.
  - intros Hless.
    unfold identifyTargets. rewrite Hlist. go_simpl. rewrite Hpool.
    fold filteredNodes.
    rewrite decide_False by (by rewrite len_zero).
    rewrite decide_True by done. rewrite decide_False by lia. go_simpl.
    rewrite wrap64_small by lia.
    rewrite warnings_app, identifyTargets_loop_trace_take by lia.
    rewrite identifyTargets_loop_take by lia.
    by rewrite warnings_selectionLog.
Qed.

Lemma identifyTargets_degraded_selection_witness :
  value (identifyTargets samplePkg (healthy inventory3) 7
           {| PoolIdentifierKey := IdentifierKeyClass; Value := "high-memory" |}
           "newest_create_index") = Returned (inventory3, None) /\
  warnings (trace (identifyTargets samplePkg (healthy inventory3) 7
           {| PoolIdentifierKey := IdentifierKeyClass; Value := "high-memory" |}
           "newest_create_index")) = [degradedWarning 7 3].
Proof.
  refine (proj1 (identifyTargets_degraded_selection samplePkg
    (healthy inventory3) 7
    {| PoolIdentifierKey := IdentifierKeyClass; Value := "high-memory" |}
    "newest_create_index" inventory3 inventory3 _ _ _ _ _) _);
    [reflexivity|reflexivity|discriminate|reflexivity|lia|reflexivity].
Defined.

(** X11. Once the nodes are listed, the selector fails exactly when the pool
    filter fails, or no node of the pool is left after the autoscaler's own
    node is taken out, or the strategy is not the supported one; whether it
    fails does not depend on the count. *)
Theorem identifyTargets_fails_iff (P : Pkg) (si : ScaleIn) (num : Z)
    (ident : PoolIdentifier) (strategy : NodeIDStrategy)
    (nodes pool : list NodeListStub) (perr : option error) :
  Nodes_List (nomad si) = Ok nodes ->
  IdentifyNodes P ident nodes = (pool, perr) ->
  (exists e, value (identifyTargets P si num ident strategy) =
               Returned ([], Some e)) <->
  (perr ≠ None \/ filterOutNodeID pool (curNodeID si) = [] \/
   strategy ≠ IDStrategyNewestCreateIndex P).
Proof.
  intros Hlist Hpool. split.
  - intros [e He].
    destruct perr as [perr|]; [by left|].
    destruct (decide (filterOutNodeID pool (curNodeID si) = [])) as [|Hne];
      [by right; left|].
    destruct (decide (strategy = IDStrategyNewestCreateIndex P)) as [Hs|];
      [|by right; right].
    rewrite (identifyTargets_value P si num ident strategy nodes pool) in He
      by done.
    by case_decide.
  - intros Hcases. unfold identifyTargets. rewrite Hlist. go_simpl.
    rewrite Hpool. destruct perr as [perr|]; go_simpl; [eauto|].
    destruct Hcases as [?|[Hnil|Hstrat]]; [done| |].
    + rewrite decide_True by (by rewrite len_zero). go_simpl. eauto.
    + case_decide; go_simpl; [eauto|].
      rewrite decide_False by done. go_simpl. eauto.
Qed.

Lemma identifyTargets_fails_iff_witness :
  exists e,
    value (identifyTargets samplePkg (healthyOn "n1" [stub "n1" 1]) 1
             {| PoolIdentifierKey := IdentifierKeyClass; Value := "high-memory" |}
             "newest_create_index") = Returned ([], Some e).
Proof.
  refine (proj2 (identifyTargets_fails_iff samplePkg
    (healthyOn "n1" [stub "n1" 1]) 1
    {| PoolIdentifierKey := IdentifierKeyClass; Value := "high-memory" |}
    "newest_create_index" [stub "n1" 1] [stub "n1" 1] None _ _) _);
    [reflexivity|reflexivity|].
  right. left. reflexivity.
Defined.

(** ** Draining one node *)

Lemma monitorNodeDrain_range_nil_iff ctx nodeID (ch : list MonitorMessage) :
  (value (monitorNodeDrain_range ctx nodeID ch)).1 = None <->
  Forall (fun m => Level m ≠ MonitorMsgLevelError) ch /\
  ctx_Err ctx nodeID = None.
Proof.
  induction ch as [|msg rest IH]; simpl.
  - split; [by intros ?; split|by intros [_ ?]].
  - rewrite Forall_cons.
    unfold MonitorMsgLevelInfo, MonitorMsgLevelWarn, MonitorMsgLevelError in *.
    repeat case_decide; go_simpl; try (rewrite IH; intuition congruence).
    split; [done|]. by intros [[? _] _].
Qed.

Lemma monitorCalls_monitorNodeDrain_range ctx nodeID (ch : list MonitorMessage) :
  monitorCalls (trace (monitorNodeDrain_range ctx nodeID ch)) = [].
Proof.
  apply (omap_nil_Forall _ _ _ (monitorNodeDrain_range_events ctx nodeID ch)).
  by intros [].
Qed.

(** X12. The drain of a node succeeds exactly when its drain update was
    accepted, its monitoring stream closed without a message of error level,
    and the context was not cancelled by then.  When the drain update is
    refused, the error says so and no monitor is opened; when it is
    accepted, exactly one monitor is opened, for that node. *)
Theorem drainNode_succeeds_iff (si : ScaleIn) (ctx : Context)
    (nodeID : string) (spec : DrainSpec) :
  (value (drainNode si ctx nodeID spec) = None <->
   exists lastIndex,
     Nodes_UpdateDrain (nomad si) nodeID spec = Ok lastIndex /\
     Forall (fun m => Level m ≠ MonitorMsgLevelError)
       (Nodes_MonitorDrain (nomad si) nodeID lastIndex) /\
     ctx_Err ctx nodeID = None) /\
  (forall err,
     Nodes_UpdateDrain (nomad si) nodeID spec = Err err ->
     value (drainNode si ctx nodeID spec) =
       Some (errorString ("failed to drain node: " +:+ Error_ err)) /\
     monitorCalls (trace (drainNode si ctx nodeID spec)) = []) /\
  (forall lastIndex,
     Nodes_UpdateDrain (nomad si) nodeID spec = Ok lastIndex ->
     monitorCalls (trace (drainNode si ctx nodeID spec)) = [nodeID]).
Proof.
  unfold drainNode. go_simpl.
  destruct (Nodes_UpdateDrain (nomad si) nodeID spec) as [lastIndex|err];
    go_simpl; split; [|split| |split]; try done.
  - unfold monitorNodeDrain. go_simpl.
    pose proof (monitorNodeDrain_range_nil_iff ctx nodeID
                  (Nodes_MonitorDrain (nomad si) nodeID lastIndex)) as Hiff.
    destruct (value (monitorNodeDrain_range _ _ _)).1 as [e|]; go_simpl.
    + split; [done|]. intros (idx & Hidx & Hq & Hc). injection Hidx as <-.
      discriminate (proj2 Hiff (conj Hq Hc)).
    + split; [|done]. intros _. exists lastIndex. split; [done|].
      by apply Hiff.
  - intros idx [= <-]. unfold monitorNodeDrain. go_simpl.
    change (monitorCalls (?e1 :: ?e2 :: EvMonitorDrain nodeID lastIndex :: ?t))
      with (nodeID :: monitorCalls t).
    unfold monitorCalls at 1. rewrite omap_app.
    fold (monitorCalls (trace (monitorNodeDrain_range ctx nodeID
            (Nodes_MonitorDrain (nomad si) nodeID lastIndex)))).
    rewrite monitorCalls_monitorNodeDrain_range.
    by destruct (value (monitorNodeDrain_range _ _ _)).1.
  - split; [done|]. by intros (? & ? & _).
  - intros e [= <-]. done.
Qed.

Lemma drainNode_succeeds_iff_witness :
  value (drainNode n2DrainFails background "n1" {| Deadline := 1 |}) = None.
Proof.
  refine (proj2 (proj1 (drainNode_succeeds_iff n2DrainFails background "n1"
    {| Deadline := 1 |})) _).
  exists 42. split; [reflexivity|]. split; [|reflexivity].
  repeat constructor; discriminate.
Defined.

(** ** Busy-node filter and self-node exclusion, once more *)

Lemma filterBusyNodes_loop_trace (nodesStatus : gmap string bool)
    (nodes out : list NodeID) :
  trace (filterBusyNodes_loop nodesStatus nodes out) =
  busyLog <$> filter (fun n => nodesStatus !! NomadID n = Some true) nodes.
Proof.
  revert out. induction nodes as [|node rest IH]; intros out; simpl; [done|].
  rewrite filter_cons.
  destruct (nodesStatus !! NomadID node) as [[|]|] eqn:Hst;
    go_simpl; rewrite IH; try case_decide; done.
Qed.

(** X13. The busy-node filter consults the oracle once, writes one log entry
    for each node it drops, in order, and filtering its own output again
    drops nothing more.  When the oracle cannot be reached, or the call
    panics, it logs nothing. *)
Theorem filterBusyNodes_logs_and_idempotent (si : ScaleIn)
    (nodes : list NodeID) :
  (forall client status,
     dms si = Some client -> Dms_List client = Returned (Ok status) ->
     trace (filterBusyNodes si nodes) =
       EvDmsList ::
       (busyLog <$> filter (fun n => Nodes status !! NomadID n = Some true) nodes)) /\
  (forall client err,
     dms si = Some client -> Dms_List client = Returned (Err err) ->
     trace (filterBusyNodes si nodes) = [EvDmsList]) /\
  (value (filterBusyNodes si nodes) = Panicked ->
   trace (filterBusyNodes si nodes) = [EvDmsList]) /\
  returnedList (value (filterBusyNodes si
                         (returnedList (value (filterBusyNodes si nodes))))) =
    returnedList (value (filterBusyNodes si nodes)).
Proof.
  split; [|split; [|split]].
  - intros client status Hdms Hok. unfold filterBusyNodes.
    rewrite Hdms, Hok. go_simpl.
    by rewrite filterBusyNodes_loop_trace, app_nil_r.
  - intros client err Hdms Herr. unfold filterBusyNodes.
    rewrite Hdms, Herr. by go_simpl.
  - intros [Hnil|(client & Hdms & Hpanic)]%filterBusyNodes_panics;
      unfold filterBusyNodes; rewrite ?Hnil, ?Hdms, ?Hpanic; by go_simpl.
  - destruct (filterBusyNodes_cases si nodes)
      as [Hp|[(client & err & Hdms & Herr & _)
             |(client & status & Hdms & Hok & _)]].
    + rewrite Hp. simpl.
      apply filterBusyNodes_panics in Hp.
      assert (value (filterBusyNodes si []) = Panicked) as ->; [|done].
      by apply filterBusyNodes_panics.
    + by rewrite !(filterBusyNodes_err _ _ _ _ Hdms Herr).
    + rewrite !(filterBusyNodes_ok _ _ _ _ Hdms Hok). simpl.
      rewrite list_filter_filter. apply list_filter_iff. tauto.
Qed.

Lemma filterBusyNodes_logs_and_idempotent_witness :
  trace (filterBusyNodes n1Busy threeNodes) =
  [EvDmsList; busyLog {| NomadID := "n1"; RemoteID := "i-n1" |}].
Proof.
  refine (proj1 (filterBusyNodes_logs_and_idempotent n1Busy threeNodes)
    busyDms {| Nodes := {[ "n1" := true; "n2" := false ]} |} _ _);
    reflexivity.
Defined.

(** X14. Excluding a non-empty ID leaves no node carrying it, the nodes
    dropped being exactly the nodes that carry it; and two exclusions can be
    done in either order. *)
Theorem filterOutNodeID_removes_all (n : list NodeListStub) (id id' : string) :
  (id ≠ "" ->
   (id ∉ (ID <$> filterOutNodeID n id)) /\
   (length (filterOutNodeID n id) +
    length (filter (fun node => ID node = id) n) = length n)%nat) /\
  filterOutNodeID (filterOutNodeID n id) id' =
    filterOutNodeID (filterOutNodeID n id') id.
Proof.
  split.
  - intros Hid. rewrite filterOutNodeID_filter, decide_False by done. split.
    + intros (node & Heq & Hin)%list_elem_of_fmap.
      by apply list_elem_of_filter in Hin as [? _].
    + induction n as [|node rest IH]; [done|].
      rewrite !filter_cons. repeat case_decide; simpl; try done; lia.
  - rewrite !filterOutNodeID_filter.
    repeat case_decide; try done.
    rewrite !list_filter_filter. apply list_filter_iff. tauto.
Qed.

Lemma filterOutNodeID_removes_all_witness :
  "n2" ∉ (ID <$> filterOutNodeID inventory3 "n2").
Proof.
  refine (proj1 (proj1 (filterOutNodeID_removes_all inventory3 "n2" "") _)).
  discriminate.
Defined.


(** * The DMS API client *)

(** ** Strings *)

Lemma prefix_nil_l (s : string) : String.prefix "" s = true.
Proof. by destruct s. Qed.

Lemma prefix_colon (c : Ascii.ascii) (rest : string) :
  String.prefix ":" (String c rest) = bool_decide (c = Ascii.ascii_of_nat 58).
Proof.
  change (String.prefix ":" (String c rest))
    with (if Ascii.ascii_dec (Ascii.ascii_of_nat 58) c
          then String.prefix "" rest else false).
  destruct (Ascii.ascii_dec (Ascii.ascii_of_nat 58) c) as [<-|Hne].
  - by rewrite prefix_nil_l.
  - rewrite bool_decide_eq_false_2; [done|]. intros ->. by apply Hne.
Qed.

Lemma prefix_colon_nil : String.prefix ":" "" = false.
Proof. done. Qed.

(** A string that contains a colon is cut in two at its first colon. *)
Lemma SplitN2_colon (s : string) :
  strings_Contains s ":" = true ->
  exists before after,
    strings_SplitN2 s ":" = [before; after] /\
    s = before +:+ ":" +:+ after /\
    strings_Contains before ":" = false.
Proof.
  induction s as [|c rest IH]; [done|].
  cbn [strings_Contains strings_SplitN2]. rewrite prefix_colon.
  case_bool_decide as Hc.
  - intros _. subst c. by exists "", rest.
  - simpl. intros (before & after & -> & -> & Hbefore)%IH.
    exists (String c before), after. repeat split.
    cbn [strings_Contains]. rewrite prefix_colon.
    by rewrite bool_decide_eq_false_2.
Qed.

(** Joining a colon-free name and any password with a colon, and cutting
    again, gives the two back. *)
Lemma SplitN2_colon_join (u p : string) :
  strings_Contains u ":" = false ->
  strings_Contains (u +:+ ":" +:+ p) ":" = true /\
  strings_SplitN2 (u +:+ ":" +:+ p) ":" = [u; p].
Proof.
  induction u as [|c u IH]; intros Hu.
  - change ("" +:+ ":" +:+ p) with (String (Ascii.ascii_of_nat 58) p).
    cbn [strings_Contains strings_SplitN2].
    rewrite prefix_colon, bool_decide_eq_true_2 by done. done.
  - cbn [strings_Contains] in Hu. rewrite prefix_colon in Hu.
    apply orb_false_elim in Hu as [Hc Hu]. destruct (IH Hu) as [IH1 IH2].
    change (String c u +:+ ":" +:+ p) with (String c (u +:+ ":" +:+ p)).
    cbn [strings_Contains strings_SplitN2]. rewrite prefix_colon, Hc, IH1, IH2.
    done.
Qed.

(** ** Basic-auth credentials *)

(** X15. Credentials written as a user name without colon, a colon and a
    password are read back as that user name and that password, whatever
    colons the password contains. *)
Theorem HTTPAuthFromString_round_trip (username password : string) :
  strings_Contains username ":" = false ->
  HTTPAuthFromString (username +:+ ":" +:+ password) =
  Returned (Some {| Username := username; Password := password |}).
Proof.
  intros Hu. destruct (SplitN2_colon_join username password Hu) as [Hc Hs].
  unfold HTTPAuthFromString. rewrite Hc, Hs.
  rewrite decide_False; [done|]. by destruct username.
Qed.

Lemma HTTPAuthFromString_round_trip_witness :
  HTTPAuthFromString "alice:s3:cret" =
  Returned (Some {| Username := "alice"; Password := "s3:cret" |}).
Proof.
  refine (HTTPAuthFromString_round_trip "alice" "s3:cret" _). reflexivity.
Defined.

(** X16. Reading credentials never panics and gives nil exactly for the
    empty string.  Otherwise the user name holds no colon; a string with a
    colon is its user name, a colon and its password, and a string without
    one is the user name, the password being empty. *)
Theorem HTTPAuthFromString_total (auth : string) :
  exists r,
    HTTPAuthFromString auth = Returned r /\
    (r = None <-> auth = "") /\
    (forall a, r = Some a ->
       strings_Contains (Username a) ":" = false /\
       if strings_Contains auth ":"
       then auth = Username a +:+ ":" +:+ Password a
       else auth = Username a /\ Password a = "").
Proof.
  unfold HTTPAuthFromString. case_decide as Hempty.
  - exists None. subst auth. repeat split; done.
  - destruct (strings_Contains auth ":") eqn:Hcontains.
    + destruct (SplitN2_colon auth Hcontains)
        as (before & after & -> & Heq & Hbefore).
      eexists. split; [done|]. split; [done|].
      by intros a [= <-].
    + eexists. split; [done|]. split; [done|].
      by intros a [= <-].
Qed.

(** ** Configuration from a map and from the environment *)

Ltac destruct_lookups :=
  repeat match goal with
         | |- context [match ?m !! ?k with Some _ => _ | None => _ end] =>
             destruct (m !! k)
         end.

(** X17. [DmsConfigFromMap] reads the nine keys it knows and nothing else:
    two maps that agree on these keys give the same configuration, whatever
    other entries they hold. *)
Theorem DmsConfigFromMap_only_known_keys (cfg1 cfg2 : gmap string string) :
  (forall k, k ∈ dmsConfigKeys -> cfg1 !! k = cfg2 !! k) ->
  DmsConfigFromMap cfg1 = DmsConfigFromMap cfg2.
Proof.
  intros Hagree. unfold DmsConfigFromMap.
  rewrite !(Hagree configKeyDmsAddress), !(Hagree configKeyDmsToken),
    !(Hagree configKeyDmsHTTPAuth), !(Hagree configKeyDmsCACert),
    !(Hagree configKeyDmsCAPath), !(Hagree configKeyDmsClientCert),
    !(Hagree configKeyDmsClientKey), !(Hagree configKeyDmsTLSServerName),
    !(Hagree configKeyDmsSkipVerify) by (unfold dmsConfigKeys; set_solver).
  done.
Qed.

Lemma DmsConfigFromMap_only_known_keys_witness :
  DmsConfigFromMap {[ "dms_token" := "secret"; "nomad_address" := "http://x" ]} =
  DmsConfigFromMap {[ "dms_token" := "secret" ]}.
Proof.
  refine (DmsConfigFromMap_only_known_keys _ _ _).
  intros k Hk. unfold dmsConfigKeys in Hk.
  repeat (apply elem_of_cons in Hk as [->|Hk]; [reflexivity|]).
  by apply elem_of_nil in Hk.
Defined.

Lemma strconv_ParseBool_true (str : string) :
  (strconv_ParseBool str).1 = true <-> str ∈ trueStrings.
Proof.
  unfold strconv_ParseBool, trueStrings.
  repeat case_bool_decide; simpl; split; try done.
Qed.

(** X18. [DmsConfigFromMap] never fails: it always returns a configuration
    that carries a TLS configuration and no HTTP client.  Certificate
    verification is switched off exactly when the skip-verify key holds one
    of the six spellings of true; any other value, a malformed one
    included, leaves verification on. *)
Theorem DmsConfigFromMap_skip_verify (cfg : gmap string string) :
  exists c t,
    DmsConfigFromMap cfg = Returned c /\
    ConfigTLS c = Some t /\
    ConfigHttpClient c = None /\
    (Insecure t = true <->
     exists v, cfg !! configKeyDmsSkipVerify = Some v /\ v ∈ trueStrings).
Proof.
  unfold DmsConfigFromMap.
  assert (forall o : option string,
            exists r, match o with
                      | Some httpAuth => HTTPAuthFromString httpAuth
                      | None => Returned None
                      end = Returned r) as Hauth.
  { intros [auth|]; [|by eexists].
    destruct (HTTPAuthFromString_total auth) as (r & -> & _). by eexists. }
  destruct (cfg !! configKeyDmsHTTPAuth) as [auth|].
  - destruct (Hauth (Some auth)) as [r ->]. eexists _, _.
    split; [done|]. split; [done|]. split; [done|].
    destruct (cfg !! configKeyDmsSkipVerify) as [v|]; destruct_lookups; simpl.
    all: try (rewrite strconv_ParseBool_true; split;
              [intros ?; by exists v|by intros (? & [= <-] & ?)]).
    all: split; [done|by intros (? & ? & _)].
  - eexists _, _.
    split; [done|]. split; [done|]. split; [done|].
    destruct (cfg !! configKeyDmsSkipVerify) as [v|]; destruct_lookups; simpl.
    all: try (rewrite strconv_ParseBool_true; split;
              [intros ?; by exists v|by intros (? & [= <-] & ?)]).
    all: split; [done|by intros (? & ? & _)].
Qed.

Lemma strconv_ParseBool_error (str : string) (b : bool) (e : error) :
  strconv_ParseBool str = (b, Some e) -> b = false.
Proof.
  unfold strconv_ParseBool. repeat case_bool_decide; by intros [= <- _].
Qed.

Lemma strconv_ParseBool_empty : (strconv_ParseBool "").1 = false.
Proof. done. Qed.

Lemma HTTPAuthFromString_nonempty (auth : string) :
  auth ≠ "" ->
  HTTPAuthFromString auth =
  if strings_Contains auth ":" then
    match index (strings_SplitN2 auth ":") 0 with
    | Returned username =>
        match index (strings_SplitN2 auth ":") 1 with
        | Returned password =>
            Returned (Some {| Username := username; Password := password |})
        | Panicked => Panicked
        end
    | Panicked => Panicked
    end
  else Returned (Some {| Username := auth; Password := "" |}).
Proof. intros Hne. unfold HTTPAuthFromString. by rewrite decide_False. Qed.

Lemma unset_CACert (v : string) (t : TLSConfig) :
  CACert t = "" ->
  (if decide (v ≠ "") then setCACert v t else t) = setCACert v t.
Proof.
  intros Ht. case_decide as Hv; [done|].
  destruct t. simpl in *. by subst.
Qed.

Lemma unset_CAPath (v : string) (t : TLSConfig) :
  CAPath t = "" ->
  (if decide (v ≠ "") then setCAPath v t else t) = setCAPath v t.
Proof.
  intros Ht. case_decide as Hv; [done|].
  destruct t. simpl in *. by subst.
Qed.

Lemma unset_ClientCert (v : string) (t : TLSConfig) :
  ClientCert t = "" ->
  (if decide (v ≠ "") then setClientCert v t else t) = setClientCert v t.
Proof.
  intros Ht. case_decide as Hv; [done|].
  destruct t. simpl in *. by subst.
Qed.

Lemma unset_ClientKey (v : string) (t : TLSConfig) :
  ClientKey t = "" ->
  (if decide (v ≠ "") then setClientKey v t else t) = setClientKey v t.
Proof.
  intros Ht. case_decide as Hv; [done|].
  destruct t. simpl in *. by subst.
Qed.

Lemma unset_TLSServerName (v : string) (t : TLSConfig) :
  TLSServerName t = "" ->
  (if decide (v ≠ "") then setTLSServerName v t else t) = setTLSServerName v t.
Proof.
  intros Ht. case_decide as Hv; [done|].
  destruct t. simpl in *. by subst.
Qed.

Lemma unset_Insecure (v : string) (t : TLSConfig) :
  Insecure t = false ->
  (if decide (v ≠ "") then
     match strconv_ParseBool v with
     | (insecure, None) => setInsecure insecure t
     | (_, Some _) => t
     end
   else t) = setInsecure (strconv_ParseBool v).1 t.
Proof.
  intros Ht. case_decide as Hv.
  - destruct (strconv_ParseBool v) as [insecure [perr|]] eqn:Hparse; [|done].
    apply strconv_ParseBool_error in Hparse as ->.
    destruct t. simpl in *. by subst.
  - subst v. rewrite strconv_ParseBool_empty.
    destruct t. simpl in *. by subst.
Qed.

(** X19. The configuration read from the environment is the configuration
    [DmsConfigFromMap] reads from the same values under its own keys, but
    for the address, which falls back to http://127.0.0.1:4646 when
    DMS_ADDR is not set: credentials, token, certificate paths, server name
    and the skip-verify flag are read alike on both paths, an unset variable
    being the same as an empty value. *)
Theorem DefaultConfig_agrees_with_DmsConfigFromMap (getenv : string -> string) :
  DefaultConfig getenv =
  match DmsConfigFromMap (envAsMap getenv) with
  | Returned c =>
      Returned (withAddress
                  (if decide (getenv "DMS_ADDR" = "") then "http://127.0.0.1:4646"
                   else getenv "DMS_ADDR") c)
  | Panicked => Panicked
  end.
Proof.
  unfold DefaultConfig, DmsConfigFromMap.
  change (envAsMap getenv !! configKeyDmsAddress) with (Some (getenv "DMS_ADDR")).
  change (envAsMap getenv !! configKeyDmsToken) with (Some (getenv "DMS_TOKEN")).
  change (envAsMap getenv !! configKeyDmsHTTPAuth)
    with (Some (getenv "DMS_HTTP_AUTH")).
  change (envAsMap getenv !! configKeyDmsCACert) with (Some (getenv "DMS_CACERT")).
  change (envAsMap getenv !! configKeyDmsCAPath) with (Some (getenv "DMS_CAPATH")).
  change (envAsMap getenv !! configKeyDmsClientCert)
    with (Some (getenv "DMS_CLIENT_CERT")).
  change (envAsMap getenv !! configKeyDmsClientKey)
    with (Some (getenv "DMS_CLIENT_KEY")).
  change (envAsMap getenv !! configKeyDmsTLSServerName)
    with (Some (getenv "DMS_TLS_SERVER_NAME")).
  change (envAsMap getenv !! configKeyDmsSkipVerify)
    with (Some (getenv "DMS_SKIP_VERIFY")).
  cbv zeta.
  rewrite unset_CACert, unset_CAPath, unset_ClientCert, unset_ClientKey,
    unset_TLSServerName, unset_Insecure by done.
  set (tls := setInsecure _ _).
  assert ((if decide (getenv "DMS_TOKEN" ≠ "") then getenv "DMS_TOKEN" else "")
          = getenv "DMS_TOKEN") as ->.
  { by case_decide as Hv. }
  assert ((if decide (getenv "DMS_ADDR" ≠ "") then getenv "DMS_ADDR"
           else "http://127.0.0.1:4646")
          = (if decide (getenv "DMS_ADDR" = "") then "http://127.0.0.1:4646"
             else getenv "DMS_ADDR")) as ->.
  { by repeat case_decide. }
  destruct (decide (getenv "DMS_HTTP_AUTH" ≠ "")) as [Hauth|Hauth].
  - rewrite (HTTPAuthFromString_nonempty _ Hauth).
    destruct (strings_Contains (getenv "DMS_HTTP_AUTH") ":");
      [destruct (index (strings_SplitN2 (getenv "DMS_HTTP_AUTH") ":") 0);
         [destruct (index (strings_SplitN2 (getenv "DMS_HTTP_AUTH") ":") 1)|]|];
      done.
  - apply dec_stable in Hauth. rewrite Hauth. reflexivity.
Qed.

(** ** Durations in requests *)

Lemma string_app_length (s t : string) :
  String.length (s +:+ t) = (String.length s + String.length t)%nat.
Proof. induction s as [|c s IH]; [done|]. simpl. by rewrite IH. Qed.

Lemma string_app_inj_r (s1 s2 t : string) : s1 +:+ t = s2 +:+ t -> s1 = s2.
Proof.
  revert s2. induction s1 as [|c s1 IH]; intros [|c2 s2] Heq; simpl in *.
  - done.
  - apply (f_equal String.length) in Heq.
    rewrite ?string_app_length in Heq. simpl in Heq.
    rewrite ?string_app_length in Heq. lia.
  - apply (f_equal String.length) in Heq.
    rewrite ?string_app_length in Heq. simpl in Heq.
    rewrite ?string_app_length in Heq. lia.
  - injection Heq as -> Heq. f_equal. by apply IH.
Qed.

(** X20. A duration is sent as its whole number of milliseconds, truncated
    toward zero: two durations give the same string exactly when they have
    the same whole number of milliseconds, and every duration strictly
    between minus one and one millisecond is sent as 0ms. *)
Theorem durToMsec_truncates (d1 d2 : Duration) :
  (durToMsec d1 = durToMsec d2 <-> d1 ÷ Millisecond = d2 ÷ Millisecond) /\
  (- Millisecond < d1 < Millisecond -> durToMsec d1 = "0ms").
Proof.
  unfold durToMsec. split.
  - split; [|by intros ->].
    intros Heq. apply string_app_inj_r in Heq. by apply (inj pretty) in Heq.
  - intros Hsmall. replace (d1 ÷ Millisecond) with 0; [done|].
    unfold Millisecond in *. symmetry.
    destruct (decide (0 <= d1)) as [Hpos|Hneg].
    + apply Z.quot_small. lia.
    + rewrite <- (Z.opp_involutive d1), Z.quot_opp_l by lia.
      rewrite Z.quot_small by lia. done.
Qed.

Lemma durToMsec_truncates_witness : durToMsec (-999999) = "0ms".
Proof.
  refine (proj2 (durToMsec_truncates (-999999) 0) _).
  unfold Millisecond. lia.
Defined.

(** ** Building a client *)

Lemma ConfigureTLS_pairing_error (L : Libs) (client : HttpClient)
    (tlsConfig : TLSConfig) :
  ((ClientCert tlsConfig ≠ "" /\ ClientKey tlsConfig = "") \/
   (ClientCert tlsConfig = "" /\ ClientKey tlsConfig ≠ "") \/
   (ClientCert tlsConfig = "" /\ ClientKey tlsConfig = "" /\
    ((ClientCertPEM tlsConfig ≠ "" /\ ClientKeyPEM tlsConfig = "") \/
     (ClientCertPEM tlsConfig = "" /\ ClientKeyPEM tlsConfig ≠ "")))) ->
  ConfigureTLS L (Some client) (Some tlsConfig) =
    Returned (Some client,
              Some (errorString "Both client cert and client key must be provided")).
Proof.
  intros Hhalf. unfold ConfigureTLS, clientCertificate.
  destruct Hhalf as [[H1 H2]|[[H1 H2]|(H1 & H2 & [[H3 H4]|[H3 H4]])]];
    rewrite ?H1, ?H2, ?H3, ?H4; repeat case_decide; try done;
    exfalso; intuition congruence.
Qed.

(** X21. A client certificate without its key, or a key without its
    certificate, is refused before the HTTP client is touched, whether the
    two are given as files or as PEM blocks; files come first, so that PEM
    blocks never stand in for a missing file.  Without a TLS configuration
    nothing is done at all, even to a nil client. *)
Theorem ConfigureTLS_half_pair (L : Libs) (client : HttpClient)
    (tlsConfig : TLSConfig) :
  ((ClientCert tlsConfig ≠ "" /\ ClientKey tlsConfig = "") \/
   (ClientCert tlsConfig = "" /\ ClientKey tlsConfig ≠ "") \/
   (ClientCert tlsConfig = "" /\ ClientKey tlsConfig = "" /\
    ((ClientCertPEM tlsConfig ≠ "" /\ ClientKeyPEM tlsConfig = "") \/
     (ClientCertPEM tlsConfig = "" /\ ClientKeyPEM tlsConfig ≠ "")))) ->
  ConfigureTLS L (Some client) (Some tlsConfig) =
    Returned (Some client,
              Some (errorString "Both client cert and client key must be provided")) /\
  forall any, ConfigureTLS L any None = Returned (any, None).
Proof.
  intros Hhalf. split; [by apply ConfigureTLS_pairing_error|done].
Qed.

Lemma ConfigureTLS_half_pair_witness :
  ConfigureTLS sampleLibs (Some sampleHttpClient) (Some loneCert) =
  Returned (Some sampleHttpClient,
            Some (errorString "Both client cert and client key must be provided")).
Proof.
  refine (proj1 (ConfigureTLS_half_pair sampleLibs sampleHttpClient loneCert _)).
  left. split; [discriminate|reflexivity].
Defined.

Lemma DefaultConfig_address (getenv : string -> string) :
  exists c,
    DefaultConfig getenv = Returned c /\
    Address c = if decide (getenv "DMS_ADDR" = "") then "http://127.0.0.1:4646"
                else getenv "DMS_ADDR".
Proof.
  rewrite DefaultConfig_agrees_with_DmsConfigFromMap.
  destruct (DmsConfigFromMap_skip_verify (envAsMap getenv)) as (c & t & -> & _).
  by eexists.
Qed.

(** X22. A configuration that brings its own HTTP client is taken as it is:
    its TLS settings are never looked at, so that even a client certificate
    without key does not fail the construction; the same configuration
    without an HTTP client is refused. *)
Theorem NewDmsApiClient_own_client (L : Libs) (getenv : string -> string)
    (config : DmsApiConfig) (h : HttpClient) :
  Address config ≠ "" ->
  url_Parse L (Address config) = None ->
  ConfigHttpClient config = Some h ->
  NewDmsApiClient L getenv config =
    Returned ((Some {| httpClient := Some h; config := config |}, None), config) /\
  forall tlsConfig transport,
    ConfigTLS config = Some tlsConfig ->
    ClientCert tlsConfig ≠ "" -> ClientKey tlsConfig = "" ->
    Transport (cleanhttp_DefaultClient L) = Some (HttpTransport transport) ->
    NewDmsApiClient L getenv
      {| Address := Address config; SecretID := SecretID config;
         ConfigHttpClient := None; HttpAuth := HttpAuth config;
         WaitTime := WaitTime config; ConfigTLS := ConfigTLS config |} =
    Returned ((None,
               Some (errorString "Both client cert and client key must be provided")),
              {| Address := Address config; SecretID := SecretID config;
                 ConfigHttpClient := None; HttpAuth := HttpAuth config;
                 WaitTime := WaitTime config; ConfigTLS := ConfigTLS config |}).
Proof.
  intros Haddr Hparse Hclient.
  destruct (DefaultConfig_address getenv) as (defConfig & Hdef & _).
  split.
  - unfold NewDmsApiClient. rewrite Hdef, decide_False by done.
    rewrite Hparse, Hclient. done.
  - intros tlsConfig transport Htls Hcert Hkey Htransport.
    unfold NewDmsApiClient. rewrite Hdef. simpl.
    rewrite decide_False by done. rewrite Hparse.
    unfold defaultHttpClient. rewrite Htransport, Htls.
    rewrite (ConfigureTLS_pairing_error L _ tlsConfig
               (or_introl (conj Hcert Hkey))).
    done.
Qed.

Lemma NewDmsApiClient_own_client_witness :
  NewDmsApiClient sampleLibs sampleEnv sampleConfig =
  Returned ((Some sampleClient, None), sampleConfig).
Proof.
  refine (proj1 (NewDmsApiClient_own_client sampleLibs sampleEnv sampleConfig
    sampleHttpClient _ _ _)); [discriminate|reflexivity|reflexivity].
Defined.

Lemma NewDmsApiClient_filled (L : Libs) (getenv : string -> string)
    (config : DmsApiConfig) :
  Address config = "" ->
  let filled :=
    withAddress (if decide (getenv "DMS_ADDR" = "") then "http://127.0.0.1:4646"
                 else getenv "DMS_ADDR") config in
  NewDmsApiClient L getenv config =
  match ConfigHttpClient config with
  | Some h => Returned ((Some {| httpClient := Some h; config := filled |}, None),
                        filled)
  | None =>
      match defaultHttpClient L with
      | Panicked => Panicked
      | Returned h =>
          match ConfigureTLS L (Some h) (ConfigTLS config) with
          | Panicked => Panicked
          | Returned (_, Some err) => Returned ((None, Some err), filled)
          | Returned (h, None) =>
              Returned ((Some {| httpClient := h; config := filled |}, None),
                        filled)
          end
      end
  end.
Proof.
  intros Haddr filled.
  destruct (DefaultConfig_address getenv) as (defConfig & Hdef & Hdefaddr).
  unfold NewDmsApiClient. rewrite Hdef, decide_True by done.
  simpl. rewrite Hdefaddr. done.
Qed.

(** X23. A configuration without address gets the address of the default
    configuration, DMS_ADDR when set and http://127.0.0.1:4646 otherwise,
    whether or not it brings an HTTP client: that address is not parsed,
    it is written back into the configuration of the caller whenever the
    call returns, also with an error, and it is the address of the client
    that is built. *)
Theorem NewDmsApiClient_empty_address (L : Libs) (getenv : string -> string)
    (dmsCfg : DmsApiConfig) :
  Address dmsCfg = "" ->
  let address := if decide (getenv "DMS_ADDR" = "") then "http://127.0.0.1:4646"
                 else getenv "DMS_ADDR" in
  (forall r cfg',
     NewDmsApiClient L getenv dmsCfg = Returned (r, cfg') ->
     cfg' = withAddress address dmsCfg /\
     forall c, r.1 = Some c -> config c = withAddress address dmsCfg) /\
  (forall parse,
     NewDmsApiClient (withParser parse L) getenv dmsCfg =
     NewDmsApiClient L getenv dmsCfg) /\
  (forall h, ConfigHttpClient dmsCfg = Some h ->
     NewDmsApiClient L getenv dmsCfg =
     Returned ((Some {| httpClient := Some h;
                        config := withAddress address dmsCfg |}, None),
               withAddress address dmsCfg)) /\
  (NewDmsApiClient L getenv dmsCfg = Panicked <->
   ConfigHttpClient dmsCfg = None /\
   (defaultHttpClient L = Panicked \/
    exists h, defaultHttpClient L = Returned h /\
      ConfigureTLS L (Some h) (ConfigTLS dmsCfg) = Panicked)).
Proof.
  intros Haddr address. split; [|split; [|split]].
  - intros r cfg'. rewrite NewDmsApiClient_filled by done. fold address.
    destruct (ConfigHttpClient dmsCfg) as [h|].
    { intros [= <- <-]. split; [done|]. by intros c [= <-]. }
    destruct (defaultHttpClient L) as [h|]; [|done].
    destruct (ConfigureTLS L (Some h) (ConfigTLS dmsCfg))
      as [[h' [err|]]|]; [| |done].
    + intros [= <- <-]. by split.
    + intros [= <- <-]. split; [done|]. by intros c [= <-].
  - intros parse. by rewrite !NewDmsApiClient_filled by done.
  - intros h Hclient. rewrite NewDmsApiClient_filled by done.
    by rewrite Hclient.
  - rewrite NewDmsApiClient_filled by done.
    destruct (ConfigHttpClient dmsCfg) as [h|].
    { split; [done|]. by intros [? _]. }
    destruct (defaultHttpClient L) as [h|].
    + destruct (ConfigureTLS L (Some h) (ConfigTLS dmsCfg))
        as [[h' [err|]]|] eqn:Htls.
      * split; [done|]. intros [_ [?|(? & [= <-] & ?)]]; congruence.
      * split; [done|]. intros [_ [?|(? & [= <-] & ?)]]; congruence.
      * split; [|done]. intros _. split; [done|]. right. eauto.
    + split; [|done]. intros _. split; [done|]. by left.
Qed.

Lemma NewDmsApiClient_empty_address_witness :
  NewDmsApiClient
    (withParser (fun _ => Some (errorString "missing protocol scheme")) sampleLibs)
    sampleEnv bareConfig =
  NewDmsApiClient sampleLibs sampleEnv bareConfig.
Proof.
  refine (proj1 (proj2 (NewDmsApiClient_empty_address sampleLibs sampleEnv
    bareConfig _)) _).
  reflexivity.
Defined.




(** ** Queries *)

(** X25. Closing a [multiCloser] closes its closers in order and stops at the
    first that fails: the error is that closer's, and the closers after it
    are not closed.  It reports no error exactly when every closer was
    closed without one. *)
Theorem multiCloser_Close_stops_at_first_error (X : Exchange)
    (closers : list Closer) :
  (multiCloser_Close X closers).2 `prefix_of` closers /\
  ((multiCloser_Close X closers).1 = None <->
   Forall (fun c => Close_err X c = None) closers /\
   (multiCloser_Close X closers).2 = closers) /\
  (forall err, (multiCloser_Close X closers).1 = Some err ->
     exists pre c post,
       closers = pre ++ c :: post /\
       Forall (fun c => Close_err X c = None) pre /\
       Close_err X c = Some err /\
       (multiCloser_Close X closers).2 = pre ++ [c]).
Proof.
  induction closers as [|c rest (IHp & IHn & IHe)]; simpl.
  - repeat split; done.
  - destruct (Close_err X c) as [cerr|] eqn:Hc; simpl.
    + split; [by apply prefix_cons, prefix_nil|]. split.
      * split; [done|]. intros [Hall _]. apply Forall_cons in Hall as [? _].
        congruence.
      * intros err [= <-]. by exists [], c, rest.
    + destruct (multiCloser_Close X rest) as [e closed] eqn:Hrest. simpl in *.
      split; [by apply prefix_cons|]. split.
      * rewrite IHn, Forall_cons. split.
        -- intros [Hall ->]. by repeat split.
        -- intros [[_ Hall] [= Heq]]. by split.
      * intros err Herr.
        destruct (IHe err Herr) as (pre & c' & post & -> & Hpre & Hc' & ->).
        exists (c :: pre), c', post. repeat split; try done.
        by constructor.
Qed.

Lemma multiCloser_Close_stops_at_first_error_witness :
  (multiCloser_Close (sampleExchange (Some (errorString "gzip: invalid checksum")))
     [GzipReaderCloser; RespBodyCloser]).2 = [GzipReaderCloser].
Proof.
  destruct (proj2 (proj2 (multiCloser_Close_stops_at_first_error
    (sampleExchange (Some (errorString "gzip: invalid checksum")))
    [GzipReaderCloser; RespBodyCloser])) _ eq_refl)
    as (pre & c & post & Hsplit & _ & _ & Hclosed).
  exact eq_refl.
Defined.

(** What a query closes: the body of the response it got, once, unless the
    gzip reader could not be set up. *)
Lemma query_closed (L : Libs) (c : option ApiClient) (endpoint : string)
    (X : Exchange) :
  (query L c endpoint X).2 =
  match newRequest L c endpoint, c with
  | Returned None, Some client =>
      match toHTTP_err X, httpClient client, (Do_result X).1 with
      | None, Some _, Some resp =>
          match bodyOf resp, gzip_NewReader_err X with
          | GzipBody, Some _ => []
          | body, _ => (Body_Close X body).2
          end
      | _, _, _ => []
      end
  | _, _ => []
  end.
Proof.
  unfold query.
  destruct (newRequest L c endpoint) as [[nerr|]|]; [done| |done].
  destruct c as [client|]; [|done].
  unfold doRequest, requireOK, bodyOf.
  destruct (toHTTP_err X); [done|].
  destruct (httpClient client) as [h|]; [|done].
  destruct (Do_result X) as [[resp|] [derr|]]; simpl; try done.
  - destruct (Header resp) as [header|]; [case_decide|];
      try destruct (gzip_NewReader_err X); simpl; try done.
  - destruct (Header resp) as [header|]; [case_decide|];
      try destruct (gzip_NewReader_err X); simpl; try done;
      case_decide; simpl; by rewrite ?app_nil_r.
Qed.

Lemma bodyOf_gzip (resp : Response) : bodyOf resp = GzipBody <-> isGzip resp.
Proof.
  unfold bodyOf, isGzip. destruct (Header resp) as [header|].
  - case_decide; split; try done; [by exists header|].
    by intros (h & [= <-] & ?).
  - split; [done|]. by intros (? & ? & _).
Qed.

(** X26. A query never closes the body of a response twice.  It closes it
    once whenever it got a response, but for two cases in which the body is
    left open: when the response is gzip-compressed and the gzip reader
    cannot be set up, and when closing the gzip reader fails. *)
Theorem query_closes_body (L : Libs) (c : option ApiClient)
    (endpoint : string) (X : Exchange) :
  (length (filter (fun c => c = RespBodyCloser) (query L c endpoint X).2)
     <= 1)%nat /\
  (RespBodyCloser ∈ (query L c endpoint X).2 <->
   newRequest L c endpoint = Returned None /\ toHTTP_err X = None /\
   (exists client h, c = Some client /\ httpClient client = Some h) /\
   exists resp,
     (Do_result X).1 = Some resp /\
     (isGzip resp ->
      gzip_NewReader_err X = None /\ Close_err X GzipReaderCloser = None)).
Proof.
  rewrite query_closed.
  destruct (newRequest L c endpoint) as [[nerr|]|];
    [split; [simpl; lia|]; split; [by intros ?%elem_of_nil|by intros [? _]]
    |
    |split; [simpl; lia|]; split; [by intros ?%elem_of_nil|by intros [? _]]].
  destruct c as [client|];
    [|split; [simpl; lia|]; split;
      [by intros ?%elem_of_nil|by intros (_ & _ & (? & ? & ? & _) & _)]].
  destruct (toHTTP_err X) as [terr|];
    [split; [simpl; lia|]; split; [by intros ?%elem_of_nil|by intros (_ & ? & _)]|].
  destruct (httpClient client) as [h|] eqn:Hh;
    [|split; [simpl; lia|]; split;
      [by intros ?%elem_of_nil
      |intros (_ & _ & (? & ? & [= <-] & ?) & _); congruence]].
  assert (exists client' h', Some client = Some client' /\
            httpClient client' = Some h') as Hclient by eauto.
  destruct (Do_result X).1 as [resp|];
    [|split; [simpl; lia|]; split;
      [by intros ?%elem_of_nil|by intros (_ & _ & _ & ? & ? & _)]].
  pose proof (bodyOf_gzip resp) as Hgzip.
  destruct (bodyOf resp); simpl.
  - split; [simpl; lia|]. split; [|intros _; apply list_elem_of_here].
    intros _. repeat split; [done|]. exists resp. split; [done|].
    intros Hg. by apply Hgzip in Hg.
  - destruct (gzip_NewReader_err X) as [gerr|]; simpl.
    + split; [lia|]. split; [by intros ?%elem_of_nil|].
      intros (_ & _ & _ & r & [= <-] & Hg).
      by destruct (Hg (proj1 Hgzip eq_refl)).
    + destruct (Close_err X GzipReaderCloser) as [cerr|]; simpl.
      * split; [lia|]. split.
        -- intros Hin. apply list_elem_of_singleton in Hin. done.
        -- intros (_ & _ & _ & r & [= <-] & Hg).
           by destruct (Hg (proj1 Hgzip eq_refl)).
      * destruct (Close_err X RespBodyCloser); simpl.
        all: split; [lia|]; split;
          [intros _; repeat split; [done|]; by exists resp
          |intros _; apply list_elem_of_further, list_elem_of_here].
Qed.

(** What listing the nodes returns, case by case. *)
Lemma DmsList_value (L : Libs) (c : option ApiClient) (X : Exchange) :
  (DmsList L c X).1 =
  match c with
  | None => Panicked
  | Some client =>
  match url_Parse L "/v1/nodes" with
  | Some e => Returned (Err e)
  | None =>
  match url_Parse L (Address (config client)) with
  | Some _ => Panicked
  | None =>
      match toHTTP_err X with
      | Some e => Returned (Err e)
      | None =>
      match httpClient client with
      | None => Panicked
      | Some _ =>
          match Do_result X with
          | (None, None) => Panicked
          | (None, Some e) => Returned (Err e)
          | (Some resp, derr) =>
              match bodyOf resp, gzip_NewReader_err X with
              | GzipBody, Some g => Returned (Err g)
              | body, _ =>
                  match derr with
                  | Some e => Returned (Err e)
                  | None =>
                      if decide (StatusCode resp ≠ 200) then
                        Returned (Err (errorString
                          ("Unexpected response code: " +:+
                           pretty (StatusCode resp) +:+
                           " (" +:+ io_Copy X body +:+ ")")))
                      else Returned (decodeBody X resp body)
                  end
              end
          end
      end
      end
  end
  end
  end.
Proof.
  unfold DmsList, query, newRequest.
  destruct c as [client|]; [|done].
  destruct (url_Parse L "/v1/nodes"); [done|].
  destruct (url_Parse L (Address (config client))); [done|].
  unfold doRequest, requireOK, bodyOf.
  destruct (toHTTP_err X); [done|].
  destruct (httpClient client); [|done].
  destruct (Do_result X) as [[resp|] [derr|]]; simpl; try done.
  - destruct (Header resp) as [header|]; [case_decide|];
      try destruct (gzip_NewReader_err X); simpl; done.
  - destruct (Header resp) as [header|]; [case_decide|];
      try destruct (gzip_NewReader_err X); simpl; try done;
      case_decide; simpl; try done;
      by destruct (decodeBody X resp _).
Qed.

(** X27. Listing the nodes of the DMS service succeeds exactly when the
    client and its HTTP client are not nil, the path and the address of the
    client parse, the request could be made, the service answered without
    transport error with status 200 and a body that is not announced empty,
    the gzip reader could be set up when the body is compressed, and the
    body decodes; the nodes are then the decoded ones.  It panics exactly
    when the client is nil or, the path being parsed, the address of the
    client does not parse, or the request was made and there is no HTTP
    client or the HTTP client hands back neither a response nor an error. *)
Theorem DmsList_succeeds_iff (L : Libs) (c : option ApiClient) (X : Exchange)
    (nodes : DmsNodes) :
  ((DmsList L c X).1 = Returned (Ok nodes) <->
   exists client h resp,
     c = Some client /\ httpClient client = Some h /\
     url_Parse L "/v1/nodes" = None /\
     url_Parse L (Address (config client)) = None /\
     toHTTP_err X = None /\
     Do_result X = (Some resp, None) /\
     StatusCode resp = 200 /\
     ContentLength resp ≠ 0 /\
     (isGzip resp -> gzip_NewReader_err X = None) /\
     json_Decode X (bodyOf resp) = Ok nodes) /\
  ((DmsList L c X).1 = Panicked <->
   c = None \/
   exists client,
     c = Some client /\
     url_Parse L "/v1/nodes" = None /\
     (url_Parse L (Address (config client)) ≠ None \/
      toHTTP_err X = None /\
      (httpClient client = None \/ Do_result X = (None, None)))).
Proof.
  rewrite DmsList_value.
  destruct c as [client|].
  2: { split; [split; [done|by intros (? & ? & ? & ? & _)]|].
       split; [by left|done]. }
  destruct (url_Parse L "/v1/nodes") as [perr|] eqn:Hpath.
  { split; (split; [done|]).
    - by intros (? & ? & ? & _ & _ & ? & _).
    - by intros [?|(? & _ & ? & _)]. }
  destruct (url_Parse L (Address (config client))) as [aerr|] eqn:Haddr.
  { split; [split; [done|]|].
    - intros (? & ? & ? & [= <-] & _ & _ & ? & _). congruence.
    - split; [|done]. intros _. right. exists client.
      repeat split. left. congruence. }
  destruct (toHTTP_err X) as [terr|] eqn:Hhttp.
  { split; (split; [done|]).
    - by intros (? & ? & ? & _ & _ & _ & _ & ? & _).
    - intros [?|(? & [= <-] & _ & [?|[? _]])]; done. }
  destruct (httpClient client) as [h|] eqn:Hh.
  2: { split; [split; [done|]|].
       - intros (? & ? & ? & [= <-] & ? & _). congruence.
       - split; [|done]. intros _. right. exists client.
         repeat split. right. split; [done|by left]. }
  destruct (Do_result X) as [[resp|] [derr|]].
  - split; [split|split].
    + by destruct (bodyOf resp), (gzip_NewReader_err X).
    + by intros (? & ? & ? & _ & _ & _ & _ & _ & ? & _).
    + by destruct (bodyOf resp), (gzip_NewReader_err X).
    + intros [?|(? & [= <-] & _ & [?|(_ & [?|?])])]; congruence.
  - pose proof (bodyOf_gzip resp) as Hgzip.
    split; [split|split].
    + intros Hval. exists client, h, resp. repeat split; try done.
      all: unfold decodeBody in Hval;
        destruct (bodyOf resp) eqn:Hbody;
        destruct (gzip_NewReader_err X) as [gerr|] eqn:Hgz; try done;
        repeat case_decide; try done;
        injection Hval as Hval; try done;
        try (intros Hg; apply Hgzip in Hg; done);
        by apply dec_stable.
    + intros (? & ? & r & _ & _ & _ & _ & _ & [= <-] & H200 & Hlen & Hg & Hdec).
      unfold decodeBody.
      destruct (bodyOf resp) eqn:Hbody.
      * rewrite decide_False by (intros ?; done).
        rewrite decide_False by done. rewrite Hdec.
        by destruct (gzip_NewReader_err X).
      * rewrite (Hg (proj1 Hgzip eq_refl)).
        rewrite decide_False by (intros ?; done).
        rewrite decide_False by done. by rewrite Hdec.
    + unfold decodeBody.
      destruct (bodyOf resp), (gzip_NewReader_err X); try done;
        repeat case_decide; done.
    + intros [?|(? & [= <-] & _ & [?|(_ & [?|?])])]; congruence.
  - split; (split; [done|]).
    + by intros (? & ? & ? & _ & _ & _ & _ & _ & ? & _).
    + intros [?|(? & [= <-] & _ & [?|(_ & [?|?])])]; congruence.
  - split; [split; [done|]|].
    + by intros (? & ? & ? & _ & _ & _ & _ & _ & ? & _).
    + split; [|done]. intros _. right. exists client.
      repeat split. right. split; [done|by right].
Qed.

Lemma DmsList_succeeds_iff_witness :
  (DmsList sampleLibs (Some sampleClient) (sampleExchange None)).1 =
  Returned (Ok {| Nodes := {[ "n1" := true; "n2" := false ]} |}).
Proof.
  refine (proj2 (proj1 (DmsList_succeeds_iff sampleLibs (Some sampleClient)
    (sampleExchange None)
    {| Nodes := {[ "n1" := true; "n2" := false ]} |})) _).
  exists sampleClient, sampleHttpClient, gzipAnswer.
  repeat split; discriminate.
Defined.

(** * Setting the helper up *)

Lemma filterOutNodeID_empty_id (n : list NodeListStub) :
  filterOutNodeID n "" = n.
Proof. done. Qed.

(** X28. Identifying the node of the autoscaler is best effort: the lookup
    fails exactly when NOMAD_ALLOC_ID is set and the allocation cannot be
    read, and whenever it fails or the variable is unset the ID is empty,
    so that the self-node filter then keeps every node of the pool. *)
Theorem identifyAutoscalerNodeID_best_effort (getenv : string -> string)
    (Allocations_Info : string -> Result string) (n : list NodeListStub) :
  let r := identifyAutoscalerNodeID getenv Allocations_Info in
  (r.2 ≠ None <->
   getenv "NOMAD_ALLOC_ID" ≠ "" /\
   exists err, Allocations_Info (getenv "NOMAD_ALLOC_ID") = Err err) /\
  (r.2 ≠ None \/ getenv "NOMAD_ALLOC_ID" = "" -> filterOutNodeID n r.1 = n).
Proof.
  unfold identifyAutoscalerNodeID.
  destruct (decide (getenv "NOMAD_ALLOC_ID" = "")) as [Henv|Henv]; simpl.
  - split; [split; [done|by intros [? _]]|done].
  - destruct (Allocations_Info (getenv "NOMAD_ALLOC_ID")) as [nodeID|err];
      simpl.
    + split; [split; [done|by intros (_ & ? & ?)]|by intros [?|?]].
    + split; [split; [by eauto|done]|done].
Qed.

Lemma identifyAutoscalerNodeID_best_effort_witness :
  filterOutNodeID inventory3
    (identifyAutoscalerNodeID allocEnv allocationsDown).1 = inventory3.
Proof.
  refine (proj2 (identifyAutoscalerNodeID_best_effort allocEnv allocationsDown
    inventory3) _).
  left. discriminate.
Defined.

(** X29. Setting the helper up fails only when the Nomad client cannot be
    built, with the message failed to instantiate Nomad client and no helper;
    no failure to identify the own node or to build the DMS client is
    returned.  A helper that is handed out runs on the node the lookup
    named. *)
Theorem NewScaleInUtils_fails_iff (L : Libs) (getenv : string -> string)
    (api_NewClient : Result NomadClient)
    (Allocations_Info : string -> Result string) (dmsCfg : DmsApiConfig) :
  let r := value (NewScaleInUtils L getenv api_NewClient Allocations_Info dmsCfg) in
  (forall s e, r = Returned (s, Some e) <->
     s = None /\
     exists err, api_NewClient = Err err /\
       e = errorString ("failed to instantiate Nomad client: " +:+ Error_ err)) /\
  (forall s, r = Returned (Some s, None) ->
     api_NewClient = Ok (new_nomad s) /\
     new_curNodeID s = (identifyAutoscalerNodeID getenv Allocations_Info).1) /\
  (r = Panicked <->
   (exists client, api_NewClient = Ok client) /\
   NewDmsApiClient L getenv dmsCfg = Panicked).
Proof.
  unfold NewScaleInUtils.
  destruct api_NewClient as [client|nerr]; simpl.
  - destruct (identifyAutoscalerNodeID getenv Allocations_Info) as [id ierr].
    destruct (NewDmsApiClient L getenv dmsCfg) as [[[dmsApiClient derr] cfg]|];
      go_simpl.
    + split; [|split].
      * intros s e. split; [done|]. by intros (_ & ? & ? & _).
      * by intros s [= <-].
      * split; [done|]. by intros [_ ?].
    + split; [|split].
      * intros s e. split; [done|]. by intros (_ & ? & ? & _).
      * done.
      * split; [|done]. intros _. eauto.
  - go_simpl. split; [|split].
    + intros s e. unfold Errorf_v. split.
      * intros [= <- <-]. eauto.
      * by intros (-> & err & [= <-] & ->).
    + done.
    + split; [done|]. by intros [[? ?] _].
Qed.

(** X30. A DMS client that cannot be built does not stop the set-up: the
    helper is handed out without error and with a nil DMS client, and the
    last thing logged is the failure, at error level and under the message
    of the node lookup, failed to identify Nomad Autoscaler nodeID. *)
Theorem NewScaleInUtils_without_dms_client (L : Libs)
    (getenv : string -> string) (client : NomadClient)
    (Allocations_Info : string -> Result string) (dmsCfg cfg : DmsApiConfig)
    (err : error) :
  NewDmsApiClient L getenv dmsCfg = Returned ((None, Some err), cfg) ->
  let run := NewScaleInUtils L getenv (Ok client) Allocations_Info dmsCfg in
  value run =
    Returned (Some {| new_nomad := client; new_dms := None;
                      new_curNodeID :=
                        (identifyAutoscalerNodeID getenv Allocations_Info).1 |},
              None) /\
  last (trace run) =
    Some (EvLog LError "failed to identify Nomad Autoscaler nodeID"
            [("error", VStr (Error_ err))]).
Proof.
  intros Hdms. unfold NewScaleInUtils. rewrite Hdms.
  destruct (identifyAutoscalerNodeID getenv Allocations_Info) as [id [ierr|]];
    go_simpl; done.
Qed.

Lemma NewScaleInUtils_without_dms_client_witness :
  value (NewScaleInUtils sampleLibs allocEnv (Ok (healthyNomad inventory3))
           allocationsDown halfPairConfig) =
    Returned (Some {| new_nomad := healthyNomad inventory3; new_dms := None;
                      new_curNodeID := "" |}, None) /\
  last (trace (NewScaleInUtils sampleLibs allocEnv (Ok (healthyNomad inventory3))
                 allocationsDown halfPairConfig)) =
    Some (EvLog LError "failed to identify Nomad Autoscaler nodeID"
            [("error",
              VStr "Both client cert and client key must be provided")]).
Proof.
  refine (NewScaleInUtils_without_dms_client sampleLibs allocEnv
    (healthyNomad inventory3) allocationsDown halfPairConfig halfPairConfig
    (errorString "Both client cert and client key must be provided") _).
  reflexivity.
Defined.

(** ** A helper without DMS client, and a client with an unparsed address *)

(** A run that gets as far as the busy-node filter panics there when the
    helper has no DMS client. *)
Lemma RunPreScaleInTasks_nil_dms_panics (P : Pkg) (si : ScaleIn)
    (sch : Scheduler) (ctx : Context) (req : ScaleInReq)
    (nodes : list NodeListStub) (ids : list NodeID) :
  validate P req = None ->
  value (identifyTargets P si (Num req) (ReqPoolIdentifier req)
           (ReqNodeIDStrategy req)) = Returned (nodes, None) ->
  value (getRemoteIDMap P si nodes (ReqRemoteProvider req)) = (ids, None) ->
  dms si = None ->
  value (RunPreScaleInTasks P si sch ctx req) = Panicked.
Proof.
  intros Hvalid Hsel Hres Hnil.
  apply RunPreScaleInTasks_filter_panics with (nodes := nodes) (ids := ids);
    try done.
  apply filterBusyNodes_panics. by left.
Qed.

(** The helper that is set up with a DMS configuration whose client
    certificate lacks its key has no DMS client, and its runs panic, for a
    count of zero as for a count of two. *)
Example NewScaleInUtils_then_run_panics :
  exists s,
    value (NewScaleInUtils sampleLibs allocEnv (Ok (healthyNomad inventory3))
             allocationsDown halfPairConfig) = Returned (Some s, None) /\
    helperOf sampleLibs (sampleExchange None) s = withoutDms inventory3 /\
    value (RunPreScaleInTasks samplePkg
             (helperOf sampleLibs (sampleExchange None) s) fifo background
             (request 0)) = Panicked /\
    value (RunPreScaleInTasks samplePkg
             (helperOf sampleLibs (sampleExchange None) s) fifo background
             (request 2)) = Panicked.
Proof. eexists. repeat split; reflexivity. Qed.

(** A client built from a configuration without address takes DMS_ADDR
    unparsed; when that address does not parse, listing the nodes through
    the client panics. *)
Lemma DmsList_unparsed_default_address (L : Libs) (getenv : string -> string)
    (dmsCfg : DmsApiConfig) (h : HttpClient) (X : Exchange) :
  Address dmsCfg = "" ->
  ConfigHttpClient dmsCfg = Some h ->
  getenv "DMS_ADDR" ≠ "" ->
  url_Parse L (getenv "DMS_ADDR") ≠ None ->
  url_Parse L "/v1/nodes" = None ->
  exists client,
    NewDmsApiClient L getenv dmsCfg =
      Returned ((Some client, None), withAddress (getenv "DMS_ADDR") dmsCfg) /\
    (DmsList L (Some client) X).1 = Panicked.
Proof.
  intros Haddr Hclient Henv Hbad Hpath.
  rewrite NewDmsApiClient_filled by done. rewrite Hclient.
  rewrite decide_False by done. eexists. split; [done|].
  rewrite DmsList_value. simpl. rewrite Hpath.
  by destruct (url_Parse L (getenv "DMS_ADDR")).
Qed.
